(** * Mix.cpp: the mixdown engine of lib-sample-track

    A shallow embedding of [Mixer], [MixerOptions::Warp],
    [MixerOptions::ResampleParameters] and [MixerOptions::Downmix].

    Numbers.  [double] and [float] values are rationals with exact
    arithmetic: a value of the model is a finite number, there is no NaN,
    no infinity and no rounding.  [size_t] values are [nat], [int] and
    [sampleCount] values are [Z]; where the source subtracts in [size_t]
    the wrap-around is written out.  Where a statement turns on overflow
    or underflow of a [double], the constructor it is about is given a
    second time over IEEE 754 binary64 (the modules [Binary64], [Warp64]
    and [ResampleParameters64]). *)

From Stdlib Require Import ZArith QArith Qround Qabs Lia Lqa Bool.
From Stdlib Require Import SpecFloat.
From stdpp Require Import base list.

Local Open Scope Q_scope.

(** ** Numbers *)

Abbreviation double := Q (only parsing).
Abbreviation sample := Q (only parsing).
Abbreviation sampleCount := Z (only parsing).

#[global] Instance Q_inhabited : Inhabited Q := populate 0.

Definition Qltb (x y : Q) : bool := negb (Qle_bool y x).

(** [std::min], [std::max] and [std::clamp] of <algorithm>, written with
    the comparisons the standard prescribes. *)
Definition std_min (a b : double) : double := if Qltb b a then b else a.
Definition std_max (a b : double) : double := if Qltb a b then b else a.
Definition std_clamp (v lo hi : double) : double :=
  if Qltb v lo then lo else if Qltb hi v then hi else v.

(** [std::numeric_limits<double>::max()] *)
Definition DBL_MAX : double := inject_Z ((2 ^ 53 - 1) * 2 ^ 971).




(** [fabs] *)
Definition fabs (x : double) : double := Qabs x.

(** Conversion of a [double] to an integer type truncates toward zero. *)
Definition Qtrunc (x : double) : Z := Z.quot (Qnum x) (Z.pos (Qden x)).

(** [size_t] is 64 bits wide. *)
Definition size_t_wrap (z : Z) : Z := (z mod 2 ^ 64)%Z.

(** A [size_t] converted to [sampleCount] (a signed 64-bit value). *)
Definition sampleCount_of_size_t (z : Z) : sampleCount :=
  if (z <? 2 ^ 63)%Z then z else (z - 2 ^ 64)%Z.

(** Modelled from the spec: [limitSampleBufferSize] of SampleCount.cpp,
    which is not among the sources.  The spec writes its result as
    [min(bufferSize, limit)]; the result is a [size_t], so a negative
    [limit] gives 0. *)
Definition limitSampleBufferSize (bufferSize : nat) (limit : sampleCount) : nat :=
  Z.to_nat (Z.min (Z.of_nat bufferSize) (Z.max 0 limit)).

(** ** MixerOptions::Downmix *)

Module Downmix.

Record t := mk {
  mNumTracks : nat;
  mNumChannels : nat;
  mMaxNumChannels : nat;
  mMap : list (list bool);   (* ArraysOf<bool>, mNumTracks x mMaxNumChannels *)
}.

Definition GetNumChannels (d : t) : nat := mNumChannels d.
Definition GetNumTracks (d : t) : nat := mNumTracks d.

(** [mMap[i][j]], when both indices are inside the allocation. *)
Definition cell (d : t) (i j : nat) : option bool :=
  mMap d !! i ≫= λ row, row !! j.

(** [for (j = from; j < to; j++) row[j] = false;] *)
Definition clear_columns (from to : nat) (row : list bool) : list bool :=
  foldl (λ r j, <[j := false]> r) row (seq from (to - from)).

(** [bool Downmix::SetNumChannels(unsigned newNumChannels)]: the new
    object and the returned flag. *)
Definition SetNumChannels (d : t) (newNumChannels : nat) : t * bool :=
  if (mNumChannels d =? newNumChannels)%nat then (d, true)
  else if (mMaxNumChannels d <? newNumChannels)%nat then (d, false)
  else
    let row_step (i : nat) (row : list bool) :=
      if (i <? mNumTracks d)%nat then
        clear_columns (mNumChannels d) newNumChannels
          (clear_columns newNumChannels (mNumChannels d) row)
      else row in
    (mk (mNumTracks d) newNumChannels (mMaxNumChannels d)
        (imap row_step (mMap d)), true).

(** The class invariant kept by the constructors and by
    [SetNumChannels]. *)
Definition wf (d : t) : Prop := (mNumChannels d <= mMaxNumChannels d)%nat.

(** The claim about [SetNumChannels] as the specification words it: only
    the columns [n, previous) change. *)
Definition only_dropped_columns_change (d : t) (n : nat) : Prop :=
  ∀ i j, ¬ (n <= j < mNumChannels d)%nat →
         cell (SetNumChannels d n).1 i j = cell d i j.

(** One track, one active channel out of two, and a set flag in the
    inactive column (the map is a public member). *)
Definition grown : t := mk 1 1 2 [[true; true]].

(** Modelled from the spec: [ArraysOf<bool>::reinit(countN, countM)] of
    MemoryX.h, which is not among the sources.  The spec gives the matrix
    the dimensions (numTracks, maxChannels); of its entries before they are
    assigned it says nothing, and [fresh i j] stands for what entry [i][j]
    holds then. *)
Definition reinit (fresh : nat → nat → bool) (countN countM : nat)
    : list (list bool) :=
  (λ i, fresh i <$> seq 0 countM) <$> seq 0 countN.

(** [Downmix::Alloc] *)
Definition Alloc (fresh : nat → nat → bool) (d : t) : t :=
  mk (mNumTracks d) (mNumChannels d) (mMaxNumChannels d)
     (reinit fresh (mNumTracks d) (mMaxNumChannels d)).

(** [mMap[i][j] = b;] *)
Definition assign_cell (i j : nat) (b : bool) (m : list (list bool))
    : list (list bool) :=
  alter (<[j := b]>) i m.

(** The nested loops of the constructors and of [operator=]:
    [for (i < mNumTracks) for (j < mNumChannels) mMap[i][j] = value i j;] *)
Definition fill (value : nat → nat → bool) (d : t) : t :=
  mk (mNumTracks d) (mNumChannels d) (mMaxNumChannels d)
     (foldl (λ m i,
        foldl (λ m j, assign_cell i j (value i j) m) m
          (seq 0 (mNumChannels d)))
        (mMap d) (seq 0 (mNumTracks d))).

(** [Downmix(unsigned numTracks, unsigned maxNumChannels)] *)
Definition new (fresh : nat → nat → bool) (numTracks maxNumChannels : nat)
    : t :=
  let numChannels :=
    if (maxNumChannels <? numTracks)%nat then maxNumChannels else numTracks in
  fill (λ i j, (i =? j)%nat)
    (Alloc fresh (mk numTracks numChannels maxNumChannels [])).

(** [Downmix(const Downmix &mixerSpec)] *)
Definition copy (fresh : nat → nat → bool) (mixerSpec : t) : t :=
  fill (λ i j, (mMap mixerSpec !!! i) !!! j)
    (Alloc fresh
       (mk (mNumTracks mixerSpec) (mNumChannels mixerSpec)
           (mMaxNumChannels mixerSpec) [])).

(** [Downmix::operator=(const Downmix &mixerSpec)], for a [mixerSpec] that
    is another object than [*this]. *)
Definition assign (fresh : nat → nat → bool) (this mixerSpec : t) : t :=
  fill (λ i j, (mMap mixerSpec !!! i) !!! j)
    (Alloc fresh
       (mk (mNumTracks mixerSpec) (mNumChannels mixerSpec)
           (mMaxNumChannels mixerSpec) (mMap this))).

(** The map has [mNumTracks] rows of [mMaxNumChannels] entries. *)
Definition shaped (d : t) : Prop :=
  length (mMap d) = mNumTracks d ∧
  Forall (λ row, length row = mMaxNumChannels d) (mMap d).

(** The calls [SetNumChannels(n)], for [n] in [ns] in turn. *)
Definition resized (d : t) (ns : list nat) : t :=
  foldl (λ d n, (SetNumChannels d n).1) d ns.

(** The least active channel count the map has had over those calls. *)
Definition least (d : t) (ns : list nat) : nat :=
  (foldl (λ '(d, m) n,
     let d' := (SetNumChannels d n).1 in (d', Nat.min m (mNumChannels d')))
     (d, mNumChannels d) ns).2.

(** [mMap[i][j]] of a bare matrix. *)
Definition cellm (m : list (list bool)) (i j : nat) : option bool :=
  m !! i ≫= λ row, row !! j.

(** Two tracks on up to four channels, built over memory that holds
    [true] everywhere. *)
Definition two_of_four : t := new (λ _ _, true) 2 4.

End Downmix.

(** ** Collaborators: envelope, track, resampler *)

(** [BoundedEnvelope] of Envelope.h, as the engine uses it. *)
Record BoundedEnvelope := {
  GetRangeLower : double;
  GetRangeUpper : double;
  AverageOfInverse : double → double → double;
}.

(** [Track::ChannelType] *)
Inductive ChannelType := LeftChannel | RightChannel | MonoChannel.

(** What a raw read of a track gives: the samples (as the contents of the
    returned pointer, by index), a null pointer, or a read error. *)
Inductive ReadResult :=
  | Floats (f : nat → sample)
  | Null
  | ReadError.

(** [SampleTrack], as the engine uses it.  [GetEnvelopeValues len t0 i] is
    [buffer[i]] after the call [GetEnvelopeValues(buffer, len, t0)];
    [ChannelsSize] is [TrackList::Channels(track).size()], the size of a
    range that holds the track itself. *)
Record SampleTrack := {
  GetRate : double;
  GetStartTime : double;
  GetEndTime : double;
  GetChannel : ChannelType;
  GetChannelGain : nat → sample;
  TimeToLongSamples : double → sampleCount;
  GetEnvelopeValues : nat → double → nat → double;
  ReadFloats : sampleCount → nat → ReadResult;
  ChannelsSize : positive;
}.

(** A call returns a value, throws (leaving the state [e] behind), or, in
    the model, runs out of fuel. *)
Inductive outcome (E A : Type) :=
  | Done (a : A)
  | Raised (e : E)
  | Timeout.
Arguments Done {E A} a.
Arguments Raised {E A} e.
Arguments Timeout {E A}.

#[global] Instance outcome_ret {E} : MRet (outcome E) := λ A a, Done a.
#[global] Instance outcome_bind {E} : MBind (outcome E) := λ A B f m,
  match m with
  | Done a => f a
  | Raised e => Raised e
  | Timeout => Timeout
  end.

(** The state an exception leaves behind, seen from the caller. *)
Definition map_raise {E E' A} (f : E → E') (m : outcome E A) : outcome E' A :=
  match m with
  | Done a => Done a
  | Raised e => Raised (f e)
  | Timeout => Timeout
  end.

(** Modelled from the spec: [SampleTrackCache::GetFloats], which is not
    among the sources.  A failed read gives null, and with [mayThrow] a read
    error propagates instead. *)
Definition cache_GetFloats (track : SampleTrack) (start : sampleCount)
    (len : nat) (mayThrow : bool) : outcome () (option (nat → sample)) :=
  match ReadFloats track start len with
  | Floats f => Done (Some f)
  | Null => Done None
  | ReadError => if mayThrow then Raised () else Done None
  end.

(** [Resample] of Resample.h: construction from (highQuality, minFactor,
    maxFactor), and [Process(factor, inBuffer, inBufferLen, lastFlag,
    outBuffer, outBufferLen)].  [inBuffer] is the memory from the pointer
    on; the result is the new resampler state, the number of input samples
    used and the samples written to [outBuffer]. *)
Class ResampleOps := {
  Resample : Type;
  Resample_new : bool → double → double → Resample;
  Resample_Process :
    Resample → double → list sample → nat → bool → nat →
    Resample * (nat * list sample);
}.

(** The resampler's side of the contract: it uses no more input than it is
    given, writes no more output than there is room for, and, when it is
    given input and room and is not flushing, it does one or the other. *)
Class ResampleContract (RO : ResampleOps) := {
  Resample_used_le : ∀ r factor inBuffer inLen last outMax,
    ((Resample_Process r factor inBuffer inLen last outMax).2.1 <= inLen)%nat;
  Resample_produced_le : ∀ r factor inBuffer inLen last outMax,
    (length (Resample_Process r factor inBuffer inLen last outMax).2.2
     <= outMax)%nat;
  Resample_progress : ∀ r factor inBuffer inLen outMax,
    (0 < inLen)%nat → (0 < outMax)%nat →
    (0 < (Resample_Process r factor inBuffer inLen false outMax).2.1 +
         length (Resample_Process r factor inBuffer inLen false outMax).2.2)%nat;
}.

(** [Mixer::sProcessLen] and [Mixer::sQueueMaxLen] of Mix.h, which is not
    among the sources; the spec has them as constants with
    [sProcessLen < sQueueMaxLen]. *)
Class MixerConstants := {
  sProcessLen : nat;
  sQueueMaxLen : nat;
  sProcessLen_pos : (0 < sProcessLen)%nat;
  sProcessLen_lt : (sProcessLen < sQueueMaxLen)%nat;
}.

(** ** MixerOptions::Warp *)

Module Warp.

Record t := mk {
  envelope : option BoundedEnvelope;
  minSpeed : double;
  maxSpeed : double;
  initialSpeed : double;
}.

(** [Warp(const BoundedEnvelope *e)], and [Warp(const TrackList &list)]
    with [e] the envelope that [DefaultWarp::Call(list)] gives;
    [initialSpeed] keeps its default member initialiser, 1.0. *)
Definition of_envelope (e : option BoundedEnvelope) : t := mk e 0 0 1.

(** [Warp(double min, double max, double initial)]; the assertions
    [min >= 0], [max >= 0], [min <= max] are its preconditions. *)
Definition of_speeds (min max initial : double) : t :=
  mk None (std_max 0 (std_min min max)) (std_max 0 (std_max min max)) initial.


End Warp.

(** ** MixerOptions::ResampleParameters *)

Module ResampleParameters.

Record t := mk {
  mbVariableRates : bool;
  mMinFactor : list double;
  mMaxFactor : list double;
}.

(** One turn of the constructor's loop over the input tracks. *)
Definition step (rate : double) (options : Warp.t) (acc : t)
    (pTrack : SampleTrack) : t :=
  let factor := rate / GetRate pTrack in
  match Warp.envelope options with
  | Some envelope =>
      (* variable rate resampling *)
      mk true (mMinFactor acc ++ [factor / GetRangeUpper envelope])
              (mMaxFactor acc ++ [factor / GetRangeLower envelope])
  | None =>
      if Qltb 0 (Warp.minSpeed options) && Qltb 0 (Warp.maxSpeed options) then
        (* variable rate resampling *)
        mk true (mMinFactor acc ++ [factor / Warp.maxSpeed options])
                (mMaxFactor acc ++ [factor / Warp.minSpeed options])
      else
        (* constant rate resampling *)
        mk false (mMinFactor acc ++ [factor]) (mMaxFactor acc ++ [factor])
  end.

(** [ResampleParameters(inputTracks, rate, options)] *)
Definition new (inputTracks : list SampleTrack) (rate : double)
    (options : Warp.t) : t :=
  foldl (step rate options) (mk false [] []) inputTracks.

(** The options ask for resampling at a rate that varies: the test the
    constructor makes for each track. *)
Definition varies (options : Warp.t) : bool :=
  match Warp.envelope options with
  | Some _ => true
  | None => Qltb 0 (Warp.minSpeed options) && Qltb 0 (Warp.maxSpeed options)
  end.

End ResampleParameters.

(** ** The factors in binary64 *)

(** IEEE 754 binary64, the [double] of the source, with the operations of
    the Standard Library's [SpecFloat] at precision 53 and maximal exponent
    1024: division rounds to nearest, ties to even, overflows to infinity
    and underflows to zero. *)
Module Binary64.

Definition prec : Z := 53.
Definition emax : Z := 1024.

(** The [double] nearest to [m * 2^e]. *)
Definition of_Z (m e : Z) : spec_float := binary_normalize prec emax m e false.

Definition zero : spec_float := S754_zero false.
Definition div (x y : spec_float) : spec_float := SFdiv prec emax x y.
Definition ltb (x y : spec_float) : bool := SFltb x y.
Definition leb (x y : spec_float) : bool := SFleb x y.

Definition std_min (a b : spec_float) : spec_float := if ltb b a then b else a.
Definition std_max (a b : spec_float) : spec_float := if ltb a b then b else a.

(** [std::isfinite] *)
Definition isfinite (x : spec_float) : bool :=
  match x with
  | S754_zero _ | S754_finite _ _ _ => true
  | S754_infinity _ | S754_nan => false
  end.

End Binary64.

(** [MixerOptions::Warp] over binary64; of an envelope the constructor of
    the parameters uses [GetRangeLower()] and [GetRangeUpper()], so that
    pair stands for it. *)
Module Warp64.
Import Binary64.

Record t := mk {
  envelope : option (spec_float * spec_float);
  minSpeed : spec_float;
  maxSpeed : spec_float;
  initialSpeed : spec_float;
}.

(** [Warp(double min, double max, double initial)] *)
Definition of_speeds (min max initial : spec_float) : t :=
  mk None (std_max zero (std_min min max)) (std_max zero (std_max min max))
     initial.

End Warp64.

(** [MixerOptions::ResampleParameters] over binary64; of a track the
    constructor uses [GetRate()], so the rate stands for the track. *)
Module ResampleParameters64.
Import Binary64.

Record t := mk {
  mbVariableRates : bool;
  mMinFactor : list spec_float;
  mMaxFactor : list spec_float;
}.

(** One turn of the constructor's loop over the input tracks. *)
Definition step (rate : spec_float) (options : Warp64.t) (acc : t)
    (trackRate : spec_float) : t :=
  let factor := div rate trackRate in
  match Warp64.envelope options with
  | Some (rangeLower, rangeUpper) =>
      (* variable rate resampling *)
      mk true (mMinFactor acc ++ [div factor rangeUpper])
              (mMaxFactor acc ++ [div factor rangeLower])
  | None =>
      if ltb zero (Warp64.minSpeed options) && ltb zero (Warp64.maxSpeed options)
      then
        (* variable rate resampling *)
        mk true (mMinFactor acc ++ [div factor (Warp64.maxSpeed options)])
                (mMaxFactor acc ++ [div factor (Warp64.minSpeed options)])
      else
        (* constant rate resampling *)
        mk false (mMinFactor acc ++ [factor]) (mMaxFactor acc ++ [factor])
  end.

(** [ResampleParameters(inputTracks, rate, options)] *)
Definition new (trackRates : list spec_float) (rate : spec_float)
    (options : Warp64.t) : t :=
  foldl (step rate options) (mk false [] []) trackRates.

(** The invariant as the specification words it, for track [i]:
    [minFactor <= maxFactor], both finite and [> 0]. *)
Definition invariant_as_claimed (p : t) (i : nat) : Prop :=
  ∃ minFactor maxFactor,
    mMinFactor p !! i = Some minFactor ∧ mMaxFactor p !! i = Some maxFactor ∧
    leb minFactor maxFactor = true ∧
    isfinite minFactor = true ∧ isfinite maxFactor = true ∧
    ltb zero minFactor = true ∧ ltb zero maxFactor = true.

End ResampleParameters64.

(** ** Mixer *)

Section Engine.
Context `{MC : MixerConstants} `{RO : ResampleOps}.

(** Row [i] of the vectors the engine keeps per input track:
    [mInputTrack[i]], [mSamplePos[i]], [mSampleQueue[i]], [mQueueStart[i]],
    [mQueueLen[i]] and [mResample[i]]. *)
Record Input := mkInput {
  mInputTrack : SampleTrack;
  mSamplePos : sampleCount;
  mSampleQueue : list sample;
  mQueueStart : Z;
  mQueueLen : Z;
  mResample : Resample;
}.

(** The engine.  [mNumInputTracks] is the length of [mInputs].  The scratch
    vectors [mFloatBuffers] and [mEnvValues] are passed as values between
    the functions that fill and read them; [mBuffer], written by
    [CopySamples] in the output format, is outside the model. *)
Record Mixer := mkMixer {
  mNumChannels : nat;
  mBufferSize : nat;
  mRate : double;
  mEnvelope : option BoundedEnvelope;
  mResampleParameters : ResampleParameters.t;
  mApplyTrackGains : bool;
  mMixerSpec : option Downmix.t;
  mHighQuality : bool;
  mInterleaved : bool;
  mMayThrow : bool;
  mInputs : list Input;
  mT0 : double;
  mT1 : double;
  mTime : double;
  mTemp : list (list sample);
  mSpeed : double;
}.

Definition mNumInputTracks (s : Mixer) : nat := length (mInputs s).
Definition BufferSize (s : Mixer) : nat := mBufferSize s.

Definition set_mInputs (s : Mixer) (l : list Input) : Mixer :=
  mkMixer (mNumChannels s) (mBufferSize s) (mRate s) (mEnvelope s)
    (mResampleParameters s) (mApplyTrackGains s) (mMixerSpec s)
    (mHighQuality s) (mInterleaved s) (mMayThrow s) l
    (mT0 s) (mT1 s) (mTime s) (mTemp s) (mSpeed s).

Definition set_mTime (s : Mixer) (t : double) : Mixer :=
  mkMixer (mNumChannels s) (mBufferSize s) (mRate s) (mEnvelope s)
    (mResampleParameters s) (mApplyTrackGains s) (mMixerSpec s)
    (mHighQuality s) (mInterleaved s) (mMayThrow s) (mInputs s)
    (mT0 s) (mT1 s) t (mTemp s) (mSpeed s).

Definition set_mTemp (s : Mixer) (b : list (list sample)) : Mixer :=
  mkMixer (mNumChannels s) (mBufferSize s) (mRate s) (mEnvelope s)
    (mResampleParameters s) (mApplyTrackGains s) (mMixerSpec s)
    (mHighQuality s) (mInterleaved s) (mMayThrow s) (mInputs s)
    (mT0 s) (mT1 s) (mTime s) b (mSpeed s).

Definition set_times_speed (s : Mixer) (t0 t1 speed : double) : Mixer :=
  mkMixer (mNumChannels s) (mBufferSize s) (mRate s) (mEnvelope s)
    (mResampleParameters s) (mApplyTrackGains s) (mMixerSpec s)
    (mHighQuality s) (mInterleaved s) (mMayThrow s) (mInputs s)
    t0 t1 (mTime s) (mTemp s) speed.

Definition set_mSamplePos (inp : Input) (pos : sampleCount) : Input :=
  mkInput (mInputTrack inp) pos (mSampleQueue inp) (mQueueStart inp)
    (mQueueLen inp) (mResample inp).

(** [Mixer::MakeResamplers] *)
Definition MakeResamplers (s : Mixer) : Mixer :=
  set_mInputs s
    (imap (λ i inp,
       mkInput (mInputTrack inp) (mSamplePos inp) (mSampleQueue inp)
         (mQueueStart inp) (mQueueLen inp)
         (Resample_new (mHighQuality s)
            (ResampleParameters.mMinFactor (mResampleParameters s) !!! i)
            (ResampleParameters.mMaxFactor (mResampleParameters s) !!! i)))
       (mInputs s)).

(** The constructor [Mixer::Mixer]. *)
Definition Mixer_new (inputTracks : list SampleTrack) (mayThrow : bool)
    (warpOptions : Warp.t) (startTime stopTime : double)
    (numOutChannels outBufferSize : nat) (outInterleaved : bool)
    (outRate : double) (highQuality : bool) (mixerSpec : option Downmix.t)
    (applyTrackGains : bool) : Mixer :=
  let params := ResampleParameters.new inputTracks outRate warpOptions in
  let spec :=
    match mixerSpec with
    | Some m =>
        if (Downmix.GetNumChannels m =? numOutChannels)%nat &&
           (Downmix.GetNumTracks m =? length inputTracks)%nat
        then Some m else None
    | None => None
    end in
  mkMixer numOutChannels outBufferSize outRate (Warp.envelope warpOptions)
    params applyTrackGains spec highQuality outInterleaved mayThrow
    (imap (λ i track,
       mkInput track (TimeToLongSamples track startTime)
         (replicate sQueueMaxLen 0) 0 0
         (Resample_new highQuality
            (ResampleParameters.mMinFactor params !!! i)
            (ResampleParameters.mMaxFactor params !!! i)))
       inputTracks)
    startTime stopTime startTime
    (replicate numOutChannels (replicate outBufferSize 0))
    (Warp.initialSpeed warpOptions).

(** [Mixer::Clear] *)
Definition Clear (s : Mixer) : Mixer :=
  set_mTemp s (map (λ buffer, replicate (length buffer) 0) (mTemp s)).

(** [MixBuffers]: [dest[j] += src[j] * gain] for [j < len], for one
    destination. *)
Fixpoint add_block (dest src : list sample) (gain : sample) : list sample :=
  match dest, src with
  | d :: dest', x :: src' => (d + x * gain) :: add_block dest' src' gain
  | _, _ => dest
  end.

Definition MixBuffers (numChannels : nat) (channelFlags : list bool)
    (gains : nat → sample) (src : list sample) (dests : list (list sample))
    (len : nat) : list (list sample) :=
  imap (λ c dest,
    if (c <? numChannels)%nat && (channelFlags !!! c)
    then add_block dest (take len src) (gains c)
    else dest) dests.

(** The lambda [findChannelFlags] of [Mixer::Process]. *)
Definition findChannelFlags (numChannels : nat) (map : option (list bool))
    (channel : ChannelType) : list bool :=
  let cleared := replicate numChannels false in
  match map with
  | Some m =>
      (* ignore left and right when downmixing is customized *)
      take numChannels m ++ drop (length m) cleared
  | None =>
      match channel with
      | MonoChannel => replicate numChannels true
      | LeftChannel => <[0%nat := true]> cleared
      | RightChannel =>
          if (2 <=? numChannels)%nat then <[1%nat := true]> cleared
          else <[0%nat := true]> cleared
      end
  end.

(** [memcpy(dst, results, sizeof(float) * len)] when the read gave
    samples, [memset(dst, 0, sizeof(float) * len)] when it gave null:
    the [len] floats written. *)
Definition copy_or_zero (results : option (nat → sample)) (len : nat)
    : list sample :=
  match results with
  | Some f => map f (seq 0 len)
  | None => replicate len 0
  end.

(** [for (i = 0; i < len; i++) buffer[i] *= mEnvValues[i];] *)
Definition apply_envelope (env : nat → double) (buffer : list sample)
    : list sample :=
  imap (λ i x, x * env i) buffer.

(** [data] written over [buf] from offset [off] on. *)
Definition write (off : nat) (data buf : list sample) : list sample :=
  take off buf ++ data ++ drop (off + length data) buf.

Definition backwards (s : Mixer) : bool := Qltb (mT1 s) (mT0 s).

(** The end of play for one track: [tEnd] of [MixSameRate] and
    [MixVariableRates]. *)
Definition tEnd (s : Mixer) (track : SampleTrack) : double :=
  if backwards s then std_max (GetStartTime track) (mT1 s)
  else std_min (GetEndTime track) (mT1 s).

(** [Mixer::MixSameRate]: row [ii] after the call, the returned count and
    the floats written to [floatBuffer].  The length [slen] of the block
    is computed in the exact arithmetic of the model, where the source
    rounds in binary64 and converts to a 64-bit [sampleCount]; the
    statements about [MixSameRate] hold for whatever length the block
    has. *)
Definition MixSameRate (s : Mixer) (inp : Input) (maxOut : nat)
    : outcome Input (Input * nat * list sample) :=
  let track := mInputTrack inp in
  let pos := mSamplePos inp in
  let t := inject_Z pos / GetRate track in
  let tEnd := tEnd s track in
  (* don't process if we're at the end of the selection or track. *)
  if (if backwards s then Qle_bool t tEnd else Qle_bool tEnd t)
  then Done (inp, 0%nat, [])
  else
    let slen :=
      limitSampleBufferSize maxOut
        (Qtrunc ((if backwards s then t - tEnd else tEnd - t) * GetRate track
                 + (1 # 2))) in
    if backwards s then
      let slen1 := size_t_wrap (Z.of_nat slen - 1) in
      results ← map_raise (λ _, inp)
                  (cache_GetFloats track (pos - sampleCount_of_size_t slen1)
                     slen (mMayThrow s));
      let env := GetEnvelopeValues track slen (t - inject_Z slen1 / mRate s) in
      let pFloat := reverse (apply_envelope env (copy_or_zero results slen)) in
      Done (set_mSamplePos inp (pos - Z.of_nat slen), slen, pFloat)
    else
      results ← map_raise (λ _, inp)
                  (cache_GetFloats track pos slen (mMayThrow s));
      let env := GetEnvelopeValues track slen t in
      let pFloat := apply_envelope env (copy_or_zero results slen) in
      Done (set_mSamplePos inp (pos + Z.of_nat slen), slen, pFloat).

(** [ComputeWarpFactor] *)
Definition ComputeWarpFactor (env : BoundedEnvelope) (t0 t1 : double) : double :=
  AverageOfInverse env t0 t1.

(** The refill at the head of the loop of [MixVariableRates], taken when
    [*queueLen < sProcessLen]: the pending samples move to the start of the
    queue and up to [getLen] more are read, enveloped, reversed for
    backwards play, and appended. *)
Definition refill (s : Mixer) (endPos : sampleCount) (inp : Input)
    : outcome Input Input :=
  let track := mInputTrack inp in
  let trackRate := GetRate track in
  let pos := mSamplePos inp in
  let queueLen := mQueueLen inp in
  (* Shift pending portion to start of the buffer *)
  let queue :=
    write 0 (take (Z.to_nat queueLen)
               (drop (Z.to_nat (mQueueStart inp)) (mSampleQueue inp)))
          (mSampleQueue inp) in
  let getLen :=
    limitSampleBufferSize
      (Z.to_nat (size_t_wrap (Z.of_nat sQueueMaxLen - queueLen)))
      (if backwards s then pos - endPos else endPos - pos)%Z in
  (* Nothing to do if past end of play interval *)
  if (0 <? getLen)%nat then
    let start :=
      (if backwards s then pos - (Z.of_nat getLen - 1) else pos)%Z in
    results ← map_raise
                 (λ _, mkInput track pos queue 0 queueLen (mResample inp))
                 (cache_GetFloats track start getLen (mMayThrow s));
    let env := GetEnvelopeValues track getLen (inject_Z start / trackRate) in
    let segment := apply_envelope env (copy_or_zero results getLen) in
    let segment := if backwards s then reverse segment else segment in
    Done (mkInput track
            (if backwards s then pos - Z.of_nat getLen
             else pos + Z.of_nat getLen)%Z
            (write (Z.to_nat queueLen) segment queue)
            0 (queueLen + Z.of_nat getLen) (mResample inp))
  else
    Done (mkInput track pos queue 0 queueLen (mResample inp)).

(** The rest of one turn of the loop of [MixVariableRates]: a slice of
    the queue goes through the resampler.  [out] counts the floats written
    so far and [pFloat] holds them; [t] is the time of the start of the
    queue.  The last component is the flag [last]. *)
Definition resample_slice (s : Mixer) (maxOut : nat) (inp : Input)
    (out : nat) (t : double) (pFloat : list sample)
    : Input * nat * double * list sample * bool :=
  let track := mInputTrack inp in
  let trackRate := GetRate track in
  let initialWarp := mRate s / mSpeed s / trackRate in
  let tstep := 1 / trackRate in
  let last := (mQueueLen inp <? Z.of_nat sProcessLen)%Z in
  let thisProcessLen :=
    if last then size_t_wrap (mQueueLen inp) else Z.of_nat sProcessLen in
  let factor :=
    match mEnvelope s with
    | Some envelope =>
        if backwards s then
          initialWarp *
          ComputeWarpFactor envelope
            (t - inject_Z thisProcessLen / trackRate + tstep) (t + tstep)
        else
          initialWarp *
          ComputeWarpFactor envelope
            t (t + inject_Z thisProcessLen / trackRate)
    | None => initialWarp
    end in
  let results :=
    Resample_Process (mResample inp) factor
      (drop (Z.to_nat (mQueueStart inp)) (mSampleQueue inp))
      (Z.to_nat thisProcessLen) last (maxOut - out) in
  let input_used := results.2.1 in
  (mkInput track (mSamplePos inp) (mSampleQueue inp)
     (mQueueStart inp + Z.of_nat input_used)
     (mQueueLen inp - Z.of_nat input_used) results.1,
   (out + length results.2.2)%nat,
   t + (inject_Z (Z.of_nat input_used) / trackRate) *
       (if backwards s then -1 else 1),
   pFloat ++ results.2.2,
   last).

(** The loop of [Mixer::MixVariableRates]. *)
Fixpoint MixVariableRates_loop (fuel : nat) (s : Mixer) (maxOut : nat)
    (endPos : sampleCount) (inp : Input) (out : nat) (t : double)
    (pFloat : list sample) : outcome Input (Input * nat * list sample) :=
  if (out <? maxOut)%nat then
    match fuel with
    | O => Timeout
    | S fuel' =>
        inp ← (if (mQueueLen inp <? Z.of_nat sProcessLen)%Z
               then refill s endPos inp else Done inp);
        let '(inp, out, t, pFloat, last) :=
          resample_slice s maxOut inp out t pFloat in
        if last then Done (inp, out, pFloat)
        else MixVariableRates_loop fuel' s maxOut endPos inp out t pFloat
    end
  else Done (inp, out, pFloat).

(** [Mixer::MixVariableRates]: row [ii] after the call, the returned count
    and the floats written to [floatBuffer]. *)
Definition MixVariableRates (fuel : nat) (s : Mixer) (inp : Input)
    (maxOut : nat) : outcome Input (Input * nat * list sample) :=
  let track := mInputTrack inp in
  let trackRate := GetRate track in
  (* Find the last sample *)
  let endPos := TimeToLongSamples track (tEnd s track) in
  (* Find the time corresponding to the start of the queue *)
  let t :=
    inject_Z (mSamplePos inp +
              (if backwards s then mQueueLen inp else - mQueueLen inp))
    / trackRate in
  MixVariableRates_loop fuel s maxOut endPos inp 0 t [].

(** The choice between the two mixing routines that [Mixer::Process]
    makes for an input. *)
Definition mix_input (fuel : nat) (s : Mixer) (inp : Input)
    (maxToProcess : nat) : outcome Input (Input * nat * list sample) :=
  if ResampleParameters.mbVariableRates (mResampleParameters s)
     || negb (Qeq_bool (GetRate (mInputTrack inp)) (mRate s))
  then MixVariableRates fuel s inp maxToProcess
  else MixSameRate s inp maxToProcess.

(** The first inner loop of [Mixer::Process], over the channels [js] of the
    group led by track [i]: each is mixed into its float buffer, and
    [maxOut] and [newTime] are updated.  The list gives [mixed[j]] and the
    contents of [mFloatBuffers[j]] for each [j]. *)
Fixpoint mix_channels (fuel : nat) (maxToProcess i : nat) (js : list nat)
    (s : Mixer) (maxOut : nat) (newTime : double)
    : outcome Mixer (Mixer * nat * double * list (nat * list sample)) :=
  match js with
  | [] => Done (s, maxOut, newTime, [])
  | j :: js' =>
      let ii := (i + j)%nat in
      match mInputs s !! ii with
      | None => Done (s, maxOut, newTime, [])
      | Some inp =>
          let track := mInputTrack inp in
          '(inp', result, pFloat) ←
            map_raise (λ inp', set_mInputs s (<[ii := inp']> (mInputs s)))
              (mix_input fuel s inp maxToProcess);
          let s := set_mInputs s (<[ii := inp']> (mInputs s)) in
          let maxOut := Nat.max maxOut result in
          let newT := inject_Z (mSamplePos inp') / GetRate track in
          let newTime :=
            if backwards s then std_min newTime newT
            else std_max newTime newT in
          '(s, maxOut, newTime, rest) ←
            mix_channels fuel maxToProcess i js' s maxOut newTime;
          Done (s, maxOut, newTime, (result, pFloat) :: rest)
      end
  end.

(** The second inner loop of [Mixer::Process]: each mixed channel is added
    to the accumulators [mTemp] it is routed to. *)
Fixpoint route_channels (s : Mixer) (i j : nat)
    (mixed : list (nat * list sample)) (temp : list (list sample))
    : list (list sample) :=
  match mixed with
  | [] => temp
  | (result, pFloat) :: mixed' =>
      let ii := (i + j)%nat in
      match mInputs s !! ii with
      | None => temp
      | Some inp =>
          let track := mInputTrack inp in
          let gains c :=
            if mApplyTrackGains s then GetChannelGain track c else 1 in
          let flags :=
            findChannelFlags (mNumChannels s)
              (match mMixerSpec s with
               | Some spec => Some (Downmix.mMap spec !!! ii)
               | None => None
               end)
              (GetChannel track) in
          route_channels s i (S j) mixed'
            (MixBuffers (mNumChannels s) flags gains pFloat temp result)
      end
  end.

(** The loop of [Mixer::Process] over the leader tracks, from track [i]
    on. *)
Fixpoint Process_tracks (fuel : nat) (maxToProcess : nat) (s : Mixer)
    (i : nat) (maxOut : nat) (newTime : double)
    : outcome Mixer (Mixer * nat * double) :=
  match mInputs s !! i with
  | None => Done (s, maxOut, newTime)      (* i < mNumInputTracks fails *)
  | Some leader =>
      let nInChannels := Pos.to_nat (ChannelsSize (mInputTrack leader)) in
      if (mNumInputTracks s <? i + nInChannels)%nat
      then Done (s, maxOut, newTime)       (* assert(false); break; *)
      else
        match fuel with
        | O => Timeout
        | S fuel' =>
            (* TODO: more-than-two-channels *)
            let limit := Nat.min nInChannels 2 in
            '(s, maxOut, newTime, mixed) ←
              mix_channels fuel maxToProcess i (seq 0 limit) s maxOut newTime;
            let s := set_mTemp s (route_channels s i 0 mixed (mTemp s)) in
            Process_tracks fuel' maxToProcess s (i + nInChannels)%nat
              maxOut newTime
        end
  end.

(** [Mixer::Process]; [assert(maxToProcess <= BufferSize())] is its
    precondition.  The engine after the call and the returned count; when a
    read error propagates, the engine it leaves behind.  The last step of
    the source, [CopySamples] from [mTemp] to [mBuffer] in the output
    format, changes nothing that the model keeps. *)
Definition Process (fuel : nat) (s : Mixer) (maxToProcess : nat)
    : outcome Mixer (Mixer * nat) :=
  let newTime := mTime s in
  '(s, maxOut, newTime) ←
    Process_tracks fuel maxToProcess (Clear s) 0 0 newTime;
  let s :=
    set_mTime s
      (if backwards s then std_clamp newTime (mT1 s) (mTime s)
       else std_clamp newTime (mTime s) (mT1 s)) in
  Done (s, maxOut).

(** [Mixer::MixGetCurrentTime] *)
Definition MixGetCurrentTime (s : Mixer) : double := mTime s.

(** [Mixer::Reposition] *)
Definition Reposition (s : Mixer) (t : double) (bSkipping : bool) : Mixer :=
  let s := set_mTime s t in
  let s :=
    if backwards s then set_mTime s (std_clamp (mTime s) (mT1 s) (mT0 s))
    else set_mTime s (std_clamp (mTime s) (mT0 s) (mT1 s)) in
  let s :=
    set_mInputs s
      (map (λ inp,
         mkInput (mInputTrack inp)
           (TimeToLongSamples (mInputTrack inp) (mTime s))
           (mSampleQueue inp) 0 0 (mResample inp))
         (mInputs s)) in
  if bSkipping then MakeResamplers s else s.

(** [Mixer::SetTimesAndSpeed]; [speed] is finite. *)
Definition SetTimesAndSpeed (s : Mixer) (t0 t1 speed : double)
    (bSkipping : bool) : Mixer :=
  Reposition (set_times_speed s t0 t1 (fabs speed)) t0 bSkipping.

(** [Mixer::SetSpeedForKeyboardScrubbing]; [speed] is finite. *)
Definition SetSpeedForKeyboardScrubbing (s : Mixer) (speed startTime : double)
    : Mixer :=
  let s :=
    (* Check if the direction has changed *)
    if (Qltb 0 speed && Qltb (mT1 s) (mT0 s)) ||
       (Qltb speed 0 && Qltb (mT0 s) (mT1 s))
    then
      let s :=
        if Qltb 0 speed && Qltb (mT1 s) (mT0 s)
        then set_times_speed s 0 DBL_MAX (mSpeed s)
        else set_times_speed s DBL_MAX 0 (mSpeed s) in
      Reposition s startTime true
    else s in
  set_times_speed s (mT0 s) (mT1 s) (fabs speed).

(** ** Predicates the statements use *)

(** The current time lies between the bounds of play. *)
Definition in_play_interval (s : Mixer) : Prop :=
  std_min (mT0 s) (mT1 s) <= mTime s ∧ mTime s <= std_max (mT0 s) (mT1 s).

(** The sign of [speed] disagrees with the direction of play. *)
Definition direction_changed (s : Mixer) (speed : double) : Prop :=
  (0 < speed ∧ mT1 s < mT0 s) ∨ (speed < 0 ∧ mT0 s < mT1 s).

(** The cursor of an input has reached its end of play. *)
Definition exhausted (s : Mixer) (inp : Input) : Prop :=
  let t := inject_Z (mSamplePos inp) / GetRate (mInputTrack inp) in
  if backwards s then t <= tEnd s (mInputTrack inp)
  else tEnd s (mInputTrack inp) <= t.

(** [s'] is [s] but for the rows of the inputs and the accumulators. *)
Definition frame (s s' : Mixer) : Prop :=
  s' = set_mTemp (set_mInputs s (mInputs s')) (mTemp s').

(** Every input goes through [MixSameRate]. *)
Definition same_rate (s : Mixer) : Prop :=
  ResampleParameters.mbVariableRates (mResampleParameters s) = false ∧
  Forall (λ inp, GetRate (mInputTrack inp) == mRate s) (mInputs s).

(** Play is over: every input goes through [MixSameRate] and has reached
    its end. *)
Definition play_exhausted (s : Mixer) : Prop :=
  same_rate s ∧ Forall (exhausted s) (mInputs s).

(** No cursor is ahead of the current time, in the direction of play. *)
Definition cursors_behind (s : Mixer) : Prop :=
  Forall (λ inp,
    let newT := inject_Z (mSamplePos inp) / GetRate (mInputTrack inp) in
    if backwards s then mTime s <= newT else newT <= mTime s) (mInputs s).

(** Every input comes back from its mixing routine as it went in, with
    nothing mixed, unless, where [R] allows it, the read throws. *)
Definition idle (R : Prop) (s : Mixer) (maxToProcess : nat) : Prop :=
  ∀ fuel inp, inp ∈ mInputs s →
    mix_input fuel s inp maxToProcess = Done (inp, 0%nat, []) ∨
    (mix_input fuel s inp maxToProcess = Raised inp ∧ R).

(** The cursor of no input moves [newTime]. *)
Definition settled (s : Mixer) (newTime : double) : Prop :=
  Forall (λ inp,
    let newT := inject_Z (mSamplePos inp) / GetRate (mInputTrack inp) in
    (if backwards s then std_min newTime newT else std_max newTime newT)
    = newTime) (mInputs s).

(** What is left to play of an input, in samples: the distance of its
    cursor to [endPos]. *)
Definition remaining (s : Mixer) (inp : Input) : Z :=
  let endPos :=
    TimeToLongSamples (mInputTrack inp) (tEnd s (mInputTrack inp)) in
  (if backwards s then mSamplePos inp - endPos
   else endPos - mSamplePos inp)%Z.

(** Samples an input still has to hand to its resampler: those queued and
    those left to read. *)
Definition pending (s : Mixer) (inp : Input) : nat :=
  (Z.to_nat (mQueueLen inp) + Z.to_nat (remaining s inp))%nat.

(** Turns of the loops that [Process] can take at most. *)
Definition fuel_bound (s : Mixer) (maxToProcess : nat) : nat :=
  S (length (mInputs s) + maxToProcess +
     max_list (map (pending s) (mInputs s))).

(** The queue of an input is within its allocation. *)
Definition queue_wf (inp : Input) : Prop :=
  (0 <= mQueueStart inp ∧ 0 <= mQueueLen inp ∧
   mQueueStart inp + mQueueLen inp <= Z.of_nat sQueueMaxLen)%Z ∧
  length (mSampleQueue inp) = sQueueMaxLen.

(** The claim about [Process(0)] as the specification words it: the
    cursors, the queues and the current time are as before. *)
Definition nothing_advanced (s s' : Mixer) : Prop :=
  mInputs s' = mInputs s ∧ mTime s' == mTime s.

(** The time [Reposition(t)] settles on. *)
Definition clamped (s : Mixer) (t : double) : double :=
  if backwards s then std_clamp t (mT1 s) (mT0 s)
  else std_clamp t (mT0 s) (mT1 s).

(** The cursor [pos'] has moved from [pos] in the direction of play, if
    at all, and not past [endPos]. *)
Definition toward (s : Mixer) (endPos pos pos' : sampleCount) : Prop :=
  if backwards s then (Z.min pos endPos <= pos' <= pos)%Z
  else (pos <= pos' <= Z.max pos endPos)%Z.

(** Row [inp] is row [inp0] further on in play: the same track, the
    cursor moved in the direction of play if at all, and a queue within its
    allocation. *)
Definition kept (s : Mixer) (inp0 inp : Input) : Prop :=
  queue_wf inp ∧ mInputTrack inp = mInputTrack inp0 ∧
  if backwards s then (mSamplePos inp <= mSamplePos inp0)%Z
  else (mSamplePos inp0 <= mSamplePos inp)%Z.

(** Row [inp] is row [inp0] with its cursor moved in the direction of
    play, if at all, and nothing else changed. *)
Definition advanced (s : Mixer) (inp0 inp : Input) : Prop :=
  ∃ k : nat,
    inp = set_mSamplePos inp0
            (if backwards s then mSamplePos inp0 - Z.of_nat k
             else mSamplePos inp0 + Z.of_nat k)%Z.

(** Accumulator [r'] has the length of [r] and its entries from [N]
    on. *)
Definition tail_kept (N : nat) (r' r : list sample) : Prop :=
  length r' = length r ∧ ∀ k, (N <= k)%nat → r' !! k = r !! k.

(** Every read of the track fails, in the way that [GetFloats] reports
    as null. *)
Definition unreadable (s : Mixer) (track : SampleTrack) : Prop :=
  ∀ start len, cache_GetFloats track start len (mMayThrow s) = Done None.

(** The samples an input has queued for its resampler. *)
Definition queued (inp : Input) : list sample :=
  take (Z.to_nat (mQueueLen inp))
    (drop (Z.to_nat (mQueueStart inp)) (mSampleQueue inp)).

(** Silence in, silence out: a resampler in a state [quiet] that is given
    zeros writes zeros and stays [quiet]. *)
Definition silence_kept (quiet : Resample → Prop) : Prop :=
  ∀ r factor inBuffer inLen last outMax,
    quiet r → Forall (λ x, x == 0) (take inLen inBuffer) →
    quiet (Resample_Process r factor inBuffer inLen last outMax).1 ∧
    Forall (λ x, x == 0)
      (Resample_Process r factor inBuffer inLen last outMax).2.2.

(** A row that holds nothing but silence: a queue within its allocation,
    zeros queued, and a resampler that is [quiet]. *)
Definition silent_row (quiet : Resample → Prop) (inp : Input) : Prop :=
  queue_wf inp ∧ quiet (mResample inp) ∧ Forall (λ x, x == 0) (queued inp).

End Engine.

(** ** A concrete engine *)

(** The values of Mix.h. *)
Definition mix_h_constants : MixerConstants.
Proof. refine (Build_MixerConstants 1024 (64 * 1024) _ _); lia. Defined.

(** A resampler that copies: it passes on as many samples as fit. *)
Definition copy_resampler : ResampleOps := {|
  Resample := unit;
  Resample_new := λ _ _ _, tt;
  Resample_Process := λ r _ inBuffer inLen _ outMax,
    let n := Nat.min (Nat.min inLen outMax) (length inBuffer) in
    (r, (Nat.min inLen outMax, take n inBuffer));
|}.

(** The mono track of the first scenario of the specification: 44100 Hz,
    ten samples 0.0, 0.1, ... 0.9, unit gain and envelope.
    [TimeToLongSamples] rounds to the nearest sample, half up. *)
Definition ramp_track : SampleTrack := {|
  GetRate := 44100;
  GetStartTime := 0;
  GetEndTime := 10 / 44100;
  GetChannel := MonoChannel;
  GetChannelGain := λ _, 1;
  TimeToLongSamples := λ t, Qfloor (t * 44100 + (1 # 2));
  GetEnvelopeValues := λ _ _ _, 1;
  ReadFloats := λ start _, Floats (λ i, inject_Z (start + Z.of_nat i) / 10);
  ChannelsSize := 1%positive;
|}.

(** A queue of eight samples fed to the resampler two at a time. *)
Definition small_constants : MixerConstants.
Proof. refine (Build_MixerConstants 2 8 _ _); lia. Defined.

(** A track at 22050 Hz whose reads all give null and whose envelope is
    nowhere zero. *)
Definition silent_track : SampleTrack := {|
  GetRate := 22050;
  GetStartTime := 0;
  GetEndTime := 10 / 22050;
  GetChannel := MonoChannel;
  GetChannelGain := λ _, 1;
  TimeToLongSamples := λ t, Qfloor (t * 22050 + (1 # 2));
  GetEnvelopeValues := λ _ _ i, inject_Z (Z.of_nat i) + 2;
  ReadFloats := λ _ _, Null;
  ChannelsSize := 1%positive;
|}.

(** An engine over the ramp, one output channel, four samples a block,
    playing from [startTime] to [stopTime]. *)
Definition ramp_mixer (startTime stopTime : double)
    : @Mixer copy_resampler :=
  @Mixer_new mix_h_constants copy_resampler [ramp_track] false
    (Warp.of_envelope None) startTime stopTime 1 4 false 44100 false None
    false.

(** An engine over the unreadable track, which goes through the
    resampler. *)
Definition silent_mixer : @Mixer copy_resampler :=
  @Mixer_new small_constants copy_resampler [silent_track] false
    (Warp.of_envelope None) 0 (10 / 22050) 1 4 false 44100 false None false.

(** A row of that engine at the start of the track, with samples left
    over in the memory of its queue. *)
Definition stale_input : @Input copy_resampler :=
  @mkInput copy_resampler silent_track 0 (replicate 8 1) 0 0 tt.

(** The engine of the counterexample to the claim about [Process(0)]: play
    starts between two samples, nearer to the second. *)
Definition offbeat_mixer : @Mixer copy_resampler :=
  @Mixer_new small_constants copy_resampler [ramp_track] false
    (Warp.of_envelope None) (1 / 50000) (10 / 44100) 1 4 false 44100 false
    None false.

(** An engine built with a start time on a sample. *)
Definition onbeat_mixer : @Mixer copy_resampler :=
  @Mixer_new small_constants copy_resampler [ramp_track] false
    (Warp.of_envelope None) (1 / 44100) (10 / 44100) 1 4 false 44100 false
    None false.

(** An engine whose play interval is empty, at the end of the ramp. *)
Definition finished_mixer : @Mixer copy_resampler :=
  @Mixer_new small_constants copy_resampler [ramp_track] false
    (Warp.of_envelope None) (10 / 44100) (10 / 44100) 1 4 false 44100 false
    None false.

(** The ramp as the leader of a group of [n] channels. *)
Definition grouped_ramp (n : positive) : SampleTrack := {|
  GetRate := 44100;
  GetStartTime := 0;
  GetEndTime := 10 / 44100;
  GetChannel := MonoChannel;
  GetChannelGain := λ _, 1;
  TimeToLongSamples := λ t, Qfloor (t * 44100 + (1 # 2));
  GetEnvelopeValues := λ _ _ _, 1;
  ReadFloats := λ start _, Floats (λ i, inject_Z (start + Z.of_nat i) / 10);
  ChannelsSize := n;
|}.

(** An engine over one group of three channels. *)
Definition surround_mixer : @Mixer copy_resampler :=
  @Mixer_new small_constants copy_resampler
    [grouped_ramp 3; grouped_ramp 3; grouped_ramp 3] false
    (Warp.of_envelope None) 0 (10 / 44100) 1 4 false 44100 false None false.

(** A row of the engine [silent_mixer] at the end of the track, its queue
    empty. *)
Definition ended_input : @Input copy_resampler :=
  @mkInput copy_resampler silent_track 10 (replicate 8 1) 0 0 tt.

(** The row of the engine [onbeat_mixer]. *)
Definition onbeat_input : @Input copy_resampler :=
  @mkInput copy_resampler ramp_track 1 (replicate 8 0) 0 0 tt.

(** * Theorems *)

Section DownmixFacts.
Import Downmix.

Lemma clear_columns_length from to row :
  length (clear_columns from to row) = length row.
Proof.
  unfold clear_columns. generalize (seq from (to - from)) as js.
  intros js; revert row; induction js as [|j js IH]; intros row; simpl; [done|].
  by rewrite IH, length_insert.
Qed.

Lemma insert_false_lookup (r : list bool) (k j : nat) :
  <[k := false]> r !! j =
    if decide (k = j) then (λ _, false) <$> r !! j else r !! j.
Proof.
  destruct (decide (k = j)) as [->|Hne].
  - destruct (r !! j) as [b|] eqn:Hr.
    + by rewrite list_lookup_insert_eq by (by eapply lookup_lt_Some).
    + by rewrite list_insert_ge, Hr by (by apply lookup_ge_None).
  - by rewrite list_lookup_insert_ne.
Qed.

Lemma clear_columns_lookup from to row j :
  clear_columns from to row !! j =
    if decide (from <= j < to)%nat then (λ _, false) <$> row !! j else row !! j.
Proof.
  unfold clear_columns.
  assert (G : ∀ (js : list nat) (r : list bool),
      foldl (λ r j, <[j := false]> r) r js !! j =
      if decide (j ∈ js) then (λ _, false) <$> r !! j else r !! j).
  { induction js as [|k js IH]; intros r; [done|].
    cbn [foldl]. rewrite IH, insert_false_lookup.
    destruct (decide (j ∈ js)) as [Hin|Hnin], (decide (k = j)) as [->|Hne].
    - rewrite decide_True by (apply elem_of_cons; auto). by destruct (r !! j).
    - by rewrite decide_True by (apply elem_of_cons; auto).
    - by rewrite decide_True by (apply elem_of_cons; auto).
    - rewrite decide_False; [done|]. rewrite elem_of_cons. intuition congruence. }
  rewrite G. destruct (decide (from <= j < to)%nat) as [Hj|Hj].
  - rewrite decide_True; [done|]. apply elem_of_seq. lia.
  - rewrite decide_False; [done|]. rewrite elem_of_seq. lia.
Qed.

(** C7, as the code has it.  With [n <= mMaxNumChannels] the call returns
    true, the active channel count becomes [n], and in every track row the
    columns between the old and the new count are cleared: [n, previous)
    when the map shrinks and [previous, n) when it grows; every other entry
    keeps its value.  With [n > mMaxNumChannels] the call returns false and
    changes nothing. *)
Theorem SetNumChannels_spec (d : t) (n : nat) :
  wf d →
  let d' := (SetNumChannels d n).1 in
  let prev := mNumChannels d in
  ((n <= mMaxNumChannels d)%nat →
     (SetNumChannels d n).2 = true ∧
     mNumChannels d' = n ∧
     mNumTracks d' = mNumTracks d ∧
     mMaxNumChannels d' = mMaxNumChannels d ∧
     ∀ i j, cell d' i j =
       if decide (i < mNumTracks d ∧ (n <= j < prev ∨ prev <= j < n))%nat
       then (λ _, false) <$> cell d i j else cell d i j) ∧
  ((mMaxNumChannels d < n)%nat →
     (SetNumChannels d n).2 = false ∧ d' = d).
Proof.
  intros Hwf d' prev; subst d' prev; unfold wf in Hwf.
  unfold SetNumChannels. split; intros Hn.
  - destruct (Nat.eqb_spec (mNumChannels d) n) as [<-|Hne]; simpl.
    { repeat split; try done. intros i j. rewrite decide_False; [done|lia]. }
    destruct (Nat.ltb_spec (mMaxNumChannels d) n) as [?|_]; [lia|]; simpl.
    repeat split; try done. intros i j. unfold cell; simpl.
    rewrite list_lookup_imap. destruct (mMap d !! i) as [row|] eqn:Hrow; simpl.
    + destruct (Nat.ltb_spec i (mNumTracks d)) as [Hi|Hi].
      * rewrite !clear_columns_lookup.
        repeat case_decide; try done; try lia; by destruct (row !! j).
      * rewrite decide_False; [done|lia].
    + by case_decide.
  - destruct (Nat.eqb_spec (mNumChannels d) n) as [?|_]; [lia|].
    destruct (Nat.ltb_spec (mMaxNumChannels d) n) as [_|?]; [done|lia].
Qed.

Lemma SetNumChannels_spec_witness :
  wf grown ∧
  ((2 <= mMaxNumChannels grown)%nat →
     (SetNumChannels grown 2).2 = true ∧
     mNumChannels (SetNumChannels grown 2).1 = 2%nat ∧
     cell (SetNumChannels grown 2).1 0 1 = Some false).
Proof.
  split; [unfold wf; simpl; lia|]. intros Hn.
  destruct (SetNumChannels_spec grown 2) as [Hle _]; [unfold wf; simpl; lia|].
  destruct (Hle Hn) as (Hok & Hnum & _ & _ & Hcell).
  split; [exact Hok|]. split; [exact Hnum|]. rewrite Hcell. reflexivity.
Defined.

(** C7 as worded fails when the map grows: column 1 lies outside
    [2, 1) and is cleared all the same. *)
Lemma SetNumChannels_grow_clears :
  wf grown ∧ (SetNumChannels grown 2).2 = true ∧
  ¬ only_dropped_columns_change grown 2.
Proof.
  split; [unfold wf; simpl; lia|]. split; [reflexivity|].
  intros H. specialize (H 0%nat 1%nat). vm_compute in H.
  assert (Hc : Some false = Some true) by (apply H; lia). discriminate Hc.
Qed.

End DownmixFacts.

(** ** Comparisons of doubles *)

Lemma Qltb_lt (x y : Q) : Qltb x y = true ↔ x < y.
Proof.
  unfold Qltb. rewrite negb_true_iff. split.
  - intros H. apply Qnot_le_lt. intros Hle. apply Qle_bool_iff in Hle. congruence.
  - intros H. destruct (Qle_bool y x) eqn:E; [|done].
    apply Qle_bool_iff in E. lra.
Qed.

Lemma Qltb_ge (x y : Q) : Qltb x y = false ↔ y <= x.
Proof.
  unfold Qltb. rewrite negb_false_iff. apply Qle_bool_iff.
Qed.

Lemma Qle_bool_gt (x y : Q) : Qle_bool x y = false ↔ y < x.
Proof.
  split.
  - intros H. apply Qnot_le_lt. intros Hle. apply Qle_bool_iff in Hle. congruence.
  - intros H. destruct (Qle_bool x y) eqn:E; [|done].
    apply Qle_bool_iff in E. lra.
Qed.

(** Case analysis on every comparison in sight. *)
Ltac qcases :=
  repeat match goal with
  | |- context [Qltb ?a ?b] =>
      let E := fresh "E" in
      destruct (Qltb a b) eqn:E;
      [apply Qltb_lt in E | apply Qltb_ge in E]
  | |- context [Qle_bool ?a ?b] =>
      let E := fresh "E" in
      destruct (Qle_bool a b) eqn:E;
      [apply Qle_bool_iff in E | apply Qle_bool_gt in E]
  | _ : context [Qltb ?a ?b] |- _ =>
      let E := fresh "E" in
      destruct (Qltb a b) eqn:E;
      [apply Qltb_lt in E | apply Qltb_ge in E]
  | _ : context [Qle_bool ?a ?b] |- _ =>
      let E := fresh "E" in
      destruct (Qle_bool a b) eqn:E;
      [apply Qle_bool_iff in E | apply Qle_bool_gt in E]
  end.

Lemma std_min_le (a b : Q) : std_min a b <= a ∧ std_min a b <= b.
Proof. unfold std_min; qcases; lra. Qed.

Lemma std_max_ge (a b : Q) : a <= std_max a b ∧ b <= std_max a b.
Proof. unfold std_max; qcases; lra. Qed.

Lemma DBL_MAX_pos : 0 < DBL_MAX.
Proof. reflexivity. Qed.

Lemma DBL_MAX_pos_b : Qltb 0 DBL_MAX = true.
Proof. apply Qltb_lt, DBL_MAX_pos. Qed.

Lemma DBL_MAX_not_neg : Qltb DBL_MAX 0 = false.
Proof. reflexivity. Qed.

(** ** Reposition and speed *)

Section RepositionFacts.
Context `{MC : MixerConstants} `{RO : ResampleOps}.

Lemma Forall2_imap_same {A B} (P : B → A → Prop) (f : nat → A → B)
    (l : list A) :
  (∀ i x, P (f i x) x) → Forall2 P (imap f l) l.
Proof.
  intros H. revert f H. induction l as [|x l IH]; intros f H; simpl.
  - constructor.
  - constructor; [apply H|]. apply IH. intros i y. apply H.
Qed.

Lemma MakeResamplers_inputs (s : Mixer) :
  Forall2 (λ inp' inp,
      mInputTrack inp' = mInputTrack inp ∧ mSamplePos inp' = mSamplePos inp ∧
      mQueueStart inp' = mQueueStart inp ∧ mQueueLen inp' = mQueueLen inp ∧
      ∃ a b, mResample inp' = Resample_new (mHighQuality s) a b)
    (mInputs (MakeResamplers s)) (mInputs s).
Proof.
  unfold MakeResamplers; simpl. apply Forall2_imap_same.
  intros i x; simpl. eauto 10.
Qed.

Lemma Reposition_time (s : Mixer) (t : double) (bSkipping : bool) :
  mTime (Reposition s t bSkipping) =
    (if backwards s then std_clamp t (mT1 s) (mT0 s)
     else std_clamp t (mT0 s) (mT1 s)) ∧
  mT0 (Reposition s t bSkipping) = mT0 s ∧
  mT1 (Reposition s t bSkipping) = mT1 s ∧
  mSpeed (Reposition s t bSkipping) = mSpeed s.
Proof.
  unfold Reposition, backwards. cbn [mT0 mT1 mTime set_mTime].
  destruct bSkipping, (Qltb (mT1 s) (mT0 s)); repeat split; reflexivity.
Qed.

Lemma Reposition_inputs (s : Mixer) (t : double) (bSkipping : bool) :
  Forall2 (λ inp' inp,
      mInputTrack inp' = mInputTrack inp ∧
      mSamplePos inp' =
        TimeToLongSamples (mInputTrack inp') (mTime (Reposition s t bSkipping)) ∧
      mQueueStart inp' = 0%Z ∧ mQueueLen inp' = 0%Z ∧
      (bSkipping = true →
       ∃ a b, mResample inp' = Resample_new (mHighQuality s) a b))
    (mInputs (Reposition s t bSkipping)) (mInputs s).
Proof.
  destruct (Reposition_time s t bSkipping) as (Ht & _).
  rewrite Ht. clear Ht.
  unfold Reposition, MakeResamplers, backwards; simpl.
  destruct bSkipping, (Qltb (mT1 s) (mT0 s)); simpl.
  1,2: rewrite imap_fmap; apply Forall2_imap_same; intros i x; simpl; eauto 10.
  all: rewrite <- (imap_const (λ inp, mkInput _ _ _ _ _ _));
    apply Forall2_imap_same; intros i x; simpl; repeat split; done.
Qed.

(** C2.  After [Reposition(t, false)] the current time is [t] clamped
    into [min(T0,T1), max(T0,T1)], and every input has its cursor at
    [TimeToLongSamples] of that time and an empty queue starting at 0. *)
Theorem Reposition_then_current_time (s : Mixer) (t : double) :
  let s' := Reposition s t false in
  MixGetCurrentTime s' ==
    std_clamp t (std_min (mT0 s) (mT1 s)) (std_max (mT0 s) (mT1 s)) ∧
  Forall2 (λ inp' inp,
      mInputTrack inp' = mInputTrack inp ∧
      mSamplePos inp' =
        TimeToLongSamples (mInputTrack inp') (MixGetCurrentTime s') ∧
      mQueueStart inp' = 0%Z ∧ mQueueLen inp' = 0%Z)
    (mInputs s') (mInputs s).
Proof.
  intros s'; subst s'. split.
  - unfold MixGetCurrentTime.
    destruct (Reposition_time s t false) as (-> & _).
    unfold backwards, std_clamp, std_min, std_max. qcases; lra.
  - eapply Forall2_impl; [apply Reposition_inputs|].
    unfold MixGetCurrentTime. intros x y (? & ? & ? & ? & _). done.
Qed.

(** C6.  [SetSpeedForKeyboardScrubbing] always leaves the speed at
    [|speed|].  When the sign of [speed] disagrees with the direction of
    play, the bounds become 0 and the largest double, with the largest
    double at the far end of the new direction, the direction flips, and
    the engine is repositioned at [startTime] with every resampler made
    anew. *)
Theorem SetSpeedForKeyboardScrubbing_spec (s : Mixer)
    (speed startTime : double) :
  let s' := SetSpeedForKeyboardScrubbing s speed startTime in
  mSpeed s' = fabs speed ∧
  (direction_changed s speed →
     (mT0 s', mT1 s') =
       (if Qltb 0 speed then (0, DBL_MAX) else (DBL_MAX, 0)) ∧
     backwards s' = negb (backwards s) ∧
     s' = set_times_speed
            (Reposition (set_times_speed s (mT0 s') (mT1 s') (mSpeed s))
               startTime true)
            (mT0 s') (mT1 s') (fabs speed) ∧
     mTime s' = std_clamp startTime 0 DBL_MAX ∧
     Forall2 (λ inp' inp,
         mInputTrack inp' = mInputTrack inp ∧
         mSamplePos inp' = TimeToLongSamples (mInputTrack inp') (mTime s') ∧
         mQueueStart inp' = 0%Z ∧ mQueueLen inp' = 0%Z ∧
         ∃ a b, mResample inp' = Resample_new (mHighQuality s) a b)
       (mInputs s') (mInputs s)).
Proof.
  intros s'; subst s'. unfold SetSpeedForKeyboardScrubbing.
  pose proof DBL_MAX_pos_b as Hpos. pose proof DBL_MAX_not_neg as Hneg.
  revert Hpos Hneg. generalize DBL_MAX. intros M Hpos Hneg.
  split.
  - destruct (_ || _); done.
  - intros Hdir.
    assert (Hcond : Qltb 0 speed && Qltb (mT1 s) (mT0 s)
                    || Qltb speed 0 && Qltb (mT0 s) (mT1 s) = true).
    { destruct Hdir as [[H1 H2]|[H1 H2]];
        apply Qltb_lt in H1, H2; rewrite H1, H2; simpl;
        [done|by rewrite orb_true_r]. }
    rewrite Hcond.
    assert (Hfwd : Qltb 0 speed && Qltb (mT1 s) (mT0 s) = Qltb 0 speed).
    { destruct Hdir as [[H1 H2]|[H1 H2]].
      - apply Qltb_lt in H1, H2. by rewrite H1, H2.
      - assert (Qltb 0 speed = false) as -> by (apply Qltb_ge; lra). done. }
    rewrite Hfwd.
    assert (Hbw : backwards s = Qltb 0 speed).
    { unfold backwards. destruct Hdir as [[H1 H2]|[H1 H2]].
      - apply Qltb_lt in H1, H2. by rewrite H1, H2.
      - assert (Qltb 0 speed = false) as -> by (apply Qltb_ge; lra).
        apply Qltb_ge. lra. }
    rewrite Hbw. clear Hcond Hfwd Hbw Hdir.
    destruct (Qltb 0 speed).
    + set (s1 := set_times_speed s 0 M (mSpeed s)).
      destruct (Reposition_time s1 startTime true) as (Ht & H0 & H1 & Hsp).
      cbn [mT0 mT1 mTime mSpeed mInputs set_times_speed fst snd].
      rewrite H0, H1. cbn [mT0 mT1 s1 set_times_speed].
      split; [reflexivity|]. split.
      { unfold backwards. cbn [mT0 mT1 set_times_speed]. exact Hneg. }
      split; [reflexivity|]. split.
      { rewrite Ht. unfold backwards. cbn [mT0 mT1 s1 set_times_speed].
        by rewrite Hneg. }
      pose proof (Reposition_inputs s1 startTime true) as Hin.
      eapply Forall2_impl; [exact Hin|].
      intros x y (A1 & A2 & A3 & A4 & Hr).
      exact (conj A1 (conj A2 (conj A3 (conj A4 (Hr eq_refl))))).
    + set (s1 := set_times_speed s M 0 (mSpeed s)).
      destruct (Reposition_time s1 startTime true) as (Ht & H0 & H1 & Hsp).
      cbn [mT0 mT1 mTime mSpeed mInputs set_times_speed fst snd].
      rewrite H0, H1. cbn [mT0 mT1 s1 set_times_speed].
      split; [reflexivity|]. split.
      { unfold backwards. cbn [mT0 mT1 set_times_speed]. exact Hpos. }
      split; [reflexivity|]. split.
      { rewrite Ht. unfold backwards. cbn [mT0 mT1 s1 set_times_speed].
        by rewrite Hpos. }
      pose proof (Reposition_inputs s1 startTime true) as Hin.
      eapply Forall2_impl; [exact Hin|].
      intros x y (A1 & A2 & A3 & A4 & Hr).
      exact (conj A1 (conj A2 (conj A3 (conj A4 (Hr eq_refl))))).
Qed.

End RepositionFacts.

(** ** Construction *)

Section ConstructionFacts.
Context `{MC : MixerConstants} `{RO : ResampleOps}.

(** C9.  The constructor keeps the routing map it is given exactly when
    the map's channel count is the number of output channels and its track
    count is the number of inputs.  Any other map is dropped: the engine
    built is the engine built with no map, so it routes by channel
    designation and behaves the same in every call. *)
Theorem Mixer_new_mixerSpec (inputTracks : list SampleTrack)
    (mayThrow : bool) (warpOptions : Warp.t) (startTime stopTime : double)
    (numOutChannels outBufferSize : nat) (outInterleaved : bool)
    (outRate : double) (highQuality : bool) (m : Downmix.t)
    (applyTrackGains : bool) :
  let build spec :=
    Mixer_new inputTracks mayThrow warpOptions startTime stopTime
      numOutChannels outBufferSize outInterleaved outRate highQuality spec
      applyTrackGains in
  let fits :=
    Downmix.GetNumChannels m = numOutChannels ∧
    Downmix.GetNumTracks m = length inputTracks in
  mMixerSpec (build None) = None ∧
  (fits → mMixerSpec (build (Some m)) = Some m) ∧
  (¬ fits →
     mMixerSpec (build (Some m)) = None ∧
     build (Some m) = build None ∧
     ∀ fuel maxToProcess,
       Process fuel (build (Some m)) maxToProcess =
       Process fuel (build None) maxToProcess).
Proof.
  intros build fits; subst build fits. unfold Mixer_new; simpl.
  split; [done|]. split.
  - intros [-> ->]. by rewrite !Nat.eqb_refl.
  - intros Hno.
    assert (Hb : (Downmix.GetNumChannels m =? numOutChannels)%nat &&
                 (Downmix.GetNumTracks m =? length inputTracks)%nat = false).
    { apply andb_false_iff.
      destruct (Nat.eqb_spec (Downmix.GetNumChannels m) numOutChannels);
        destruct (Nat.eqb_spec (Downmix.GetNumTracks m) (length inputTracks));
        auto. exfalso. apply Hno. done. }
    rewrite Hb. done.
Qed.

Lemma Mixer_new_in_play_interval (inputTracks : list SampleTrack)
    (mayThrow : bool) (warpOptions : Warp.t) (startTime stopTime : double)
    (numOutChannels outBufferSize : nat) (outInterleaved : bool)
    (outRate : double) (highQuality : bool) (mixerSpec : option Downmix.t)
    (applyTrackGains : bool) :
  in_play_interval
    (Mixer_new inputTracks mayThrow warpOptions startTime stopTime
       numOutChannels outBufferSize outInterleaved outRate highQuality
       mixerSpec applyTrackGains).
Proof.
  unfold in_play_interval, Mixer_new; simpl.
  pose proof (std_min_le startTime stopTime).
  pose proof (std_max_ge startTime stopTime). tauto.
Qed.

Lemma Reposition_in_play_interval (s : Mixer) (t : double) (b : bool) :
  in_play_interval (Reposition s t b).
Proof.
  unfold in_play_interval.
  destruct (Reposition_time s t b) as (-> & -> & -> & _).
  unfold backwards, std_clamp, std_min, std_max. qcases; split; lra.
Qed.

Lemma SetTimesAndSpeed_in_play_interval (s : Mixer)
    (t0 t1 speed : double) (b : bool) :
  in_play_interval (SetTimesAndSpeed s t0 t1 speed b).
Proof. apply Reposition_in_play_interval. Qed.

Lemma in_play_interval_set_speed (s : Mixer) (speed : double) :
  in_play_interval s →
  in_play_interval (set_times_speed s (mT0 s) (mT1 s) speed).
Proof. intros H. exact H. Qed.

Lemma SetSpeedForKeyboardScrubbing_in_play_interval (s : Mixer)
    (speed startTime : double) :
  in_play_interval s →
  in_play_interval (SetSpeedForKeyboardScrubbing s speed startTime).
Proof.
  intros Hs. unfold SetSpeedForKeyboardScrubbing.
  apply in_play_interval_set_speed.
  destruct (_ || _); [apply Reposition_in_play_interval|exact Hs].
Qed.

End ConstructionFacts.

(** ** Resampling factors *)

Section ResampleParametersFacts.
Import ResampleParameters.




Lemma step_shape (rate : double) (options : Warp.t) (acc : t)
    (track : SampleTrack) :
  ∃ a b vr,
    step rate options acc track =
      mk vr (mMinFactor acc ++ [a]) (mMaxFactor acc ++ [b]) ∧
    step rate options (mk false [] []) track = mk vr [a] [b].
Proof.
  unfold step. destruct (Warp.envelope options) as [e|]; [by eauto|].
  destruct (_ && _); by eauto.
Qed.

Lemma new_lookup (rate : double) (options : Warp.t)
    (tracks : list SampleTrack) :
  length (mMinFactor (new tracks rate options)) = length tracks ∧
  length (mMaxFactor (new tracks rate options)) = length tracks ∧
  ∀ i track, tracks !! i = Some track →
    ∃ a b vr,
      mMinFactor (new tracks rate options) !! i = Some a ∧
      mMaxFactor (new tracks rate options) !! i = Some b ∧
      mbVariableRates (new tracks rate options) = vr ∧
      step rate options (mk false [] []) track = mk vr [a] [b].
Proof.
  unfold new. induction tracks as [|x l IH] using rev_ind.
  - repeat split; try done.
  - rewrite foldl_app. cbn [foldl].
    destruct IH as (L1 & L2 & IH).
    destruct (step_shape rate options (foldl (step rate options) (mk false [] []) l) x)
      as (a & b & vr & -> & Hx).
    cbn [mMinFactor mMaxFactor mbVariableRates].
    rewrite !length_app, L1, L2. repeat split; try done.
    intros i track Hi.
    destruct (decide (i < length l)%nat) as [Hlt|Hge].
    + rewrite lookup_app_l in Hi by done.
      destruct (IH i track Hi) as (a' & b' & vr' & E1 & E2 & E3 & E4).
      exists a', b', vr. rewrite !lookup_app_l by lia.
      repeat split; try done.
      rewrite E4. f_equal.
      clear -E4 Hx. unfold step in *.
      destruct (Warp.envelope options); [congruence|].
      destruct (_ && _); congruence.
    + assert (i = length l) as ->.
      { apply lookup_lt_Some in Hi. rewrite length_app in Hi. simpl in Hi. lia. }
      rewrite list_lookup_middle in Hi by done. simplify_eq.
      exists a, b, vr.
      split; [by apply list_lookup_middle|].
      split; [by apply list_lookup_middle|]. done.
Qed.





End ResampleParametersFacts.

(** ** The per-track mixing routines *)

Section MixFacts.
Context `{MC : MixerConstants} `{RO : ResampleOps}.

Lemma limitSampleBufferSize_le (bufferSize : nat) (limit : Z) :
  (limitSampleBufferSize bufferSize limit <= bufferSize)%nat ∧
  (Z.of_nat (limitSampleBufferSize bufferSize limit) <= Z.max 0 limit)%Z.
Proof. unfold limitSampleBufferSize. lia. Qed.

Lemma copy_or_zero_length (results : option (nat → sample)) (len : nat) :
  length (copy_or_zero results len) = len.
Proof.
  destruct results; simpl.
  - by rewrite length_map, length_seq.
  - by rewrite length_replicate.
Qed.

Lemma apply_envelope_length (env : nat → double) (buffer : list sample) :
  length (apply_envelope env buffer) = length buffer.
Proof. unfold apply_envelope. by rewrite length_imap. Qed.

Lemma cache_GetFloats_cases (track : SampleTrack) (start : Z) (len : nat)
    (mayThrow : bool) :
  (∃ r, cache_GetFloats track start len mayThrow = Done r) ∨
  (cache_GetFloats track start len mayThrow = Raised () ∧ mayThrow = true).
Proof.
  unfold cache_GetFloats. destruct (ReadFloats track start len); eauto.
  destruct mayThrow; eauto.
Qed.

(** What [MixSameRate] does to its row: the cursor moves by the count
    returned, in the direction of play, and nothing else changes. *)
Lemma MixSameRate_spec (s : Mixer) (inp : Input) (maxOut : nat) :
  match MixSameRate s inp maxOut with
  | Done (inp', n, pFloat) =>
      (n <= maxOut)%nat ∧ length pFloat = n ∧
      inp' = set_mSamplePos inp
               (if backwards s then mSamplePos inp - Z.of_nat n
                else mSamplePos inp + Z.of_nat n)%Z
  | Raised e => mMayThrow s = true ∧ e = inp
  | Timeout => False
  end.
Proof.
  unfold MixSameRate.
  set (t := inject_Z (mSamplePos inp) / GetRate (mInputTrack inp)).
  set (slen := limitSampleBufferSize maxOut _).
  assert (Hslen : (slen <= maxOut)%nat) by apply limitSampleBufferSize_le.
  assert (Hid : set_mSamplePos inp (mSamplePos inp) = inp) by (by destruct inp).
  destruct (backwards s) eqn:Hb.
  - destruct (Qle_bool t (tEnd s (mInputTrack inp))).
    { rewrite Z.sub_0_r, Hid. split; [lia|done]. }
    match goal with |- context [cache_GetFloats ?a ?b ?c ?d] =>
      destruct (cache_GetFloats_cases a b c d) as [[r ->]|[-> Hm]] end; simpl.
    + rewrite length_reverse, apply_envelope_length, copy_or_zero_length. done.
    + done.
  - destruct (Qle_bool (tEnd s (mInputTrack inp)) t).
    { rewrite Z.add_0_r, Hid. split; [lia|done]. }
    match goal with |- context [cache_GetFloats ?a ?b ?c ?d] =>
      destruct (cache_GetFloats_cases a b c d) as [[r ->]|[-> Hm]] end; simpl.
    + rewrite apply_envelope_length, copy_or_zero_length. done.
    + done.
Qed.

Lemma pending_eq (s : Mixer) (a b : Input) :
  mInputTrack a = mInputTrack b → mSamplePos a = mSamplePos b →
  mQueueLen a = mQueueLen b → pending s a = pending s b.
Proof. unfold pending, remaining. by intros -> -> ->. Qed.

(** The refill keeps the track and the resampler, leaves the queue
    starting at 0, and moves samples from what is left to read to the
    queue. *)
Lemma refill_spec (s : Mixer) (inp : Input) :
  match refill s (TimeToLongSamples (mInputTrack inp)
                    (tEnd s (mInputTrack inp))) inp with
  | Done inp' =>
      mInputTrack inp' = mInputTrack inp ∧
      mResample inp' = mResample inp ∧
      mQueueStart inp' = 0%Z ∧
      (mQueueLen inp <= mQueueLen inp')%Z ∧
      (pending s inp' <= pending s inp)%nat
  | Raised e => mMayThrow s = true ∧ mInputTrack e = mInputTrack inp
  | Timeout => False
  end.
Proof.
  unfold refill.
  set (endPos := TimeToLongSamples _ _).
  set (getLen := limitSampleBufferSize _ _).
  assert (Hg : (Z.of_nat getLen <=
                Z.max 0 (if backwards s then mSamplePos inp - endPos
                         else endPos - mSamplePos inp))%Z)
    by apply limitSampleBufferSize_le.
  destruct (0 <? getLen)%nat eqn:Hpos.
  - match goal with |- context [cache_GetFloats ?a ?b ?c ?d] =>
      destruct (cache_GetFloats_cases a b c d) as [[r ->]|[-> Hm]] end; simpl.
    + split_and!; try done; try lia.
      all: unfold pending, remaining; simpl; fold endPos.
      all: destruct (backwards s); lia.
    + done.
  - simpl. split_and!; try done; try lia.
    all: apply Nat.eq_le_incl; by apply pending_eq.
Qed.

(** *** What [Process] leaves alone *)

Lemma set_mInputs_id (s : Mixer) : set_mInputs s (mInputs s) = s.
Proof. by destruct s. Qed.

Lemma set_mTemp_id (s : Mixer) : set_mTemp s (mTemp s) = s.
Proof. by destruct s. Qed.

Lemma frame_refl (s : Mixer) : frame s s.
Proof. unfold frame. by destruct s. Qed.

Lemma frame_trans (s1 s2 s3 : Mixer) : frame s1 s2 → frame s2 s3 → frame s1 s3.
Proof. unfold frame. intros H1 H2. rewrite H2, H1. reflexivity. Qed.

Lemma frame_set_mInputs (s : Mixer) (l : list Input) : frame s (set_mInputs s l).
Proof. unfold frame. reflexivity. Qed.

Lemma frame_set_mTemp (s : Mixer) (b : list (list sample)) :
  frame s (set_mTemp s b).
Proof. unfold frame. reflexivity. Qed.

Lemma frame_fields (s s' : Mixer) :
  frame s s' →
  mT0 s' = mT0 s ∧ mT1 s' = mT1 s ∧ mTime s' = mTime s ∧
  mMayThrow s' = mMayThrow s ∧ backwards s' = backwards s.
Proof. unfold frame. intros ->. done. Qed.

Lemma frame_pending (s s' : Mixer) (inp : Input) :
  frame s s' → pending s' inp = pending s inp.
Proof. unfold frame. intros ->. done. Qed.

Lemma mix_channels_frame (fuel maxToProcess i : nat) (js : list nat) :
  ∀ (s : Mixer) (maxOut : nat) (newTime : double),
  match mix_channels fuel maxToProcess i js s maxOut newTime with
  | Done (s', _, _, _) => frame s s' ∧ mTemp s' = mTemp s
  | Raised e => frame s e ∧ mTemp e = mTemp s
  | Timeout => True
  end.
Proof.
  induction js as [|j js IH]; intros s maxOut newTime; cbn [mix_channels].
  - split; [apply frame_refl|done].
  - destruct (mInputs s !! (i + j)%nat) as [inp|]; [|split; [apply frame_refl|done]].
    destruct (mix_input fuel s inp maxToProcess) as [[[inp' result] pFloat]|e|];
      cbn [map_raise mbind outcome_bind]; [|split; [apply frame_set_mInputs|done]|done].
    match goal with |- context [mix_channels _ _ _ _ ?s1 ?m ?t] =>
      specialize (IH s1 m t);
      destruct (mix_channels fuel maxToProcess i js s1 m t)
        as [[[[s2 m2] t2] rest]|e|] end; [| |done].
    + destruct IH as [Hf Ht]. split; [|by rewrite Ht].
      eapply frame_trans; [apply frame_set_mInputs|exact Hf].
    + destruct IH as [Hf Ht]. split; [|by rewrite Ht].
      eapply frame_trans; [apply frame_set_mInputs|exact Hf].
Qed.

Lemma Process_tracks_frame (maxToProcess : nat) (fuel : nat) :
  ∀ (s : Mixer) (i maxOut : nat) (newTime : double),
  match Process_tracks fuel maxToProcess s i maxOut newTime with
  | Done (s', _, _) => frame s s'
  | Raised e => frame s e
  | Timeout => True
  end.
Proof.
  induction fuel as [|fuel IH]; intros s i maxOut newTime;
    cbn [Process_tracks].
  - destruct (mInputs s !! i); [|apply frame_refl].
    destruct (_ <? _)%nat; [apply frame_refl|done].
  - destruct (mInputs s !! i) as [leader|]; [|apply frame_refl].
    destruct (_ <? _)%nat; [apply frame_refl|].
    match goal with |- context [mix_channels ?f ?m ?i ?js ?s ?mo ?nt] =>
      pose proof (mix_channels_frame f m i js s mo nt) as Hm;
      destruct (mix_channels f m i js s mo nt) as [[[[s1 m1] t1] mixed]|e|] end;
      cbn [mbind outcome_bind]; [|tauto|done].
    destruct Hm as [Hf _].
    match goal with |- context [Process_tracks _ _ ?s2 ?i2 ?m2 ?t2] =>
      specialize (IH s2 i2 m2 t2);
      destruct (Process_tracks fuel maxToProcess s2 i2 m2 t2)
        as [[[s3 m3] t3]|e|] end; [| |done].
    + eapply frame_trans; [exact Hf|].
      eapply frame_trans; [apply frame_set_mTemp|exact IH].
    + eapply frame_trans; [exact Hf|].
      eapply frame_trans; [apply frame_set_mTemp|exact IH].
Qed.

(** [Process] keeps the bounds of play; it moves the current time toward
    [mT1] without passing it, and not at all when it throws. *)
Lemma Process_time (fuel : nat) (s : Mixer) (maxToProcess : nat) :
  match Process fuel s maxToProcess with
  | Done (s', _) =>
      mT0 s' = mT0 s ∧ mT1 s' = mT1 s ∧
      (in_play_interval s →
         in_play_interval s' ∧
         if backwards s then mT1 s <= mTime s' ∧ mTime s' <= mTime s
         else mTime s <= mTime s' ∧ mTime s' <= mT1 s)
  | Raised e => mT0 e = mT0 s ∧ mT1 e = mT1 s ∧ mTime e = mTime s
  | Timeout => True
  end.
Proof.
  unfold Process.
  pose proof (Process_tracks_frame maxToProcess fuel (Clear s) 0 0 (mTime s)) as Hf.
  destruct (Process_tracks fuel maxToProcess (Clear s) 0 0 (mTime s))
    as [[[s1 m1] t1]|e|]; cbn [mbind outcome_bind]; [| |done].
  - assert (Hfr : frame s s1).
    { eapply frame_trans; [apply frame_set_mTemp|exact Hf]. }
    destruct (frame_fields _ _ Hfr) as (H0 & H1 & Ht & _ & Hb).
    cbn [mT0 mT1 mTime set_mTime]. rewrite Hb, H0, H1, Ht.
    split; [done|]. split; [done|].
    unfold in_play_interval, backwards. cbn [mT0 mT1 mTime set_mTime].
    rewrite H0, H1. intros [Hlo Hhi]. revert Hlo Hhi.
    unfold std_clamp, std_min, std_max. qcases; intros; split; try split; lra.
  - assert (Hfr : frame s e).
    { eapply frame_trans; [apply frame_set_mTemp|exact Hf]. }
    destruct (frame_fields _ _ Hfr) as (H0 & H1 & Ht & _ & Hb). done.
Qed.

Section WithContract.
Context `{RC : !ResampleContract RO}.

(** One slice through the resampler: the count of floats written grows
    without passing [maxOut], the queue shrinks by what was used, and a
    slice that is not the last one makes progress. *)
Lemma resample_slice_spec (s : Mixer) (maxOut : nat) (inp : Input)
    (out : nat) (t : double) (pFloat : list sample)
    (inp' : Input) (out' : nat) (t' : double) (pFloat' : list sample)
    (last : bool) :
  resample_slice s maxOut inp out t pFloat = (inp', out', t', pFloat', last) →
  (out <= maxOut)%nat → length pFloat = out →
  mInputTrack inp' = mInputTrack inp ∧
  mSamplePos inp' = mSamplePos inp ∧
  (out <= out' <= maxOut)%nat ∧ length pFloat' = out' ∧
  (mQueueLen inp' <= mQueueLen inp)%Z ∧
  last = (mQueueLen inp <? Z.of_nat sProcessLen)%Z ∧
  (last = false → (out < maxOut)%nat →
     (0 <= mQueueLen inp')%Z ∧
     ((maxOut - out') + Z.to_nat (mQueueLen inp') <
      (maxOut - out) + Z.to_nat (mQueueLen inp))%nat).
Proof.
  unfold resample_slice. intros Heq Hout Hlen.
  injection Heq as <- <- _ <- <-. cbn [mInputTrack mSamplePos mQueueLen].
  destruct (mQueueLen inp <? Z.of_nat sProcessLen)%Z eqn:Hlast.
  - match goal with |- context [Resample_Process ?r ?f ?b ?n ?l ?m] =>
      pose proof (Resample_used_le r f b n l m) as Hused;
      pose proof (Resample_produced_le r f b n l m) as Hprod;
      destruct (Resample_Process r f b n l m) as [r' [used produced]] end.
    cbn [fst snd] in *. rewrite length_app.
    split_and!; try done; try lia.
  - apply Z.ltb_ge in Hlast.
    match goal with |- context [Resample_Process ?r ?f ?b ?n ?l ?m] =>
      pose proof (Resample_used_le r f b n l m) as Hused;
      pose proof (Resample_produced_le r f b n l m) as Hprod;
      pose proof (Resample_progress r f b n m) as Hprog;
      destruct (Resample_Process r f b n l m) as [r' [used produced]] end.
    cbn [fst snd] in *. rewrite length_app.
    rewrite Nat2Z.id in Hused, Hprog.
    pose proof sProcessLen_pos.
    split_and!; try done; lia.
Qed.

(** The loop of [MixVariableRates]: what it returns, and how much fuel it
    can use up. *)
Lemma MixVariableRates_loop_spec (s : Mixer) (maxOut : nat) (fuel : nat) :
  ∀ (inp : Input) (out : nat) (t : double) (pFloat : list sample),
  (out <= maxOut)%nat → length pFloat = out →
  match MixVariableRates_loop fuel s maxOut
          (TimeToLongSamples (mInputTrack inp) (tEnd s (mInputTrack inp)))
          inp out t pFloat with
  | Done (inp', out', pFloat') =>
      (out' <= maxOut)%nat ∧ length pFloat' = out' ∧
      mInputTrack inp' = mInputTrack inp ∧
      (pending s inp' <= pending s inp)%nat
  | Raised e => mMayThrow s = true ∧ mInputTrack e = mInputTrack inp
  | Timeout => (fuel <= (maxOut - out) + pending s inp)%nat
  end.
Proof.
  induction fuel as [|fuel IH]; intros inp out t pFloat Hout Hlen;
    cbn [MixVariableRates_loop].
  - destruct (out <? maxOut)%nat; [lia|done].
  - destruct (Nat.ltb_spec out maxOut) as [Hlt|Hge]; [|done].
    assert (Hre :
      match (if (mQueueLen inp <? Z.of_nat sProcessLen)%Z
             then refill s (TimeToLongSamples (mInputTrack inp)
                              (tEnd s (mInputTrack inp))) inp
             else Done inp) with
      | Done inp' =>
          mInputTrack inp' = mInputTrack inp ∧
          (pending s inp' <= pending s inp)%nat
      | Raised e => mMayThrow s = true ∧ mInputTrack e = mInputTrack inp
      | Timeout => False
      end).
    { destruct (_ <? _)%Z; [|done].
      pose proof (refill_spec s inp) as Hr.
      destruct (refill s _ inp); [|done|done]. tauto. }
    destruct (if (mQueueLen inp <? Z.of_nat sProcessLen)%Z then _ else _)
      as [inp1| |]; [|done|done].
    destruct Hre as [Htr1 Hp1]. cbn [mbind outcome_bind].
    destruct (resample_slice s maxOut inp1 out t pFloat)
      as [[[[inp2 out2] t2] pFloat2] last] eqn:Hslice.
    destruct (resample_slice_spec _ _ _ _ _ _ _ _ _ _ _ Hslice Hout Hlen)
      as (Htr2 & Hpos2 & Hout2 & Hlen2 & Hq2 & Hlast & Hprog).
    assert (Hrem : remaining s inp2 = remaining s inp1).
    { unfold remaining. by rewrite Htr2, Hpos2. }
    destruct last.
    + split_and!; try lia; [congruence|].
      unfold pending in *. rewrite Hrem. lia.
    + destruct (Hprog eq_refl Hlt) as [Hq0 Hdec].
      specialize (IH inp2 out2 t2 pFloat2 ltac:(lia) Hlen2).
      rewrite Htr2, Htr1 in IH.
      destruct (MixVariableRates_loop fuel s maxOut _ inp2 out2 t2 pFloat2)
        as [[[inp3 out3] pFloat3]| |].
      * destruct IH as (? & ? & ? & Hp3). split_and!; try done.
        unfold pending in *. rewrite Hrem in *. lia.
      * done.
      * unfold pending in *. rewrite Hrem in *. lia.
Qed.

(** [MixVariableRates], as [MixSameRate] above, and with fuel enough for
    what the input has pending it returns. *)
Lemma MixVariableRates_spec (s : Mixer) (inp : Input) (maxOut fuel : nat) :
  match MixVariableRates fuel s inp maxOut with
  | Done (inp', n, pFloat) =>
      (n <= maxOut)%nat ∧ length pFloat = n ∧
      mInputTrack inp' = mInputTrack inp ∧
      (pending s inp' <= pending s inp)%nat
  | Raised e => mMayThrow s = true ∧ mInputTrack e = mInputTrack inp
  | Timeout => (fuel <= maxOut + pending s inp)%nat
  end.
Proof.
  unfold MixVariableRates.
  pose proof (MixVariableRates_loop_spec s maxOut fuel inp 0
                (inject_Z (mSamplePos inp +
                   (if backwards s then mQueueLen inp else - mQueueLen inp))
                 / GetRate (mInputTrack inp)) [] ltac:(lia) eq_refl) as H.
  destruct (MixVariableRates_loop _ _ _ _ _ _ _ _) as [[[? ?] ?]| |];
    [done|done|lia].
Qed.

(** Either routine returns at most what it was asked for, keeps the
    track, and leaves no more pending than there was. *)
Lemma mix_input_spec (fuel : nat) (s : Mixer) (inp : Input)
    (maxToProcess : nat) :
  match mix_input fuel s inp maxToProcess with
  | Done (inp', n, pFloat) =>
      (n <= maxToProcess)%nat ∧ length pFloat = n ∧
      mInputTrack inp' = mInputTrack inp ∧
      (pending s inp' <= pending s inp)%nat
  | Raised e => mMayThrow s = true
  | Timeout => (fuel <= maxToProcess + pending s inp)%nat
  end.
Proof.
  unfold mix_input. destruct (_ || _).
  - pose proof (MixVariableRates_spec s inp maxToProcess fuel) as H.
    destruct (MixVariableRates fuel s inp maxToProcess) as [[[? ?] ?]| |];
      tauto.
  - pose proof (MixSameRate_spec s inp maxToProcess) as H.
    destruct (MixSameRate s inp maxToProcess) as [[[inp' n] pFloat]| |];
      [|tauto|done].
    destruct H as (Hn & Hlen & ->). split_and!; try done.
    unfold pending, remaining; simpl. destruct (backwards s); lia.
Qed.

Lemma mix_channels_spec (fuel maxToProcess i B : nat) (js : list nat) :
  ∀ (s : Mixer) (maxOut : nat) (newTime : double),
  Forall (λ inp, pending s inp <= B)%nat (mInputs s) →
  match mix_channels fuel maxToProcess i js s maxOut newTime with
  | Done (s', maxOut', _, _) =>
      Forall (λ inp, pending s inp <= B)%nat (mInputs s') ∧
      length (mInputs s') = length (mInputs s) ∧
      ((maxOut <= maxToProcess)%nat → (maxOut' <= maxToProcess)%nat)
  | Raised e => mMayThrow s = true
  | Timeout => (fuel <= maxToProcess + B)%nat
  end.
Proof.
  induction js as [|j js IH]; intros s maxOut newTime HB; cbn [mix_channels].
  - done.
  - destruct (mInputs s !! (i + j)%nat) as [inp|] eqn:Hin; [|done].
    pose proof (mix_input_spec fuel s inp maxToProcess) as Hmix.
    assert (Hinp : (pending s inp <= B)%nat).
    { rewrite Forall_lookup in HB. by eapply HB. }
    destruct (mix_input fuel s inp maxToProcess) as [[[inp' result] pFloat]|e|];
      cbn [map_raise mbind outcome_bind]; [|done|lia].
    destruct Hmix as (Hres & Hlen & Htr & Hp).
    set (s1 := set_mInputs s (<[(i + j)%nat := inp']> (mInputs s))).
    assert (HB1 : Forall (λ inp, pending s1 inp <= B)%nat (mInputs s1)).
    { apply Forall_insert; [exact HB|exact (Nat.le_trans _ _ _ Hp Hinp)]. }
    match goal with |- context [mix_channels _ _ _ _ s1 ?m ?t] =>
      specialize (IH s1 m t HB1);
      destruct (mix_channels fuel maxToProcess i js s1 m t)
        as [[[[s2 m2] t2] rest]|e|] end; cbn [mbind outcome_bind].
    + destruct IH as (HB2 & Hlen2 & Hm2).
      split; [exact HB2|]. split.
      * rewrite Hlen2. apply length_insert.
      * intros Hmo. apply Hm2. lia.
    + exact IH.
    + exact IH.
Qed.

Lemma Process_tracks_spec (maxToProcess B : nat) (fuel : nat) :
  ∀ (s : Mixer) (i maxOut : nat) (newTime : double),
  Forall (λ inp, pending s inp <= B)%nat (mInputs s) →
  match Process_tracks fuel maxToProcess s i maxOut newTime with
  | Done (s', maxOut', _) =>
      (maxOut <= maxToProcess)%nat → (maxOut' <= maxToProcess)%nat
  | Raised e => mMayThrow s = true
  | Timeout => (fuel <= (length (mInputs s) - i) + maxToProcess + B)%nat
  end.
Proof.
  induction fuel as [|fuel IH]; intros s i maxOut newTime HB;
    cbn [Process_tracks].
  - destruct (mInputs s !! i); [|done].
    destruct (_ <? _)%nat; [done|lia].
  - destruct (mInputs s !! i) as [leader|] eqn:Hi; [|done].
    apply lookup_lt_Some in Hi.
    destruct (_ <? _)%nat; [done|].
    match goal with |- context [mix_channels ?f ?m ?i ?js ?s ?mo ?nt] =>
      pose proof (mix_channels_spec f m i B js s mo nt HB) as Hm;
      pose proof (mix_channels_frame f m i js s mo nt) as Hf;
      destruct (mix_channels f m i js s mo nt) as [[[[s1 m1] t1] mixed]|e|] end;
      cbn [mbind outcome_bind]; [|done|lia].
    destruct Hm as (HB1 & Hlen1 & Hm1). destruct Hf as [Hf _].
    set (s2 := set_mTemp s1 _).
    assert (Hf2 : frame s s2).
    { eapply frame_trans; [exact Hf|apply frame_set_mTemp]. }
    match goal with |- context [Process_tracks _ _ s2 ?i2 ?m2 ?t2] =>
      specialize (IH s2 i2 m2 t2);
      destruct (Process_tracks fuel maxToProcess s2 i2 m2 t2)
        as [[[s3 m3] t3]|e|] end.
    + intros Hmo. apply IH; [|by apply Hm1].
      eapply Forall_impl; [exact HB1|]. intros inp Hp.
      by rewrite (frame_pending _ _ _ Hf2).
    + destruct (frame_fields _ _ Hf2) as (_ & _ & _ & <- & _). apply IH.
      eapply Forall_impl; [exact HB1|]. intros inp Hp.
      by rewrite (frame_pending _ _ _ Hf2).
    + assert (Hle : (fuel <= length (mInputs s2) -
                       (i + Pos.to_nat (ChannelsSize (mInputTrack leader)))
                     + maxToProcess + B)%nat).
      { apply IH. eapply Forall_impl; [exact HB1|]. intros inp Hp.
        by rewrite (frame_pending _ _ _ Hf2). }
      subst s2; cbn [mInputs set_mTemp] in Hle. rewrite Hlen1 in Hle. lia.
Qed.

Lemma pending_le_max (s : Mixer) :
  Forall (λ inp, pending s inp <= max_list (map (pending s) (mInputs s)))%nat
    (mInputs s).
Proof.
  apply Forall_forall. intros inp Hin.
  apply max_list_elem_of_le. apply list_elem_of_fmap. eauto.
Qed.

(** With fuel for the turns its loops can take, [Process] returns or
    throws, and the count it returns is at most [maxToProcess]. *)
Lemma Process_spec (s : Mixer) (maxToProcess fuel : nat) :
  (fuel_bound s maxToProcess <= fuel)%nat →
  match Process fuel s maxToProcess with
  | Done (_, n) => (n <= maxToProcess)%nat
  | Raised _ => mMayThrow s = true
  | Timeout => False
  end.
Proof.
  intros Hfuel. unfold Process.
  pose proof (Process_tracks_spec maxToProcess
                (max_list (map (pending s) (mInputs s))) fuel
                (Clear s) 0 0 (mTime s) (pending_le_max s)) as H.
  destruct (Process_tracks fuel maxToProcess (Clear s) 0 0 (mTime s))
    as [[[s1 m1] t1]|e|]; cbn [mbind outcome_bind].
  - apply H. lia.
  - exact H.
  - unfold fuel_bound in Hfuel. cbn [mInputs Clear set_mTemp] in H. lia.
Qed.

(** C1.  With a resampler that keeps its contract and fuel for the turns
    its loops can take, [Process(maxToProcess)] returns, or passes on a read
    error when the engine may throw, and the count it returns is at most
    [maxToProcess]; [MixSameRate] and [MixVariableRates] each return at
    most the [maxOut] they are given, with as many floats written. *)
Theorem Process_returns_at_most (s : Mixer) (maxToProcess fuel : nat) :
  (maxToProcess <= BufferSize s)%nat →
  (fuel_bound s maxToProcess <= fuel)%nat →
  match Process fuel s maxToProcess with
  | Done (_, n) => (n <= maxToProcess)%nat
  | Raised _ => mMayThrow s = true
  | Timeout => False
  end ∧
  (∀ inp maxOut,
     match MixSameRate s inp maxOut with
     | Done (_, n, pFloat) => (n <= maxOut)%nat ∧ length pFloat = n
     | Raised _ => mMayThrow s = true
     | Timeout => False
     end) ∧
  (∀ inp maxOut fuel', (maxOut + pending s inp < fuel')%nat →
     match MixVariableRates fuel' s inp maxOut with
     | Done (_, n, pFloat) => (n <= maxOut)%nat ∧ length pFloat = n
     | Raised _ => mMayThrow s = true
     | Timeout => False
     end).
Proof.
  intros _ Hfuel. split_and!.
  - by apply Process_spec.
  - intros inp maxOut.
    pose proof (MixSameRate_spec s inp maxOut) as H.
    destruct (MixSameRate s inp maxOut) as [[[? ?] ?]| |]; tauto.
  - intros inp maxOut fuel' Hf.
    pose proof (MixVariableRates_spec s inp maxOut fuel') as H.
    destruct (MixVariableRates fuel' s inp maxOut) as [[[? ?] ?]| |];
      [tauto|tauto|lia].
Qed.

End WithContract.

(** *** A call that has nothing to mix *)

Lemma add_block_nil (dest : list sample) (gain : sample) :
  add_block dest [] gain = dest.
Proof. by destruct dest. Qed.

Lemma MixBuffers_nil (numChannels : nat) (channelFlags : list bool)
    (gains : nat → sample) (dests : list (list sample)) :
  MixBuffers numChannels channelFlags gains [] dests 0 = dests.
Proof.
  unfold MixBuffers. cbn [take].
  assert (G : ∀ (f : nat → list sample → list sample) l,
             (∀ c x, f c x = x) → imap f l = l).
  { intros f l. revert f. induction l as [|x l IH]; intros f Hf; simpl; [done|].
    rewrite Hf. f_equal. apply IH. intros c y. apply Hf. }
  apply G. intros c dest. rewrite add_block_nil. by destruct (_ && _).
Qed.

Lemma route_channels_idle (s : Mixer) (i : nat)
    (mixed : list (nat * list sample)) :
  Forall (λ m, m = (0%nat, [])) mixed →
  ∀ j temp, route_channels s i j mixed temp = temp.
Proof.
  induction 1 as [|m mixed -> _ IH]; intros j temp; cbn [route_channels];
    [done|].
  destruct (mInputs s !! (i + j)%nat); [|done].
  by rewrite MixBuffers_nil, IH.
Qed.

Lemma mix_channels_idle (R : Prop) (fuel maxToProcess i : nat) (s : Mixer)
    (js : list nat) :
  idle R s maxToProcess →
  ∀ (maxOut : nat) (newTime : double),
  match mix_channels fuel maxToProcess i js s maxOut newTime with
  | Done (s', maxOut', newTime', mixed) =>
      s' = s ∧ maxOut' = maxOut ∧ Forall (λ m, m = (0%nat, [])) mixed ∧
      (settled s newTime → newTime' = newTime)
  | Raised e => e = s ∧ R
  | Timeout => False
  end.
Proof.
  intros Hidle.
  induction js as [|j js IH]; intros maxOut newTime; cbn [mix_channels].
  - done.
  - destruct (mInputs s !! (i + j)%nat) as [inp|] eqn:Hin; [|done].
    assert (Hs : set_mInputs s (<[(i + j)%nat := inp]> (mInputs s)) = s).
    { rewrite list_insert_id by done. apply set_mInputs_id. }
    destruct (Hidle fuel inp) as [->|[-> Hm]];
      [by eapply list_elem_of_lookup_2| |];
      cbn [map_raise mbind outcome_bind]; [|by rewrite Hs].
    rewrite Hs, Nat.max_0_r.
    match goal with |- context [mix_channels _ _ _ _ _ _ ?t] =>
      specialize (IH maxOut t);
      destruct (mix_channels fuel maxToProcess i js s maxOut t)
        as [[[[s2 m2] t2] rest]|e|] end; cbn [mbind outcome_bind];
      [|done|done].
    destruct IH as (-> & -> & Hrest & Htime).
    split_and!; try done; [by constructor|].
    intros Hset.
    assert (Hj : (if backwards s
                  then std_min newTime
                         (inject_Z (mSamplePos inp) / GetRate (mInputTrack inp))
                  else std_max newTime
                         (inject_Z (mSamplePos inp) / GetRate (mInputTrack inp)))
                 = newTime).
    { unfold settled in Hset. rewrite Forall_lookup in Hset.
      exact (Hset _ _ Hin). }
    rewrite Hj in Htime. by apply Htime.
Qed.

Lemma Process_tracks_idle (R : Prop) (maxToProcess : nat) (s : Mixer)
    (fuel : nat) :
  idle R s maxToProcess →
  ∀ (i maxOut : nat) (newTime : double),
  (length (mInputs s) - i <= fuel)%nat →
  match Process_tracks fuel maxToProcess s i maxOut newTime with
  | Done (s', maxOut', newTime') =>
      s' = s ∧ maxOut' = maxOut ∧ (settled s newTime → newTime' = newTime)
  | Raised e => e = s ∧ R
  | Timeout => False
  end.
Proof.
  intros Hidle.
  induction fuel as [|fuel IH]; intros i maxOut newTime Hfuel;
    cbn [Process_tracks].
  - destruct (mInputs s !! i) eqn:Hi; [|done].
    apply lookup_lt_Some in Hi. lia.
  - destruct (mInputs s !! i) as [leader|] eqn:Hi; [|done].
    apply lookup_lt_Some in Hi.
    destruct (_ <? _)%nat; [done|].
    match goal with |- context [mix_channels ?f ?m ?i ?js ?s ?mo ?nt] =>
      pose proof (mix_channels_idle R f m i s js Hidle mo nt) as Hm;
      destruct (mix_channels f m i js s mo nt) as [[[[s1 m1] t1] mixed]|e|] end;
      cbn [mbind outcome_bind]; [|done|done].
    destruct Hm as (-> & -> & Hmixed & Htime).
    rewrite route_channels_idle, set_mTemp_id by done.
    match goal with |- context [Process_tracks _ _ _ ?i2 _ _] =>
      specialize (IH i2 maxOut t1 ltac:(lia));
      destruct (Process_tracks fuel maxToProcess s i2 maxOut t1)
        as [[[s3 m3] t3]|e|] end; [|done|done].
    destruct IH as (-> & -> & Htime3). split_and!; try done.
    intros Hset. specialize (Htime Hset). subst t1. by apply Htime3.
Qed.

Lemma MixSameRate_exhausted (s : Mixer) (inp : Input) (maxOut : nat) :
  exhausted s inp → MixSameRate s inp maxOut = Done (inp, 0%nat, []).
Proof.
  unfold exhausted, MixSameRate. destruct (backwards s); intros H.
  - apply Qle_bool_iff in H. by rewrite H.
  - apply Qle_bool_iff in H. by rewrite H.
Qed.

Lemma play_exhausted_idle (s : Mixer) (maxToProcess : nat) :
  play_exhausted s → idle False s maxToProcess.
Proof.
  intros [[Hvar Hrate] Hex] fuel inp Hin. left.
  rewrite Forall_forall in Hrate, Hex.
  unfold mix_input. rewrite Hvar.
  rewrite (Qeq_eq_bool _ _ (Hrate _ Hin)). cbn [orb negb].
  apply MixSameRate_exhausted. by apply Hex.
Qed.

Lemma zero_idle (s : Mixer) : idle (mMayThrow s = true) s 0.
Proof.
  intros fuel inp Hin. unfold mix_input. destruct (_ || _).
  - left. unfold MixVariableRates. by destruct fuel.
  - pose proof (MixSameRate_spec s inp 0) as H.
    destruct (MixSameRate s inp 0) as [[[inp' n] pFloat]|e|]; [| |done].
    + left. destruct H as (Hn & Hlen & ->).
      assert (n = 0%nat) as -> by lia.
      destruct pFloat; [|done].
      rewrite Z.add_0_r, Z.sub_0_r.
      do 2 f_equal. destruct (backwards s); by destruct inp.
    + right. destruct H as [? ->]. done.
Qed.

Lemma cursors_behind_settled (s : Mixer) :
  cursors_behind s → settled s (mTime s).
Proof.
  unfold cursors_behind, settled. intros Hc.
  eapply Forall_impl; [exact Hc|]. intros inp.
  cbn zeta. unfold std_min, std_max. destruct (backwards s); intros H.
  - apply Qltb_ge in H. by rewrite H.
  - apply Qltb_ge in H. by rewrite H.
Qed.

(** What [Process] comes to when no input has anything to mix. *)
Lemma Process_idle (R : Prop) (s : Mixer) (maxToProcess fuel : nat) :
  idle R (Clear s) maxToProcess →
  (length (mInputs s) <= fuel)%nat →
  match Process fuel s maxToProcess with
  | Done (s', n) =>
      n = 0%nat ∧ mInputs s' = mInputs s ∧
      s' = set_mTime (Clear s) (mTime s') ∧
      (in_play_interval s → cursors_behind s → mTime s' = mTime s)
  | Raised e => R ∧ mInputs e = mInputs s ∧ mTime e = mTime s
  | Timeout => False
  end.
Proof.
  intros Hidle Hfuel. unfold Process.
  pose proof (Process_tracks_idle R maxToProcess (Clear s) fuel Hidle 0 0
                (mTime s) ltac:(cbn [Clear mInputs set_mTemp]; lia)) as H.
  destruct (Process_tracks fuel maxToProcess (Clear s) 0 0 (mTime s))
    as [[[s1 m1] t1]|e|]; cbn [mbind outcome_bind]; [| |done].
  - destruct H as (-> & -> & Htime). split_and!; try done.
    intros [Hlo Hhi] Hbehind.
    rewrite Htime by (by apply (cursors_behind_settled s)).
    cbn [mTime set_mTime Clear set_mTemp mT0 mT1 backwards].
    revert Hlo Hhi. unfold backwards, std_clamp, std_min, std_max.
    cbn [mTime set_mTime Clear set_mTemp mT0 mT1].
    destruct (Qltb (mT1 s) (mT0 s)) eqn:Hb.
    + apply Qltb_lt in Hb. intros Hlo _.
      assert (Qltb (mTime s) (mT1 s) = false) as -> by (apply Qltb_ge; lra).
      assert (Qltb (mTime s) (mTime s) = false) as -> by (apply Qltb_ge; lra).
      done.
    + apply Qltb_ge in Hb. intros _ Hhi.
      assert (Qltb (mTime s) (mTime s) = false) as -> by (apply Qltb_ge; lra).
      assert (Qltb (mT1 s) (mTime s) = false) as ->; [|done].
      apply Qltb_ge. destruct (Qltb (mT0 s) (mT1 s)); lra.
  - destruct H as [-> Hm]. done.
Qed.

(** C4.  [MixSameRate] returns 0, and its row as it was, when the time of
    the cursor has reached the end of play of the track: [max(trackStart,
    T1)] from above for backwards play, [min(trackEnd, T1)] from below
    otherwise.  Hence when every input has, [Process] returns 0 and leaves
    the inputs as they were, so every later call returns 0 as well. *)
Theorem MixSameRate_at_end (s : Mixer) :
  (∀ inp maxOut,
     exhausted s inp → MixSameRate s inp maxOut = Done (inp, 0%nat, [])) ∧
  (∀ fuel maxToProcess,
     play_exhausted s → (length (mInputs s) <= fuel)%nat →
     ∃ s', Process fuel s maxToProcess = Done (s', 0%nat) ∧
           mInputs s' = mInputs s ∧ play_exhausted s').
Proof.
  split; [intros inp maxOut; apply MixSameRate_exhausted|].
  intros fuel maxToProcess Hex Hfuel.
  pose proof (Process_idle False s maxToProcess fuel
                (play_exhausted_idle (Clear s) maxToProcess Hex) Hfuel) as H.
  destruct (Process fuel s maxToProcess) as [[s' n]|e|]; [|tauto|done].
  destruct H as (-> & Hin & Hfr & _). exists s'. split_and!; try done.
  rewrite Hfr. exact Hex.
Qed.

(** C5, as the code has it.  With fuel for the loop over the tracks,
    [Process(0)] returns 0, or passes on a read error when the engine may
    throw, and leaves every cursor and every queue as it was.  The current
    time stays between its old value and [mT1]; it keeps its value when no
    cursor is ahead of it in the direction of play. *)
Theorem Process_zero (s : Mixer) (fuel : nat) :
  (length (mInputs s) <= fuel)%nat →
  match Process fuel s 0 with
  | Done (s', n) =>
      n = 0%nat ∧ mInputs s' = mInputs s ∧
      (in_play_interval s →
         (if backwards s then mT1 s <= mTime s' ∧ mTime s' <= mTime s
          else mTime s <= mTime s' ∧ mTime s' <= mT1 s) ∧
         (cursors_behind s → mTime s' = mTime s))
  | Raised e => mMayThrow s = true ∧ mInputs e = mInputs s ∧ mTime e = mTime s
  | Timeout => False
  end.
Proof.
  intros Hfuel.
  pose proof (Process_idle _ s 0 fuel (zero_idle (Clear s)) Hfuel) as H.
  pose proof (Process_time fuel s 0) as Ht.
  destruct (Process fuel s 0) as [[s' n]|e|]; [|done|done].
  destruct H as (-> & Hin & _ & Hsame). destruct Ht as (_ & _ & Ht).
  split_and!; try done. intros Hint. split; [by apply Ht|by apply Hsame].
Qed.

(** C10.  The current time lies between the bounds of play after
    construction, after [Reposition] and after [SetTimesAndSpeed]; the
    other operations keep it there.  [Process] keeps the bounds and moves
    the current time toward [mT1], never past it and never back; when it
    throws, the current time is as before.  With a resampler that keeps its
    contract and fuel for its loops, [Process] does one or the other. *)
Theorem current_time_in_play_interval :
  (∀ inputTracks mayThrow warpOptions startTime stopTime numOutChannels
     outBufferSize outInterleaved outRate highQuality mixerSpec
     applyTrackGains,
     in_play_interval
       (Mixer_new inputTracks mayThrow warpOptions startTime stopTime
          numOutChannels outBufferSize outInterleaved outRate highQuality
          mixerSpec applyTrackGains)) ∧
  (∀ s t bSkipping, in_play_interval (Reposition s t bSkipping)) ∧
  (∀ s t0 t1 speed bSkipping,
     in_play_interval (SetTimesAndSpeed s t0 t1 speed bSkipping)) ∧
  (∀ s speed startTime,
     in_play_interval s →
     in_play_interval (SetSpeedForKeyboardScrubbing s speed startTime)) ∧
  (∀ s fuel maxToProcess,
     in_play_interval s →
     match Process fuel s maxToProcess with
     | Done (s', _) =>
         mT0 s' = mT0 s ∧ mT1 s' = mT1 s ∧ in_play_interval s' ∧
         if backwards s then mT1 s <= mTime s' ∧ mTime s' <= mTime s
         else mTime s <= mTime s' ∧ mTime s' <= mT1 s
     | Raised e =>
         mT0 e = mT0 s ∧ mT1 e = mT1 s ∧ mTime e = mTime s ∧
         in_play_interval e
     | Timeout =>
         ∀ RC : ResampleContract RO,
           (fuel < fuel_bound s maxToProcess)%nat
     end).
Proof.
  split_and!.
  - intros. apply Mixer_new_in_play_interval.
  - intros. apply Reposition_in_play_interval.
  - intros. apply SetTimesAndSpeed_in_play_interval.
  - intros. by apply SetSpeedForKeyboardScrubbing_in_play_interval.
  - intros s fuel maxToProcess Hin.
    pose proof (Process_time fuel s maxToProcess) as H.
    destruct (Process fuel s maxToProcess) as [[s' n]|e|] eqn:HP.
    + destruct H as (H0 & H1 & H). destruct (H Hin). done.
    + destruct H as (H0 & H1 & Ht). split_and!; try done.
      unfold in_play_interval in *. by rewrite H0, H1, Ht.
    + intros RC.
      destruct (decide (fuel < fuel_bound s maxToProcess)%nat) as [|Hge];
        [done|].
      pose proof (Process_spec s maxToProcess fuel ltac:(lia)) as Hs.
      by rewrite HP in Hs.
Qed.

(** *** Zeros through the envelope and the mix *)

Lemma apply_envelope_zero (buffer : list sample) :
  Forall (λ x, x == 0) buffer →
  ∀ env, Forall (λ x, x == 0) (apply_envelope env buffer).
Proof.
  unfold apply_envelope.
  induction 1 as [|x l Hx _ IH]; intros env; simpl; constructor.
  - rewrite Hx. ring.
  - apply IH.
Qed.

Lemma replicate_zero (n : nat) : Forall (λ x : Q, x == 0) (replicate n 0).
Proof. apply Forall_replicate. reflexivity. Qed.

Lemma add_block_zero (src : list sample) (gain : sample) :
  Forall (λ x, x == 0) src →
  ∀ dest, Forall2 Qeq (add_block dest src gain) dest.
Proof.
  induction 1 as [|x src Hx _ IH]; intros dest.
  - rewrite add_block_nil. reflexivity.
  - destruct dest as [|d dest]; simpl; constructor.
    + rewrite Hx. ring.
    + apply IH.
Qed.

Lemma MixBuffers_zero (numChannels : nat) (channelFlags : list bool)
    (gains : nat → sample) (src : list sample) (dests : list (list sample))
    (len : nat) :
  Forall (λ x, x == 0) src →
  Forall2 (Forall2 Qeq)
    (MixBuffers numChannels channelFlags gains src dests len) dests.
Proof.
  intros Hsrc. unfold MixBuffers. apply Forall2_imap_same.
  intros c dest. destruct (_ && _).
  - apply add_block_zero. by apply Forall_take.
  - reflexivity.
Qed.

Lemma write_length (off : nat) (data buf : list sample) :
  (off + length data <= length buf)%nat →
  length (write off data buf) = length buf.
Proof.
  intros H. unfold write.
  rewrite !length_app, length_take, length_drop. lia.
Qed.

Lemma write_read (off : nat) (data buf : list sample) :
  (off <= length buf)%nat →
  take (length data) (drop off (write off data buf)) = data.
Proof.
  intros H. unfold write.
  rewrite drop_app_length' by (rewrite length_take; lia).
  by rewrite take_app_length.
Qed.

End MixFacts.

(** ** Construction and copies of the routing map *)

Section DownmixConstruction.
Import Downmix.

Lemma cell_cellm (d : t) (i j : nat) : cell d i j = cellm (mMap d) i j.
Proof. reflexivity. Qed.

Lemma assign_cell_lookup (m : list (list bool)) (i j : nat) (b : bool)
    (i' j' : nat) :
  cellm (assign_cell i j b m) i' j' =
    if decide (i' = i ∧ j' = j) then (λ _, b) <$> cellm m i' j'
    else cellm m i' j'.
Proof.
  unfold cellm, assign_cell.
  destruct (decide (i' = i)) as [->|Hi].
  - rewrite list_lookup_alter_eq. destruct (m !! i) as [row|]; simpl.
    + destruct (decide (j' = j)) as [->|Hj].
      * rewrite decide_True by done.
        destruct (row !! j) eqn:Hr.
        -- by rewrite list_lookup_insert_eq by (by eapply lookup_lt_Some).
        -- by rewrite list_insert_ge, Hr by (by apply lookup_ge_None).
      * rewrite decide_False by tauto. by rewrite list_lookup_insert_ne.
    + by case_decide.
  - rewrite list_lookup_alter_ne by done. rewrite decide_False by tauto. done.
Qed.

Lemma assign_cell_shape (m : list (list bool)) (i j : nat) (b : bool)
    (n : nat) :
  Forall (λ row, length row = n) m →
  length (assign_cell i j b m) = length m ∧
  Forall (λ row, length row = n) (assign_cell i j b m).
Proof.
  intros H. unfold assign_cell. split; [apply length_alter|].
  apply Forall_alter; [done|]. intros row _ Hr. by rewrite length_insert.
Qed.

Lemma fill_row_lookup (v : nat → bool) (i : nat) (js : list nat) :
  ∀ (m : list (list bool)) (i' j' : nat),
  cellm (foldl (λ m j, assign_cell i j (v j) m) m js) i' j' =
    if decide (i' = i ∧ j' ∈ js) then (λ _, v j') <$> cellm m i' j'
    else cellm m i' j'.
Proof.
  induction js as [|j js IH]; intros m i' j'; cbn [foldl].
  - rewrite decide_False; [done|]. intros [_ H]. by apply elem_of_nil in H.
  - rewrite IH, assign_cell_lookup.
    pose proof (elem_of_cons js j' j) as Hc.
    repeat case_decide; try done; try (exfalso; tauto).
    all: destruct_and?; subst; by destruct (cellm m _ _).
Qed.

Lemma fill_rows_lookup (v : nat → nat → bool) (js : list nat)
    (rows : list nat) :
  ∀ (m : list (list bool)) (i' j' : nat),
  cellm (foldl (λ m i, foldl (λ m j, assign_cell i j (v i j) m) m js) m rows)
    i' j' =
    if decide (i' ∈ rows ∧ j' ∈ js) then (λ _, v i' j') <$> cellm m i' j'
    else cellm m i' j'.
Proof.
  induction rows as [|i rows IH]; intros m i' j'; cbn [foldl].
  - rewrite decide_False; [done|]. intros [H _]. by apply elem_of_nil in H.
  - rewrite IH, (fill_row_lookup (v i) i js).
    pose proof (elem_of_cons rows i' i) as Hc.
    repeat case_decide; try done; try (exfalso; tauto).
    all: destruct_and?; subst; by destruct (cellm m _ _).
Qed.

Lemma fill_rows_shape (v : nat → nat → bool) (js rows : list nat) (n : nat) :
  ∀ m : list (list bool),
  Forall (λ row, length row = n) m →
  length (foldl (λ m i, foldl (λ m j, assign_cell i j (v i j) m) m js) m rows)
    = length m ∧
  Forall (λ row, length row = n)
    (foldl (λ m i, foldl (λ m j, assign_cell i j (v i j) m) m js) m rows).
Proof.
  assert (Hrow : ∀ i js (m : list (list bool)),
    Forall (λ row, length row = n) m →
    length (foldl (λ m j, assign_cell i j (v i j) m) m js) = length m ∧
    Forall (λ row, length row = n)
      (foldl (λ m j, assign_cell i j (v i j) m) m js)).
  { intros i js'. induction js' as [|j js' IH]; intros m Hm; cbn [foldl];
      [done|].
    destruct (assign_cell_shape m i j (v i j) n Hm) as [Hl Hf].
    destruct (IH _ Hf) as [Hl' Hf']. split; [congruence|done]. }
  induction rows as [|i rows IH]; intros m Hm; cbn [foldl]; [done|].
  destruct (Hrow i js m Hm) as [Hl Hf].
  destruct (IH _ Hf) as [Hl' Hf']. split; [congruence|done].
Qed.

Lemma reinit_lookup (fresh : nat → nat → bool) (countN countM i j : nat) :
  cellm (reinit fresh countN countM) i j =
    if decide (i < countN ∧ j < countM)%nat then Some (fresh i j) else None.
Proof.
  unfold cellm, reinit. rewrite list_lookup_fmap.
  destruct (decide (i < countN)%nat) as [Hi|Hi].
  - rewrite lookup_seq_lt by done. simpl. rewrite list_lookup_fmap.
    destruct (decide (j < countM)%nat) as [Hj|Hj].
    + rewrite lookup_seq_lt by done. simpl. by rewrite decide_True.
    + rewrite lookup_seq_ge by lia. simpl. rewrite decide_False; [done|tauto].
  - rewrite lookup_seq_ge by lia. simpl. rewrite decide_False; [done|tauto].
Qed.

Lemma reinit_shape (fresh : nat → nat → bool) (countN countM : nat) :
  length (reinit fresh countN countM) = countN ∧
  Forall (λ row, length row = countM) (reinit fresh countN countM).
Proof.
  unfold reinit. split; [by rewrite length_fmap, length_seq|].
  apply Forall_fmap, Forall_forall. intros i _. simpl.
  by rewrite length_fmap, length_seq.
Qed.

Lemma fill_cell (v : nat → nat → bool) (d : t) (i j : nat) :
  cell (fill v d) i j =
    if decide (i < mNumTracks d ∧ j < mNumChannels d)%nat
    then (λ _, v i j) <$> cell d i j else cell d i j.
Proof.
  rewrite !cell_cellm. unfold fill. cbn [mMap].
  rewrite fill_rows_lookup.
  destruct (decide (i < mNumTracks d ∧ j < mNumChannels d)%nat) as [H|H].
  - rewrite decide_True; [done|]. rewrite !elem_of_seq. lia.
  - rewrite decide_False; [done|]. rewrite !elem_of_seq. lia.
Qed.

Lemma new_numChannels (fresh : nat → nat → bool)
    (numTracks maxNumChannels : nat) :
  mNumChannels (new fresh numTracks maxNumChannels) =
    Nat.min numTracks maxNumChannels.
Proof.
  unfold new. cbn [fill Alloc mNumChannels].
  destruct (Nat.ltb_spec maxNumChannels numTracks); lia.
Qed.

Lemma new_shaped (fresh : nat → nat → bool) (numTracks maxNumChannels : nat) :
  shaped (new fresh numTracks maxNumChannels).
Proof.
  unfold shaped, new, fill, Alloc.
  cbn [mMap mNumTracks mMaxNumChannels mNumChannels].
  destruct (reinit_shape fresh numTracks maxNumChannels) as [Hl Hf].
  match goal with |- context [seq 0 ?nc] =>
    destruct (fill_rows_shape (λ i j, (i =? j)%nat) (seq 0 nc)
                (seq 0 numTracks) maxNumChannels _ Hf) as [Hl' Hf'] end.
  split; [congruence|done].
Qed.

Lemma new_cell (fresh : nat → nat → bool) (numTracks maxNumChannels : nat)
    (i j : nat) :
  cell (new fresh numTracks maxNumChannels) i j =
    if decide (i < numTracks ∧ j < maxNumChannels)%nat
    then Some (if decide (j < Nat.min numTracks maxNumChannels)%nat
               then bool_decide (i = j) else fresh i j)
    else None.
Proof.
  pose proof (new_numChannels fresh numTracks maxNumChannels) as Hnc.
  unfold new in *. rewrite fill_cell. unfold Alloc in *.
  cbn [mNumTracks mNumChannels mMaxNumChannels fill] in *. rewrite Hnc.
  rewrite cell_cellm. cbn [mMap]. rewrite reinit_lookup.
  destruct (decide (i < numTracks ∧ j < maxNumChannels)%nat) as [H|H].
  - destruct (decide (j < Nat.min numTracks maxNumChannels)%nat) as [Hj|Hj].
    + rewrite decide_True by tauto. simpl. f_equal.
      destruct (Nat.eqb_spec i j).
      * by rewrite bool_decide_eq_true_2.
      * by rewrite bool_decide_eq_false_2.
    + rewrite decide_False by tauto. done.
  - rewrite decide_False by lia. done.
Qed.

(** X1.  [Downmix(numTracks, maxNumChannels)] builds a map of [numTracks]
    rows and [maxNumChannels] columns with [min(numTracks, maxNumChannels)]
    active channels.  In the active columns track [i] is routed to channel
    [i] and to no other, so a track beyond the active channels is routed
    nowhere; the inactive columns hold what the allocation held. *)
Theorem new_routes_identity (fresh : nat → nat → bool)
    (numTracks maxNumChannels : nat) :
  let d := new fresh numTracks maxNumChannels in
  mNumTracks d = numTracks ∧ mMaxNumChannels d = maxNumChannels ∧
  mNumChannels d = Nat.min numTracks maxNumChannels ∧
  wf d ∧ shaped d ∧
  ∀ i j, cell d i j =
    if decide (i < numTracks ∧ j < maxNumChannels)%nat
    then Some (if decide (j < mNumChannels d)%nat then bool_decide (i = j)
               else fresh i j)
    else None.
Proof.
  intros d; subst d.
  pose proof (new_numChannels fresh numTracks maxNumChannels) as Hnc.
  split; [done|]. split; [done|]. split; [exact Hnc|].
  split; [unfold wf; rewrite Hnc; cbn; lia|].
  split; [apply new_shaped|].
  intros i j. rewrite Hnc. apply new_cell.
Qed.

Lemma shaped_cell (d : t) (i j : nat) :
  shaped d →
  cell d i j =
    if decide (i < mNumTracks d ∧ j < mMaxNumChannels d)%nat
    then Some ((mMap d !!! i) !!! j) else None.
Proof.
  intros [Hl Hf]. unfold cell.
  destruct (mMap d !! i) as [row|] eqn:Hrow; simpl.
  - assert (Hi : (i < mNumTracks d)%nat)
      by (rewrite <- Hl; by eapply lookup_lt_Some).
    assert (Hr : length row = mMaxNumChannels d).
    { rewrite Forall_lookup in Hf. by eapply Hf. }
    rewrite (list_lookup_total_correct _ _ _ Hrow).
    destruct (row !! j) as [b|] eqn:Hb.
    + rewrite (list_lookup_total_correct _ _ _ Hb).
      rewrite decide_True; [done|]. apply lookup_lt_Some in Hb. lia.
    + apply lookup_ge_None in Hb. rewrite decide_False; [done|lia].
  - apply lookup_ge_None in Hrow. rewrite decide_False; [done|lia].
Qed.

Lemma shaped_row (d : t) (i : nat) :
  shaped d →
  length (mMap d !!! i) =
    if decide (i < mNumTracks d)%nat then mMaxNumChannels d else 0%nat.
Proof.
  intros [Hl Hf]. destruct (mMap d !! i) as [row|] eqn:Hrow.
  - rewrite (list_lookup_total_correct _ _ _ Hrow).
    rewrite decide_True by (rewrite <- Hl; by eapply lookup_lt_Some).
    rewrite Forall_lookup in Hf. by eapply Hf.
  - rewrite list_lookup_total_alt, Hrow. simpl.
    apply lookup_ge_None in Hrow. rewrite decide_False; [done|lia].
Qed.

Lemma row_lookup_cell (d : t) (i j : nat) :
  (mMap d !!! i) !! j = cell d i j.
Proof.
  unfold cell. rewrite list_lookup_total_alt.
  by destruct (mMap d !! i).
Qed.

Lemma copy_shaped (fresh : nat → nat → bool) (d : t) : shaped (copy fresh d).
Proof.
  unfold shaped, copy, fill, Alloc.
  cbn [mMap mNumTracks mMaxNumChannels mNumChannels].
  destruct (reinit_shape fresh (mNumTracks d) (mMaxNumChannels d)) as [Hl Hf].
  destruct (fill_rows_shape (λ i j, (mMap d !!! i) !!! j)
              (seq 0 (mNumChannels d)) (seq 0 (mNumTracks d))
              (mMaxNumChannels d) _ Hf) as [Hl' Hf'].
  split; [congruence|done].
Qed.

Lemma copy_cell (fresh : nat → nat → bool) (d : t) (i j : nat) :
  shaped d →
  cell (copy fresh d) i j =
    if decide (i < mNumTracks d ∧ j < mMaxNumChannels d)%nat
    then (if decide (j < mNumChannels d)%nat then cell d i j
          else Some (fresh i j))
    else None.
Proof.
  intros Hs. unfold copy. rewrite fill_cell. unfold Alloc.
  cbn [mNumTracks mNumChannels mMaxNumChannels].
  rewrite (cell_cellm (mk _ _ _ _)). cbn [mMap]. rewrite reinit_lookup.
  rewrite (shaped_cell d i j Hs).
  repeat case_decide; try done; exfalso; tauto.
Qed.

(** X2.  A copy of a routing map, by the copy constructor or by
    assignment to another object, has the counts of the original and its
    entries in the active columns; its inactive columns hold what the new
    allocation held.  The engine reads the active columns only, so it
    routes every track by the copy as it does by the original. *)
Theorem copy_routes_alike (fresh : nat → nat → bool) (d : t) :
  wf d → shaped d →
  let c := copy fresh d in
  (∀ this, assign fresh this d = c) ∧
  mNumTracks c = mNumTracks d ∧ mNumChannels c = mNumChannels d ∧
  mMaxNumChannels c = mMaxNumChannels d ∧ wf c ∧ shaped c ∧
  (∀ i j, cell c i j =
     if decide (i < mNumTracks d ∧ j < mMaxNumChannels d)%nat
     then (if decide (j < mNumChannels d)%nat then cell d i j
           else Some (fresh i j))
     else None) ∧
  (∀ ii channel,
     findChannelFlags (mNumChannels d) (Some (mMap c !!! ii)) channel =
     findChannelFlags (mNumChannels d) (Some (mMap d !!! ii)) channel).
Proof.
  intros Hwf Hs c; subst c.
  pose proof (copy_shaped fresh d) as Hsc.
  split; [done|]. split; [done|]. split; [done|]. split; [done|].
  split; [exact Hwf|]. split; [exact Hsc|].
  split; [intros i j; by apply copy_cell|].
  intros ii channel. unfold findChannelFlags.
  rewrite (shaped_row _ ii Hsc), (shaped_row _ ii Hs).
  f_equal. apply list_eq. intros j. rewrite !lookup_take.
  case_decide as Hj; [|done].
  rewrite !row_lookup_cell, copy_cell by done.
  rewrite (decide_True _ _ Hj).
  case_decide as Hi; [done|].
  rewrite (shaped_cell d ii j Hs). by rewrite decide_False.
Qed.

Lemma SetNumChannels_cell (d : t) (n i j : nat) :
  (n <= mMaxNumChannels d)%nat →
  cell (SetNumChannels d n).1 i j =
    if decide (i < mNumTracks d ∧
               (n <= j < mNumChannels d ∨ mNumChannels d <= j < n))%nat
    then (λ _, false) <$> cell d i j else cell d i j.
Proof.
  intros Hn. unfold SetNumChannels.
  destruct (Nat.eqb_spec (mNumChannels d) n) as [<-|Hne]; simpl.
  { rewrite decide_False; [done|lia]. }
  destruct (Nat.ltb_spec (mMaxNumChannels d) n) as [?|_]; [lia|]; simpl.
  unfold cell; simpl.
  rewrite list_lookup_imap. destruct (mMap d !! i) as [row|] eqn:Hrow; simpl.
  - destruct (Nat.ltb_spec i (mNumTracks d)) as [Hi|Hi].
    + rewrite !clear_columns_lookup.
      repeat case_decide; try done; try lia; by destruct (row !! j).
    + rewrite decide_False; [done|lia].
  - by case_decide.
Qed.

Lemma SetNumChannels_shaped (d : t) (n : nat) :
  shaped d → shaped (SetNumChannels d n).1.
Proof.
  intros [Hl Hf]. unfold SetNumChannels.
  destruct (_ =? _)%nat; [done|]. destruct (_ <? _)%nat; [done|].
  unfold shaped. cbn [fst mMap mNumTracks mMaxNumChannels].
  split; [by rewrite length_imap|].
  rewrite Forall_lookup in Hf. apply Forall_lookup. intros i row.
  rewrite list_lookup_imap. destruct (mMap d !! i) as [row0|] eqn:Hrow; [|done].
  simpl. intros [= <-]. specialize (Hf _ _ Hrow).
  destruct (_ <? _)%nat; [|done]. by rewrite !clear_columns_length.
Qed.

Lemma SetNumChannels_counts (d : t) (n : nat) :
  mNumTracks (SetNumChannels d n).1 = mNumTracks d ∧
  mMaxNumChannels (SetNumChannels d n).1 = mMaxNumChannels d ∧
  mNumChannels (SetNumChannels d n).1 =
    (if decide (n <= mMaxNumChannels d)%nat then n else mNumChannels d).
Proof.
  unfold SetNumChannels.
  destruct (Nat.eqb_spec (mNumChannels d) n) as [<-|Hne]; simpl.
  { split; [done|]. split; [done|]. by case_decide. }
  destruct (Nat.ltb_spec (mMaxNumChannels d) n) as [Hgt|Hle]; simpl.
  - split; [done|]. split; [done|]. rewrite decide_False; [done|lia].
  - split; [done|]. split; [done|]. by rewrite decide_True.
Qed.

(** X3.  [SetNumChannels] keeps the invariant of the class: the active
    channel count stays within the maximum, and the map keeps its rows
    and columns and its track count.  Calling it again with the same
    count changes nothing more and gives the same answer. *)
Theorem SetNumChannels_keeps_invariant (d : t) (n : nat) :
  wf d → shaped d →
  wf (SetNumChannels d n).1 ∧ shaped (SetNumChannels d n).1 ∧
  mNumTracks (SetNumChannels d n).1 = mNumTracks d ∧
  mMaxNumChannels (SetNumChannels d n).1 = mMaxNumChannels d ∧
  SetNumChannels (SetNumChannels d n).1 n = SetNumChannels d n.
Proof.
  intros Hwf Hs. destruct (SetNumChannels_counts d n) as (Ht & Hm & Hc).
  split.
  { unfold wf in *. rewrite Hm, Hc. case_decide; lia. }
  split; [by apply SetNumChannels_shaped|]. split; [done|]. split; [done|].
  unfold SetNumChannels.
  destruct (Nat.eqb_spec (mNumChannels d) n) as [He|Hne]; cbn [fst].
  { by rewrite He, Nat.eqb_refl. }
  destruct (Nat.ltb_spec (mMaxNumChannels d) n) as [Hgt|Hle]; cbn [fst].
  - destruct (Nat.eqb_spec (mNumChannels d) n); [done|].
    destruct (Nat.ltb_spec (mMaxNumChannels d) n); [done|lia].
  - cbn [mNumChannels]. by rewrite Nat.eqb_refl.
Qed.

Lemma resized_snoc (d : t) (ns : list nat) (n : nat) :
  resized d (ns ++ [n]) = (SetNumChannels (resized d ns) n).1.
Proof. unfold resized. by rewrite foldl_app. Qed.

Lemma least_snoc (d : t) (ns : list nat) (n : nat) :
  least d (ns ++ [n]) =
    Nat.min (least d ns) (mNumChannels (resized d (ns ++ [n]))).
Proof.
  unfold least, resized. rewrite !foldl_app. cbn [foldl].
  assert (G : ∀ ns d m,
    (foldl (λ '(d, m) n,
       let d' := (SetNumChannels d n).1 in (d', Nat.min m (mNumChannels d')))
       (d, m) ns).1 = foldl (λ d n, (SetNumChannels d n).1) d ns).
  { clear. induction ns as [|n ns IH]; intros d m; cbn [foldl]; [done|].
    apply IH. }
  specialize (G ns d (mNumChannels d)).
  destruct (foldl _ (d, mNumChannels d) ns) as [d1 m1]. cbn [fst snd] in *.
  by subst d1.
Qed.

(** X4.  After construction and any run of calls of [SetNumChannels],
    every active entry of the map is determined, whatever the allocation
    held: track [i] is routed to channel [j] exactly when [i = j] and
    column [j] has been active throughout.  A channel that was dropped
    stays silent when the count grows back. *)
Theorem resized_routes (fresh : nat → nat → bool)
    (numTracks maxNumChannels : nat) (ns : list nat) (i j : nat) :
  let d0 := new fresh numTracks maxNumChannels in
  let d := resized d0 ns in
  (i < numTracks)%nat → (j < mNumChannels d)%nat →
  cell d i j = Some (bool_decide (i = j ∧ j < least d0 ns)%nat).
Proof.
  intros d0 d. subst d. revert i j.
  assert (Inv : wf (resized d0 ns) ∧ shaped (resized d0 ns) ∧
    mNumTracks (resized d0 ns) = numTracks ∧
    (least d0 ns <= mNumChannels (resized d0 ns))%nat ∧
    ∀ i j, (i < numTracks)%nat → (j < mNumChannels (resized d0 ns))%nat →
      cell (resized d0 ns) i j =
        Some (bool_decide (i = j ∧ j < least d0 ns)%nat));
    [|intros i j; by apply Inv].
  induction ns as [|n ns IH] using rev_ind.
  - pose proof (new_numChannels fresh numTracks maxNumChannels) as Hc.
    pose proof (new_shaped fresh numTracks maxNumChannels) as Hs.
    fold d0 in Hc, Hs.
    unfold resized, least; cbn [foldl snd].
    split; [unfold wf; rewrite Hc; cbn; lia|].
    split; [done|]. split; [done|]. split; [done|].
    intros i j Hi Hj. unfold d0. rewrite new_cell. fold d0.
    rewrite Hc in Hj.
    rewrite decide_True by lia.
    rewrite decide_True by done. f_equal. apply bool_decide_ext.
    rewrite Hc. tauto.
  - destruct IH as (Hwf & Hs & Ht & Hle & Hcell).
    rewrite least_snoc, resized_snoc.
    set (d := resized d0 ns) in *.
    destruct (SetNumChannels_counts d n) as (Ht' & Hm' & Hc').
    assert (Hwf' : wf (SetNumChannels d n).1).
    { unfold wf in *. rewrite Hm', Hc'. case_decide; lia. }
    split; [done|]. split; [by apply SetNumChannels_shaped|].
    split; [congruence|]. split; [lia|].
    intros i j Hi Hj. rewrite Hc' in Hj |- *.
    destruct (decide (n <= mMaxNumChannels d)%nat) as [Hn|Hn].
    + rewrite SetNumChannels_cell by done.
      destruct (decide (j < mNumChannels d)%nat) as [Hjd|Hjd].
      * rewrite decide_False by lia. rewrite Hcell by done.
        f_equal. apply bool_decide_ext. lia.
      * rewrite decide_True by lia.
        rewrite (shaped_cell d i j Hs), decide_True by (unfold wf in *; lia).
        simpl. f_equal. symmetry. apply bool_decide_eq_false_2. lia.
    + assert (Hsame : (SetNumChannels d n).1 = d).
      { unfold SetNumChannels.
        destruct (_ =? _)%nat; [done|].
        destruct (Nat.ltb_spec (mMaxNumChannels d) n); [done|lia]. }
      rewrite Hsame, Hcell by done.
      f_equal. apply bool_decide_ext. lia.
Qed.

End DownmixConstruction.

(** ** Repositioning, composed *)

Section ControlFacts.
Context `{MC : MixerConstants} `{RO : ResampleOps}.

Lemma Reposition_eq (s : Mixer) (t : double) (bSkipping : bool) :
  Reposition s t bSkipping =
    set_mInputs (set_mTime s (clamped s t))
      (imap (λ i inp,
         mkInput (mInputTrack inp)
           (TimeToLongSamples (mInputTrack inp) (clamped s t))
           (mSampleQueue inp) 0 0
           (if bSkipping
            then Resample_new (mHighQuality s)
                   (ResampleParameters.mMinFactor (mResampleParameters s) !!! i)
                   (ResampleParameters.mMaxFactor (mResampleParameters s) !!! i)
            else mResample inp))
         (mInputs s)).
Proof.
  unfold Reposition, MakeResamplers, clamped, backwards.
  cbn [mT0 mT1 mTime set_mTime].
  destruct bSkipping, (Qltb (mT1 s) (mT0 s));
    cbn [set_mInputs set_mTime mInputs mHighQuality mResampleParameters
         mNumChannels mBufferSize mRate mEnvelope mApplyTrackGains mMixerSpec
         mInterleaved mMayThrow mT0 mT1 mTime mTemp mSpeed];
    f_equal; apply list_eq; intros i;
    rewrite ?list_lookup_imap, ?list_lookup_fmap;
    by destruct (mInputs s !! i).
Qed.

Lemma clamped_start (s : Mixer) : clamped s (mT0 s) = mT0 s.
Proof.
  unfold clamped, backwards, std_clamp.
  destruct (Qltb (mT1 s) (mT0 s)) eqn:Hb.
  - apply Qltb_lt in Hb.
    assert (Qltb (mT0 s) (mT1 s) = false) as -> by (apply Qltb_ge; lra).
    assert (Qltb (mT0 s) (mT0 s) = false) as -> by (apply Qltb_ge; lra).
    done.
  - assert (Qltb (mT0 s) (mT0 s) = false) as -> by (apply Qltb_ge; lra).
    done.
Qed.

(** X5.  [SetTimesAndSpeed(t0, t1, speed, bSkipping)] leaves the bounds
    of play at [t0] and [t1], the speed at [|speed|] and the current time
    at [t0] itself, in either direction of play.  Every input keeps its
    track and the memory of its queue, has its cursor at
    [TimeToLongSamples(t0)] and an empty queue starting at 0; its
    resampler is made anew when [bSkipping] is set and kept otherwise.
    The accumulators are not touched. *)
Theorem SetTimesAndSpeed_spec (s : Mixer) (t0 t1 speed : double)
    (bSkipping : bool) :
  let s' := SetTimesAndSpeed s t0 t1 speed bSkipping in
  mT0 s' = t0 ∧ mT1 s' = t1 ∧ mSpeed s' = fabs speed ∧
  MixGetCurrentTime s' = t0 ∧ mTemp s' = mTemp s ∧
  Forall2 (λ inp' inp,
      mInputTrack inp' = mInputTrack inp ∧
      mSamplePos inp' = TimeToLongSamples (mInputTrack inp) t0 ∧
      mSampleQueue inp' = mSampleQueue inp ∧
      mQueueStart inp' = 0%Z ∧ mQueueLen inp' = 0%Z ∧
      if bSkipping
      then ∃ a b, mResample inp' = Resample_new (mHighQuality s) a b
      else mResample inp' = mResample inp)
    (mInputs s') (mInputs s).
Proof.
  intros s'; subst s'. unfold SetTimesAndSpeed, MixGetCurrentTime.
  rewrite Reposition_eq.
  pose proof (clamped_start (set_times_speed s t0 t1 (fabs speed))) as Hc.
  cbn [mT0 set_times_speed] in Hc. rewrite Hc.
  cbn [set_mInputs set_mTime set_times_speed mT0 mT1 mSpeed mTime mTemp
       mInputs mHighQuality mResampleParameters].
  split_and!; try done.
  apply Forall2_imap_same. intros i x; cbn. split_and!; try done.
  destruct bSkipping; eauto.
Qed.

(** X6.  Two calls of [Reposition] in a row come to the second one
    alone, with the resamplers made anew if either call asked for it:
    nothing of the first position is left. *)
Theorem Reposition_Reposition (s : Mixer) (t1 t2 : double) (b1 b2 : bool) :
  Reposition (Reposition s t1 b1) t2 b2 = Reposition s t2 (b1 || b2).
Proof.
  rewrite !Reposition_eq.
  unfold clamped, backwards.
  cbn [set_mInputs set_mTime mInputs mHighQuality mResampleParameters
       mNumChannels mBufferSize mRate mEnvelope mApplyTrackGains mMixerSpec
       mInterleaved mMayThrow mT0 mT1 mTime mTemp mSpeed].
  f_equal. apply list_eq; intros i. rewrite !list_lookup_imap.
  destruct (mInputs s !! i) as [inp|]; [|done]. cbn.
  by destruct b1, b2.
Qed.

(** X7.  An engine just built is where [Reposition(startTime)] puts it:
    making its resamplers again, or repositioning it at its start time with
    or without new resamplers, gives the engine as built. *)
Theorem Reposition_at_start (inputTracks : list SampleTrack)
    (mayThrow : bool) (warpOptions : Warp.t) (startTime stopTime : double)
    (numOutChannels outBufferSize : nat) (outInterleaved : bool)
    (outRate : double) (highQuality : bool) (mixerSpec : option Downmix.t)
    (applyTrackGains : bool) (bSkipping : bool) :
  let s :=
    Mixer_new inputTracks mayThrow warpOptions startTime stopTime
      numOutChannels outBufferSize outInterleaved outRate highQuality
      mixerSpec applyTrackGains in
  MakeResamplers s = s ∧ Reposition s startTime bSkipping = s.
Proof.
  intros s.
  assert (Hc : clamped s startTime = startTime) by apply (clamped_start s).
  split.
  - unfold MakeResamplers, s, Mixer_new, set_mInputs.
    cbn [mInputs mHighQuality mResampleParameters
         mNumChannels mBufferSize mRate mEnvelope mApplyTrackGains mMixerSpec
         mInterleaved mMayThrow mT0 mT1 mTime mTemp mSpeed].
    f_equal. apply list_eq; intros i. rewrite !list_lookup_imap.
    by destruct (inputTracks !! i).
  - rewrite Reposition_eq, Hc.
    unfold s, Mixer_new, set_mInputs, set_mTime.
    cbn [mInputs mHighQuality mResampleParameters
         mNumChannels mBufferSize mRate mEnvelope mApplyTrackGains mMixerSpec
         mInterleaved mMayThrow mT0 mT1 mTime mTemp mSpeed].
    f_equal. apply list_eq; intros i. rewrite !list_lookup_imap.
    destruct (inputTracks !! i); [|done]. cbn. by destruct bSkipping.
Qed.

(** X8.  When the sign of [speed] agrees with the direction of play, or
    [speed] is zero, [SetSpeedForKeyboardScrubbing] sets the speed and
    nothing else: no bound, cursor, queue or resampler changes.  After any
    call the direction agrees with [speed], so a second call with the same
    speed changes nothing, whatever its start time. *)
Theorem SetSpeedForKeyboardScrubbing_same_direction (s : Mixer)
    (speed startTime : double) :
  let s' := SetSpeedForKeyboardScrubbing s speed startTime in
  (¬ direction_changed s speed →
     s' = set_times_speed s (mT0 s) (mT1 s) (fabs speed)) ∧
  ¬ direction_changed s' speed ∧
  (∀ startTime', SetSpeedForKeyboardScrubbing s' speed startTime' = s').
Proof.
  intros s'.
  assert (Hcond : ∀ x : Mixer,
    Qltb 0 speed && Qltb (mT1 x) (mT0 x) || Qltb speed 0 && Qltb (mT0 x) (mT1 x)
    = true ↔ direction_changed x speed).
  { intros x. unfold direction_changed.
    rewrite orb_true_iff, !andb_true_iff, !Qltb_lt. tauto. }
  assert (Hsame : ∀ x : Mixer, ¬ direction_changed x speed → ∀ st,
    SetSpeedForKeyboardScrubbing x speed st =
      set_times_speed x (mT0 x) (mT1 x) (fabs speed)).
  { intros x Hx st. unfold SetSpeedForKeyboardScrubbing.
    destruct (_ || _) eqn:E; [|done]. apply Hcond in E. done. }
  assert (Hnot : ¬ direction_changed s' speed).
  { subst s'. unfold SetSpeedForKeyboardScrubbing.
    pose proof DBL_MAX_pos as Hpos. revert Hpos. generalize DBL_MAX.
    intros M Hpos.
    destruct (_ || _) eqn:E.
    - apply Hcond in E.
      destruct (Qltb 0 speed && Qltb (mT1 s) (mT0 s)) eqn:E1.
      + apply andb_true_iff in E1 as [E1 _]. apply Qltb_lt in E1.
        set (s1 := set_times_speed s 0 M (mSpeed s)).
        destruct (Reposition_time s1 startTime true) as (_ & H0 & H1 & _).
        unfold direction_changed. cbn [mT0 mT1 set_times_speed].
        rewrite H0, H1. cbn [mT0 mT1 s1 set_times_speed]. lra.
      + assert (Hneg : speed < 0).
        { destruct E as [[E2 E3]|[E2 _]]; [|done].
          apply Qltb_lt in E2, E3. by rewrite E2, E3 in E1. }
        set (s1 := set_times_speed s M 0 (mSpeed s)).
        destruct (Reposition_time s1 startTime true) as (_ & H0 & H1 & _).
        unfold direction_changed. cbn [mT0 mT1 set_times_speed].
        rewrite H0, H1. cbn [mT0 mT1 s1 set_times_speed]. lra.
    - intros Hd. apply Hcond in Hd. cbn [mT0 mT1 set_times_speed] in Hd.
      congruence. }
  split; [intros Hd; by apply Hsame|]. split; [exact Hnot|].
  intros st. rewrite (Hsame s' Hnot st).
  assert (Hsp : mSpeed s' = fabs speed).
  { subst s'. unfold SetSpeedForKeyboardScrubbing. done. }
  destruct s'; cbn in *. by rewrite Hsp.
Qed.

End ControlFacts.

(** ** The cursor of [MixSameRate] *)

Section SameRateFacts.
Context `{MC : MixerConstants} `{RO : ResampleOps}.

(** X9.  [MixSameRate] returns at most [maxOut] samples, writes as many
    floats, and moves the cursor of its input by exactly the count it
    returns, in the direction of play; nothing else of the row changes, so
    a call that returns 0 leaves the row as it was.  When the read throws,
    which takes an engine that may throw, the row is as it was.  (How long
    the block is, is not said here: the source computes that in floating
    point.) *)
Theorem MixSameRate_cursor (s : Mixer) (inp : Input) (maxOut : nat) :
  match MixSameRate s inp maxOut with
  | Done (inp', n, pFloat) =>
      (n <= maxOut)%nat ∧ length pFloat = n ∧
      inp' = set_mSamplePos inp
               (if backwards s then mSamplePos inp - Z.of_nat n
                else mSamplePos inp + Z.of_nat n)%Z ∧
      mInputTrack inp' = mInputTrack inp ∧
      mSampleQueue inp' = mSampleQueue inp ∧
      mQueueStart inp' = mQueueStart inp ∧ mQueueLen inp' = mQueueLen inp ∧
      mResample inp' = mResample inp ∧
      (n = 0%nat → inp' = inp)
  | Raised e => e = inp ∧ mMayThrow s = true
  | Timeout => False
  end.
Proof.
  pose proof (MixSameRate_spec s inp maxOut) as Hspec.
  destruct (MixSameRate s inp maxOut) as [[[inp' n] pFloat]|e|];
    [|tauto|done].
  destruct Hspec as (Hn & Hlen & Hinp).
  split; [exact Hn|]. split; [exact Hlen|]. split; [exact Hinp|].
  split_and!; try (by rewrite Hinp).
  intros ->. rewrite Hinp, Z.sub_0_r, Z.add_0_r.
  destruct inp; by destruct (backwards s).
Qed.

End SameRateFacts.

(** ** What every call of [Process] keeps *)

Section RowFacts.
Context `{MC : MixerConstants} `{RO : ResampleOps}.

Lemma MixVariableRates_loop_frame (s s' : Mixer) (maxOut : nat)
    (endPos : sampleCount) (fuel : nat) :
  frame s s' →
  ∀ inp out t pFloat,
  MixVariableRates_loop fuel s' maxOut endPos inp out t pFloat =
  MixVariableRates_loop fuel s maxOut endPos inp out t pFloat.
Proof.
  unfold frame. intros ->.
  induction fuel as [|fuel IH]; intros inp out t pFloat;
    cbn [MixVariableRates_loop]; [done|].
  destruct (out <? maxOut)%nat; [|done].
  change (refill (set_mTemp (set_mInputs s (mInputs s')) (mTemp s')))
    with (refill s).
  destruct (if (mQueueLen inp <? Z.of_nat sProcessLen)%Z
            then refill s endPos inp else Done inp) as [inp1| |];
    cbn [mbind outcome_bind]; [|done|done].
  change (resample_slice (set_mTemp (set_mInputs s (mInputs s')) (mTemp s')))
    with (resample_slice s).
  destruct (resample_slice s maxOut inp1 out t pFloat)
    as [[[[inp2 out2] t2] pFloat2] last].
  destruct last; [done|]. apply IH.
Qed.

Lemma mix_input_frame (s s' : Mixer) (fuel : nat) (inp : Input) (m : nat) :
  frame s s' → mix_input fuel s' inp m = mix_input fuel s inp m.
Proof.
  intros Hfr. unfold mix_input, MixVariableRates.
  rewrite (MixVariableRates_loop_frame s s') by done.
  unfold frame in Hfr. rewrite Hfr. reflexivity.
Qed.

Lemma frame_Clear (s : Mixer) : frame s (Clear s).
Proof. apply frame_set_mTemp. Qed.

(** A property [P] of the rows that every call of a mixing routine keeps
    is kept by [Process], whether it returns or throws; [R] is what a throw
    of a routine tells, [T] what its running out of fuel does. *)
Lemma mix_channels_rows (P : Input → Input → Prop) (R T : Prop) (s0 : Mixer)
    (fuel maxToProcess i : nat) :
  (∀ inp0 inp, P inp0 inp →
     match mix_input fuel s0 inp maxToProcess with
     | Done (inp', _, _) => P inp0 inp'
     | Raised e => P inp0 e ∧ R
     | Timeout => T
     end) →
  ∀ (rows0 : list Input) (js : list nat) (s : Mixer) (maxOut : nat)
    (newTime : double),
  frame s0 s → Forall2 P rows0 (mInputs s) →
  match mix_channels fuel maxToProcess i js s maxOut newTime with
  | Done (s', _, _, _) => Forall2 P rows0 (mInputs s')
  | Raised e => Forall2 P rows0 (mInputs e) ∧ R
  | Timeout => T
  end.
Proof.
  intros Hstep rows0 js.
  induction js as [|j js IH]; intros s maxOut newTime Hfr HP;
    cbn [mix_channels]; [done|].
  destruct (mInputs s !! (i + j)%nat) as [inp|] eqn:Hin; [|done].
  rewrite (mix_input_frame s0 s) by done.
  destruct (Forall2_lookup_r _ _ _ _ _ HP Hin) as (inp0 & Hin0 & HP0).
  specialize (Hstep inp0 inp HP0).
  destruct (mix_input fuel s0 inp maxToProcess) as [[[inp' result] pFloat]|e|];
    cbn [map_raise mbind outcome_bind]; [| |done].
  - set (s1 := set_mInputs s (<[(i + j)%nat := inp']> (mInputs s))).
    assert (HP1 : Forall2 P rows0 (mInputs s1)).
    { subst s1. cbn [mInputs set_mInputs].
      rewrite <- (list_insert_id rows0 (i + j)%nat inp0) by done.
      by apply Forall2_insert. }
    assert (Hfr1 : frame s0 s1).
    { eapply frame_trans; [exact Hfr|apply frame_set_mInputs]. }
    match goal with |- context [mix_channels _ _ _ _ s1 ?m ?t] =>
      specialize (IH s1 m t Hfr1 HP1);
      destruct (mix_channels fuel maxToProcess i js s1 m t)
        as [[[[s2 m2] t2] rest]|e|] end; cbn [mbind outcome_bind]; done.
  - destruct Hstep as [HPe HR]. split; [|exact HR].
    cbn [mInputs set_mInputs].
    rewrite <- (list_insert_id rows0 (i + j)%nat inp0) by done.
    by apply Forall2_insert.
Qed.

Lemma Process_tracks_rows (P : Input → Input → Prop) (R T : Prop)
    (s0 : Mixer) (maxToProcess : nat) :
  (∀ fuel inp0 inp, P inp0 inp →
     match mix_input fuel s0 inp maxToProcess with
     | Done (inp', _, _) => P inp0 inp'
     | Raised e => P inp0 e ∧ R
     | Timeout => T
     end) →
  ∀ (rows0 : list Input) (fuel : nat) (s : Mixer) (i maxOut : nat)
    (newTime : double),
  frame s0 s → Forall2 P rows0 (mInputs s) →
  match Process_tracks fuel maxToProcess s i maxOut newTime with
  | Done (s', _, _) => Forall2 P rows0 (mInputs s')
  | Raised e => Forall2 P rows0 (mInputs e) ∧ R
  | Timeout => T ∨ (fuel + i < length rows0)%nat
  end.
Proof.
  intros Hstep rows0 fuel.
  induction fuel as [|fuel IH]; intros s i maxOut newTime Hfr HP;
    cbn [Process_tracks].
  - destruct (mInputs s !! i) eqn:Hi; [|done].
    destruct (_ <? _)%nat; [done|]. right.
    apply lookup_lt_Some in Hi. rewrite (Forall2_length _ _ _ HP). lia.
  - destruct (mInputs s !! i) as [leader|]; [|done].
    destruct (_ <? _)%nat; [done|].
    match goal with |- context [mix_channels ?f ?m ?i ?js ?s ?mo ?nt] =>
      pose proof (mix_channels_rows P R T s0 f m i (Hstep f) rows0 js s mo nt
                    Hfr HP) as Hm;
      pose proof (mix_channels_frame f m i js s mo nt) as Hf;
      destruct (mix_channels f m i js s mo nt) as [[[[s1 m1] t1] mixed]|e|] end;
      cbn [mbind outcome_bind]; [|done|by left].
    destruct Hf as [Hf _].
    match goal with |- context [Process_tracks _ _ ?s2 ?i2 ?m2 ?t2] =>
      specialize (IH s2 i2 m2 t2);
      destruct (Process_tracks fuel maxToProcess s2 i2 m2 t2)
        as [[[s3 m3] t3]|e|] end.
    1,2: apply IH; [|done];
      eapply frame_trans; [exact Hfr|];
      eapply frame_trans; [exact Hf|apply frame_set_mTemp].
    destruct IH as [HT|Hlt]; [| |by left|right; lia]; [|done].
    eapply frame_trans; [exact Hfr|].
    eapply frame_trans; [exact Hf|apply frame_set_mTemp].
Qed.

Lemma Process_rows (P : Input → Input → Prop) (R T : Prop) (s : Mixer)
    (maxToProcess : nat) :
  (∀ fuel inp0 inp, P inp0 inp →
     match mix_input fuel s inp maxToProcess with
     | Done (inp', _, _) => P inp0 inp'
     | Raised e => P inp0 e ∧ R
     | Timeout => T
     end) →
  ∀ (rows0 : list Input) (fuel : nat),
  Forall2 P rows0 (mInputs s) →
  match Process fuel s maxToProcess with
  | Done (s', _) => Forall2 P rows0 (mInputs s')
  | Raised e => Forall2 P rows0 (mInputs e) ∧ R
  | Timeout => T ∨ (fuel < length rows0)%nat
  end.
Proof.
  intros Hstep rows0 fuel HP. unfold Process.
  pose proof (Process_tracks_rows P R T s maxToProcess Hstep rows0 fuel
                (Clear s) 0 0 (mTime s) (frame_Clear s) HP) as H.
  destruct (Process_tracks fuel maxToProcess (Clear s) 0 0 (mTime s))
    as [[[s1 m1] t1]|e|]; cbn [mbind outcome_bind]; [done|done|].
  destruct H as [H|H]; [by left|right; lia].
Qed.

(** [Process] changes the rows, the accumulators and the current time,
    and nothing else. *)
Lemma Process_static (fuel : nat) (s : Mixer) (maxToProcess : nat) :
  match Process fuel s maxToProcess with
  | Done (s', _) =>
      s' = set_mTime (set_mTemp (set_mInputs s (mInputs s')) (mTemp s'))
             (mTime s')
  | Raised e => frame s e
  | Timeout => True
  end.
Proof.
  unfold Process.
  pose proof (Process_tracks_frame maxToProcess fuel (Clear s) 0 0 (mTime s))
    as Hf.
  destruct (Process_tracks fuel maxToProcess (Clear s) 0 0 (mTime s))
    as [[[s1 m1] t1]|e|]; cbn [mbind outcome_bind]; [| |done].
  - assert (Hfr : frame s s1)
      by (eapply frame_trans; [apply frame_Clear|exact Hf]).
    unfold frame in Hfr. rewrite Hfr. reflexivity.
  - eapply frame_trans; [apply frame_Clear|exact Hf].
Qed.

End RowFacts.

(** ** The queue of [MixVariableRates] *)

Section QueueFacts.
Context `{MC : MixerConstants} `{RO : ResampleOps}.

Lemma toward_refl (s : Mixer) (endPos pos : sampleCount) :
  toward s endPos pos pos.
Proof. unfold toward. destruct (backwards s); lia. Qed.

Lemma toward_trans (s : Mixer) (endPos p1 p2 p3 : sampleCount) :
  toward s endPos p1 p2 → toward s endPos p2 p3 → toward s endPos p1 p3.
Proof. unfold toward. destruct (backwards s); lia. Qed.

Lemma size_t_wrap_le (z : Z) : (0 <= z)%Z → (0 <= size_t_wrap z <= z)%Z.
Proof.
  intros Hz. unfold size_t_wrap.
  pose proof (Z.mod_pos_bound z (2 ^ 64) ltac:(lia)).
  pose proof (Z.mod_le z (2 ^ 64) Hz ltac:(lia)). lia.
Qed.

(** What the refill does to a row whose queue is within its allocation. *)
Lemma refill_range (s : Mixer) (endPos : sampleCount) (inp : Input) :
  queue_wf inp →
  match refill s endPos inp with
  | Done inp' =>
      queue_wf inp' ∧ mInputTrack inp' = mInputTrack inp ∧
      mResample inp' = mResample inp ∧ mQueueStart inp' = 0%Z ∧
      (mQueueLen inp <= mQueueLen inp')%Z ∧
      toward s endPos (mSamplePos inp) (mSamplePos inp') ∧
      (if backwards s
       then mSamplePos inp' + mQueueLen inp' = mSamplePos inp + mQueueLen inp
       else mSamplePos inp' - mQueueLen inp' = mSamplePos inp - mQueueLen inp)%Z ∧
      take (Z.to_nat (mQueueLen inp)) (mSampleQueue inp') =
        take (Z.to_nat (mQueueLen inp))
          (drop (Z.to_nat (mQueueStart inp)) (mSampleQueue inp))
  | Raised e =>
      mMayThrow s = true ∧
      queue_wf e ∧ mInputTrack e = mInputTrack inp ∧
      mResample e = mResample inp ∧ mSamplePos e = mSamplePos inp ∧
      mQueueStart e = 0%Z ∧ mQueueLen e = mQueueLen inp ∧
      take (Z.to_nat (mQueueLen inp)) (mSampleQueue e) =
        take (Z.to_nat (mQueueLen inp))
          (drop (Z.to_nat (mQueueStart inp)) (mSampleQueue inp))
  | Timeout => False
  end.
Proof.
  intros [(Hs0 & Hl0 & Hsl) Hlen]. unfold refill.
  set (data := take (Z.to_nat (mQueueLen inp))
                 (drop (Z.to_nat (mQueueStart inp)) (mSampleQueue inp))).
  assert (Hdata : length data = Z.to_nat (mQueueLen inp)).
  { subst data. rewrite length_take, length_drop. lia. }
  set (queue := write 0 data (mSampleQueue inp)).
  assert (Hqlen : length queue = sQueueMaxLen).
  { subst queue. rewrite write_length; [done|]. lia. }
  assert (Hqdata : take (Z.to_nat (mQueueLen inp)) queue = data).
  { subst queue. unfold write. rewrite take_0. cbn [app].
    by apply take_app_length'. }
  set (getLen := limitSampleBufferSize _ _).
  destruct (limitSampleBufferSize_le
              (Z.to_nat (size_t_wrap (Z.of_nat sQueueMaxLen - mQueueLen inp)))
              (if backwards s then mSamplePos inp - endPos
               else endPos - mSamplePos inp)%Z) as [Hle Hrem].
  fold getLen in Hle, Hrem.
  assert (Hroom : (0 <= Z.of_nat sQueueMaxLen - mQueueLen inp)%Z)
    by (clear -Hs0 Hl0 Hsl; lia).
  pose proof (size_t_wrap_le _ Hroom) as Hwrap.
  assert (Hwf0 : queue_wf
            (mkInput (mInputTrack inp) (mSamplePos inp) queue 0
               (mQueueLen inp) (mResample inp))).
  { split; [cbn; lia|done]. }
  destruct (0 <? getLen)%nat eqn:Hpos.
  - match goal with |- context [cache_GetFloats ?a ?b ?c ?d] =>
      destruct (cache_GetFloats_cases a b c d) as [[r ->]|[-> Hm]] end;
      cbn [map_raise mbind outcome_bind].
    + match goal with |- context [write _ ?seg0 queue] => set (seg := seg0) end.
      assert (Hseg : length seg = getLen).
      { subst seg. destruct (backwards s);
          by rewrite ?length_reverse, apply_envelope_length,
               copy_or_zero_length. }
      cbn [mInputTrack mResample mQueueStart mQueueLen mSamplePos mSampleQueue].
      split_and!; try done; try lia.
      * split; [cbn; lia|]. cbn [mSampleQueue].
        rewrite write_length; [done|]. lia.
      * unfold toward. destruct (backwards s); lia.
      * destruct (backwards s); lia.
      * unfold write. rewrite take_app_le by (rewrite length_take; lia).
        rewrite take_take. rewrite Nat.min_id. exact Hqdata.
    + cbn [mInputTrack mResample mQueueStart mQueueLen mSamplePos mSampleQueue].
      split_and!; done.
  - cbn [mInputTrack mResample mQueueStart mQueueLen mSamplePos mSampleQueue].
    split_and!; try done; try lia.
    + apply toward_refl.
    + destruct (backwards s); lia.
Qed.

(** X12.  The refill of [MixVariableRates] loses no pending sample: on
    a queue within its allocation, the samples pending go to the start of
    the queue in their order, the queue then starts at 0 and is still
    within its allocation, and the cursor moves by as many samples as were
    appended, so that cursor and queue length together still name the same
    start of the queue.  When the read throws, the cursor and the queue
    length are as they were. *)
Theorem refill_keeps_pending (s : Mixer) (endPos : sampleCount)
    (inp : Input) :
  queue_wf inp →
  match refill s endPos inp with
  | Done inp' =>
      queue_wf inp' ∧ mQueueStart inp' = 0%Z ∧
      (mQueueLen inp <= mQueueLen inp')%Z ∧
      take (Z.to_nat (mQueueLen inp)) (mSampleQueue inp') =
        take (Z.to_nat (mQueueLen inp))
          (drop (Z.to_nat (mQueueStart inp)) (mSampleQueue inp)) ∧
      (if backwards s
       then mSamplePos inp' + mQueueLen inp' = mSamplePos inp + mQueueLen inp
       else mSamplePos inp' - mQueueLen inp' = mSamplePos inp - mQueueLen inp)%Z
  | Raised e =>
      mMayThrow s = true ∧ queue_wf e ∧ mQueueStart e = 0%Z ∧
      mQueueLen e = mQueueLen inp ∧ mSamplePos e = mSamplePos inp ∧
      take (Z.to_nat (mQueueLen inp)) (mSampleQueue e) =
        take (Z.to_nat (mQueueLen inp))
          (drop (Z.to_nat (mQueueStart inp)) (mSampleQueue inp))
  | Timeout => False
  end.
Proof.
  intros Hwf. pose proof (refill_range s endPos inp Hwf) as H.
  destruct (refill s endPos inp) as [inp'|e|]; [|tauto|done].
  tauto.
Qed.

Section QueueContract.
Context `{RC : !ResampleContract RO}.

Lemma resample_slice_range (s : Mixer) (maxOut : nat) (inp : Input)
    (out : nat) (t : double) (pFloat : list sample) :
  queue_wf inp →
  let inp' := (resample_slice s maxOut inp out t pFloat).1.1.1.1 in
  queue_wf inp' ∧ mInputTrack inp' = mInputTrack inp ∧
  mSamplePos inp' = mSamplePos inp ∧ mSampleQueue inp' = mSampleQueue inp.
Proof.
  intros [(Hs0 & Hl0 & Hsl) Hlen]. unfold resample_slice.
  cbn [fst mInputTrack mSamplePos mSampleQueue].
  split_and!; try done. split; [|done].
  cbn [mQueueStart mQueueLen].
  match goal with |- context [Resample_Process ?r ?f ?b ?n ?l ?m] =>
    pose proof (Resample_used_le r f b n l m) as Hused;
    destruct (Resample_Process r f b n l m) as [r' [used produced]] end.
  cbn [fst snd] in *.
  destruct (mQueueLen inp <? Z.of_nat sProcessLen)%Z eqn:Hlast.
  - pose proof (size_t_wrap_le (mQueueLen inp) Hl0). lia.
  - apply Z.ltb_ge in Hlast. lia.
Qed.

Lemma MixVariableRates_loop_range (s : Mixer) (maxOut : nat)
    (endPos : sampleCount) (fuel : nat) :
  ∀ (inp : Input) (out : nat) (t : double) (pFloat : list sample),
  queue_wf inp →
  match MixVariableRates_loop fuel s maxOut endPos inp out t pFloat with
  | Done (inp', _, _) =>
      queue_wf inp' ∧ mInputTrack inp' = mInputTrack inp ∧
      toward s endPos (mSamplePos inp) (mSamplePos inp')
  | Raised e =>
      queue_wf e ∧ mInputTrack e = mInputTrack inp ∧
      toward s endPos (mSamplePos inp) (mSamplePos e)
  | Timeout => True
  end.
Proof.
  induction fuel as [|fuel IH]; intros inp out t pFloat Hwf;
    cbn [MixVariableRates_loop].
  - destruct (out <? maxOut)%nat; [done|].
    split_and!; try done. apply toward_refl.
  - destruct (out <? maxOut)%nat;
      [|split_and!; try done; apply toward_refl].
    assert (Hre :
      match (if (mQueueLen inp <? Z.of_nat sProcessLen)%Z
             then refill s endPos inp else Done inp) with
      | Done inp' =>
          queue_wf inp' ∧ mInputTrack inp' = mInputTrack inp ∧
          toward s endPos (mSamplePos inp) (mSamplePos inp')
      | Raised e =>
          queue_wf e ∧ mInputTrack e = mInputTrack inp ∧
          toward s endPos (mSamplePos inp) (mSamplePos e)
      | Timeout => False
      end).
    { destruct (_ <? _)%Z; [|split_and!; try done; apply toward_refl].
      pose proof (refill_range s endPos inp Hwf) as Hr.
      destruct (refill s endPos inp) as [inp1|e|]; [tauto| |done].
      destruct Hr as (_ & ? & ? & _ & -> & _). split_and!; try done.
      apply toward_refl. }
    destruct (if (mQueueLen inp <? Z.of_nat sProcessLen)%Z then _ else _)
      as [inp1|e|]; cbn [mbind outcome_bind]; [|done|done].
    destruct Hre as (Hwf1 & Htr1 & Hto1).
    pose proof (resample_slice_range s maxOut inp1 out t pFloat Hwf1) as Hsl.
    destruct (resample_slice s maxOut inp1 out t pFloat)
      as [[[[inp2 out2] t2] pFloat2] last].
    cbn [fst] in Hsl. destruct Hsl as (Hwf2 & Htr2 & Hpos2 & _).
    destruct last.
    + split_and!; [done|congruence|by rewrite Hpos2].
    + specialize (IH inp2 out2 t2 pFloat2 Hwf2).
      destruct (MixVariableRates_loop fuel s maxOut endPos inp2 out2 t2 pFloat2)
        as [[[inp3 out3] pFloat3]|e|]; [| |done].
      * destruct IH as (? & ? & Hto3). split_and!; [done|congruence|].
        rewrite Hpos2 in Hto3. by eapply toward_trans.
      * destruct IH as (? & ? & Hto3). split_and!; [done|congruence|].
        rewrite Hpos2 in Hto3. by eapply toward_trans.
Qed.

(** X13.  [MixVariableRates] does not sample past the end of play: with
    a resampler that keeps its contract and fuel for the turns of its
    loop, it returns, or passes on a read error when the engine may throw,
    and either way the cursor of its input has moved in the direction of
    play, if at all, and not beyond [endPos], the sample of the end of play
    of the track; the input keeps its track, and its queue stays within
    its allocation. *)
Theorem MixVariableRates_stays_in_range (s : Mixer) (inp : Input)
    (maxOut fuel : nat) :
  let track := mInputTrack inp in
  let endPos := TimeToLongSamples track (tEnd s track) in
  queue_wf inp →
  (maxOut + pending s inp < fuel)%nat →
  match MixVariableRates fuel s inp maxOut with
  | Done (inp', n, pFloat) =>
      queue_wf inp' ∧ mInputTrack inp' = track ∧
      toward s endPos (mSamplePos inp) (mSamplePos inp')
  | Raised e =>
      mMayThrow s = true ∧
      queue_wf e ∧ mInputTrack e = track ∧
      toward s endPos (mSamplePos inp) (mSamplePos e)
  | Timeout => False
  end.
Proof.
  intros track endPos Hwf Hfuel.
  pose proof (MixVariableRates_spec s inp maxOut fuel) as Hspec.
  unfold MixVariableRates in *. fold track endPos in Hspec |- *.
  match goal with |- context [MixVariableRates_loop _ _ _ _ _ _ ?t0 _] =>
    pose proof (MixVariableRates_loop_range s maxOut endPos fuel inp 0 t0 []
                  Hwf) as Hrange;
    destruct (MixVariableRates_loop fuel s maxOut endPos inp 0 t0 [])
      as [[[inp' n] pFloat]|e|] end.
  - exact Hrange.
  - split; [tauto|exact Hrange].
  - lia.
Qed.

End QueueContract.
End QueueFacts.

(** ** Reads that give null *)

Section SilenceFacts.
Context `{MC : MixerConstants} `{RO : ResampleOps}.

Lemma take_add_drop {A} (l : list A) (n m : nat) :
  take (n + m) l = take n l ++ take m (drop n l).
Proof.
  revert l. induction n as [|n IH]; intros [|x l]; simpl; try done.
  - by rewrite take_nil.
  - by rewrite IH.
Qed.

(** The refill when its read gives null. *)
Lemma refill_null (s : Mixer) (endPos : sampleCount) (inp : Input) :
  let track := mInputTrack inp in
  let pos := mSamplePos inp in
  let getLen :=
    limitSampleBufferSize
      (Z.to_nat (size_t_wrap (Z.of_nat sQueueMaxLen - mQueueLen inp)))
      (if backwards s then pos - endPos else endPos - pos)%Z in
  let start :=
    (if backwards s then pos - (Z.of_nat getLen - 1) else pos)%Z in
  queue_wf inp →
  (0 < getLen)%nat →
  cache_GetFloats track start getLen (mMayThrow s) = Done None →
  ∃ inp',
    refill s endPos inp = Done inp' ∧
    mInputTrack inp' = track ∧ mResample inp' = mResample inp ∧
    mSamplePos inp' =
      (if backwards s then pos - Z.of_nat getLen
       else pos + Z.of_nat getLen)%Z ∧
    mQueueStart inp' = 0%Z ∧
    mQueueLen inp' = (mQueueLen inp + Z.of_nat getLen)%Z ∧
    queue_wf inp' ∧
    take (Z.to_nat (mQueueLen inp)) (mSampleQueue inp') = queued inp ∧
    length (take getLen (drop (Z.to_nat (mQueueLen inp)) (mSampleQueue inp')))
      = getLen ∧
    Forall (λ x, x == 0)
      (take getLen (drop (Z.to_nat (mQueueLen inp)) (mSampleQueue inp'))).
Proof.
  intros track pos getLen start [(Hs0 & Hl0 & Hsl) Hlen] Hpos Hread.
  unfold refill. fold track pos. unfold queued.
  set (data := take (Z.to_nat (mQueueLen inp))
                 (drop (Z.to_nat (mQueueStart inp)) (mSampleQueue inp))).
  assert (Hdata : length data = Z.to_nat (mQueueLen inp)).
  { subst data. rewrite length_take, length_drop. lia. }
  set (queue := write 0 data (mSampleQueue inp)).
  assert (Hqlen : length queue = sQueueMaxLen).
  { subst queue. rewrite write_length; [done|]. lia. }
  assert (Hqdata : take (Z.to_nat (mQueueLen inp)) queue = data).
  { subst queue. unfold write. rewrite take_0. cbn [app].
    by apply take_app_length'. }
  fold getLen.
  destruct (limitSampleBufferSize_le
              (Z.to_nat (size_t_wrap (Z.of_nat sQueueMaxLen - mQueueLen inp)))
              (if backwards s then pos - endPos else endPos - pos)%Z)
    as [Hle _].
  fold getLen in Hle.
  assert (Hroom : (0 <= Z.of_nat sQueueMaxLen - mQueueLen inp)%Z)
    by (clear -Hs0 Hl0 Hsl; lia).
  pose proof (size_t_wrap_le _ Hroom) as Hwrap.
  apply Nat.ltb_lt in Hpos. rewrite Hpos. fold start. rewrite Hread.
  cbn [map_raise mbind outcome_bind copy_or_zero].
  match goal with |- context [write _ ?seg0 queue] => set (seg := seg0) end.
  assert (Hseg : length seg = getLen ∧ Forall (λ x, x == 0) seg).
  { subst seg. destruct (backwards s).
    - split; [by rewrite length_reverse, apply_envelope_length,
                 length_replicate|].
      apply Forall_reverse, apply_envelope_zero, replicate_zero.
    - split; [by rewrite apply_envelope_length, length_replicate|].
      apply apply_envelope_zero, replicate_zero. }
  destruct Hseg as [Hseglen Hsegz]. clearbody seg.
  eexists. split; [reflexivity|].
  cbn [mInputTrack mResample mQueueStart mQueueLen mSamplePos mSampleQueue].
  assert (Hrd : take getLen
                  (drop (Z.to_nat (mQueueLen inp))
                     (write (Z.to_nat (mQueueLen inp)) seg queue)) = seg).
  { rewrite <- Hseglen. apply write_read. lia. }
  split_and!; try done.
  - split; [cbn; lia|]. cbn [mSampleQueue].
    rewrite write_length; [done|]. lia.
  - unfold write. rewrite take_app_le by (rewrite length_take; lia).
    rewrite take_take, Nat.min_id. exact Hqdata.
  - by rewrite Hrd.
  - by rewrite Hrd.
Qed.

(** The refill of a silent row of an unreadable track leaves a silent
    row. *)
Lemma refill_silent (quiet : Resample → Prop) (s : Mixer)
    (endPos : sampleCount) (inp : Input) :
  unreadable s (mInputTrack inp) → silent_row quiet inp →
  ∃ inp', refill s endPos inp = Done inp' ∧
          mInputTrack inp' = mInputTrack inp ∧ silent_row quiet inp'.
Proof.
  intros Hun (Hwf & Hq & Hz).
  set (getLen :=
    limitSampleBufferSize
      (Z.to_nat (size_t_wrap (Z.of_nat sQueueMaxLen - mQueueLen inp)))
      (if backwards s then mSamplePos inp - endPos
       else endPos - mSamplePos inp)%Z).
  destruct (decide (0 < getLen)%nat) as [Hpos|Hzero].
  - destruct (refill_null s endPos inp Hwf Hpos (Hun _ _))
      as (inp' & Hre & Htr & Hrs & _ & Hst & Hql & Hwf' & Hkeep & _ & Happ).
    fold getLen in Hql, Happ.
    exists inp'. split; [done|]. split; [done|].
    split; [done|]. split; [by rewrite Hrs|].
    unfold queued at 1. rewrite Hst, Hql.
    change (Z.to_nat 0) with 0%nat. rewrite drop_0.
    destruct Hwf as [(_ & Hl0 & _) _].
    replace (Z.to_nat (mQueueLen inp + Z.of_nat getLen))
      with (Z.to_nat (mQueueLen inp) + getLen)%nat by lia.
    rewrite take_add_drop, Hkeep. by apply Forall_app.
  - pose proof (refill_range s endPos inp Hwf) as Hr.
    unfold refill in *. fold getLen in Hr |- *.
    assert ((0 <? getLen)%nat = false) as Hf by (apply Nat.ltb_ge; lia).
    rewrite Hf in *. eexists. split; [reflexivity|].
    destruct Hr as (Hwf' & _ & _ & _ & _ & _ & _ & Hkeep).
    cbn [mInputTrack mResample] in *. split; [done|].
    split; [done|]. split; [done|].
    unfold queued at 1. cbn [mQueueLen mQueueStart mSampleQueue] in *.
    change (Z.to_nat 0) with 0%nat. rewrite drop_0. by rewrite Hkeep.
Qed.

Section SilenceContract.
Context `{RC : !ResampleContract RO}.

(** A slice of a silent row through a resampler that keeps silence:
    zeros are written, and the row stays silent. *)
Lemma resample_slice_silent (quiet : Resample → Prop) (s : Mixer)
    (maxOut : nat) (inp : Input) (out : nat) (t : double)
    (pFloat : list sample) :
  silence_kept quiet → silent_row quiet inp →
  Forall (λ x, x == 0) pFloat →
  silent_row quiet (resample_slice s maxOut inp out t pFloat).1.1.1.1 ∧
  Forall (λ x, x == 0) (resample_slice s maxOut inp out t pFloat).1.2.
Proof.
  intros Hsil (Hwf & Hq & Hz) Hp.
  pose proof (resample_slice_range s maxOut inp out t pFloat Hwf) as Hrange.
  cbn zeta in Hrange. destruct Hrange as (Hwf' & _ & _ & _).
  revert Hwf'. unfold resample_slice. cbn [fst snd]. intros Hwf'.
  destruct Hwf as [(Hs0 & Hl0 & Hsl) Hlen].
  set (thisProcessLen :=
    if (mQueueLen inp <? Z.of_nat sProcessLen)%Z
    then size_t_wrap (mQueueLen inp) else Z.of_nat sProcessLen) in *.
  assert (Hthis : (0 <= thisProcessLen <= mQueueLen inp)%Z).
  { subst thisProcessLen.
    destruct (mQueueLen inp <? Z.of_nat sProcessLen)%Z eqn:Hlast.
    - apply size_t_wrap_le. lia.
    - apply Z.ltb_ge in Hlast. lia. }
  assert (Hin : Forall (λ x, x == 0)
            (take (Z.to_nat thisProcessLen)
               (drop (Z.to_nat (mQueueStart inp)) (mSampleQueue inp)))).
  { replace (Z.to_nat thisProcessLen)
      with (Nat.min (Z.to_nat thisProcessLen) (Z.to_nat (mQueueLen inp)))
      by lia.
    rewrite <- take_take. by apply Forall_take. }
  match type of Hwf' with context [Resample_Process ?r ?f ?b ?n ?l ?m] =>
    pose proof (Resample_used_le r f b n l m) as Hused;
    destruct (Hsil r f b n l m Hq Hin) as [Hq' Hout];
    destruct (Resample_Process r f b n l m) as [r' [used produced]] end.
  cbn [fst snd] in *.
  split; [|by apply Forall_app].
  split; [done|]. split; [done|].
  unfold queued in *. cbn [mQueueLen mQueueStart mSampleQueue].
  replace (Z.to_nat (mQueueStart inp + Z.of_nat used))
    with (Z.to_nat (mQueueStart inp) + used)%nat by lia.
  rewrite <- drop_drop.
  replace (Z.to_nat (mQueueLen inp - Z.of_nat used))
    with (Z.to_nat (mQueueLen inp) - used)%nat by lia.
  rewrite <- skipn_firstn_comm. by apply Forall_drop.
Qed.

(** The loop of [MixVariableRates] on a silent row of an unreadable
    track. *)
Lemma MixVariableRates_loop_silent (quiet : Resample → Prop) (s : Mixer)
    (maxOut : nat) (endPos : sampleCount) (fuel : nat) :
  silence_kept quiet →
  ∀ (inp : Input) (out : nat) (t : double) (pFloat : list sample),
  unreadable s (mInputTrack inp) → silent_row quiet inp →
  Forall (λ x, x == 0) pFloat →
  match MixVariableRates_loop fuel s maxOut endPos inp out t pFloat with
  | Done (inp', _, pFloat') =>
      silent_row quiet inp' ∧ Forall (λ x, x == 0) pFloat'
  | Raised _ => False
  | Timeout => True
  end.
Proof.
  intros Hsil. induction fuel as [|fuel IH]; intros inp out t pFloat Hun Hrow Hp;
    cbn [MixVariableRates_loop].
  - by destruct (out <? maxOut)%nat.
  - destruct (out <? maxOut)%nat; [|done].
    assert (Hre : ∃ inp1,
      (if (mQueueLen inp <? Z.of_nat sProcessLen)%Z
       then refill s endPos inp else Done inp) = Done inp1 ∧
      mInputTrack inp1 = mInputTrack inp ∧ silent_row quiet inp1).
    { destruct (_ <? _)%Z; [by apply refill_silent|by exists inp]. }
    destruct Hre as (inp1 & -> & Htr1 & Hrow1). cbn [mbind outcome_bind].
    pose proof (resample_slice_silent quiet s maxOut inp1 out t pFloat
                  Hsil Hrow1 Hp) as [Hrow2 Hp2].
    pose proof (resample_slice_range s maxOut inp1 out t pFloat
                  (proj1 Hrow1)) as Hrange.
    cbn zeta in Hrange. destruct Hrange as (_ & Htr2 & _ & _).
    destruct (resample_slice s maxOut inp1 out t pFloat)
      as [[[[inp2 out2] t2] pFloat2] last].
    cbn [fst snd] in *.
    destruct last; [done|].
    apply IH; [|done|done]. by rewrite Htr2, Htr1.
Qed.


End SilenceContract.

(** C3.  A read that gives null is mixed as silence, whatever values the
    envelope has.  When [MixSameRate] returns [n] samples and its read of
    them gave null, the cursor has moved by [n] and the [n] floats written
    are all zero, so that adding them to the accumulators leaves every
    accumulator with its value.  When the refill of [MixVariableRates]
    reads, [getLen] samples, and the read gives null, it appends exactly
    [getLen] zeros to the queue, behind the samples that were pending, and
    moves the cursor by [getLen].  And when every read of the track gives
    null, a row that holds only silence, feeding a resampler that keeps
    its contract and gives silence for silence, has [MixVariableRates]
    return with zeros only written, which leave every accumulator with its
    value, and is such a row again afterwards. *)
Theorem null_read_is_silence (s : Mixer) (inp : Input) :
  let track := mInputTrack inp in
  let pos := mSamplePos inp in
  (∀ maxOut inp' n pFloat,
     let start :=
       (if backwards s
        then pos - sampleCount_of_size_t (size_t_wrap (Z.of_nat n - 1))
        else pos)%Z in
     MixSameRate s inp maxOut = Done (inp', n, pFloat) →
     cache_GetFloats track start n (mMayThrow s) = Done None →
     inp' = set_mSamplePos inp
              (if backwards s then pos - Z.of_nat n else pos + Z.of_nat n)%Z ∧
     length pFloat = n ∧ Forall (λ x, x == 0) pFloat ∧
     ∀ numChannels channelFlags gains dests,
       Forall2 (Forall2 Qeq)
         (MixBuffers numChannels channelFlags gains pFloat dests n) dests) ∧
  (∀ endPos,
     let getLen :=
       limitSampleBufferSize
         (Z.to_nat (size_t_wrap (Z.of_nat sQueueMaxLen - mQueueLen inp)))
         (if backwards s then pos - endPos else endPos - pos)%Z in
     let start :=
       (if backwards s then pos - (Z.of_nat getLen - 1) else pos)%Z in
     queue_wf inp →
     (0 < getLen)%nat →
     cache_GetFloats track start getLen (mMayThrow s) = Done None →
     ∃ inp',
       refill s endPos inp = Done inp' ∧
       mSamplePos inp' =
         (if backwards s then pos - Z.of_nat getLen
          else pos + Z.of_nat getLen)%Z ∧
       mQueueStart inp' = 0%Z ∧
       mQueueLen inp' = (mQueueLen inp + Z.of_nat getLen)%Z ∧
       take (Z.to_nat (mQueueLen inp)) (mSampleQueue inp') = queued inp ∧
       let appended :=
         take getLen (drop (Z.to_nat (mQueueLen inp)) (mSampleQueue inp')) in
       length appended = getLen ∧ Forall (λ x, x == 0) appended) ∧
  (∀ (quiet : Resample → Prop) (fuel maxOut : nat),
     ResampleContract RO → silence_kept quiet →
     unreadable s track → silent_row quiet inp →
     (maxOut + pending s inp < fuel)%nat →
     ∃ inp' n pFloat,
       MixVariableRates fuel s inp maxOut = Done (inp', n, pFloat) ∧
       (n <= maxOut)%nat ∧ length pFloat = n ∧
       Forall (λ x, x == 0) pFloat ∧
       (∀ numChannels channelFlags gains dests,
          Forall2 (Forall2 Qeq)
            (MixBuffers numChannels channelFlags gains pFloat dests n)
            dests) ∧
       mInputTrack inp' = track ∧ silent_row quiet inp').
Proof.
  intros track pos. split_and!.
  - intros maxOut inp' n pFloat start Hmix Hread.
    pose proof (MixSameRate_spec s inp maxOut) as Hspec.
    rewrite Hmix in Hspec. destruct Hspec as (_ & Hlen & Hinp).
    fold pos in Hinp. split; [exact Hinp|]. split; [exact Hlen|].
    assert (Hz : Forall (λ x, x == 0) pFloat);
      [|by auto using MixBuffers_zero].
    revert Hmix. unfold MixSameRate. fold track pos.
    set (slen := limitSampleBufferSize maxOut _).
    subst start. destruct (backwards s).
    + destruct (Qle_bool _ _); [intros [= <- <- <-]; constructor|].
      destruct (cache_GetFloats _ _ slen _) as [r| |] eqn:Hr;
        cbn [map_raise mbind outcome_bind]; [|done|done].
      intros [= <- <- <-]. rewrite Hread in Hr. injection Hr as <-.
      apply Forall_reverse, apply_envelope_zero, replicate_zero.
    + destruct (Qle_bool _ _); [intros [= <- <- <-]; constructor|].
      destruct (cache_GetFloats _ _ slen _) as [r| |] eqn:Hr;
        cbn [map_raise mbind outcome_bind]; [|done|done].
      intros [= <- <- <-]. rewrite Hread in Hr. injection Hr as <-.
      apply apply_envelope_zero, replicate_zero.
  - intros endPos getLen start Hwf Hpos Hread.
    destruct (refill_null s endPos inp Hwf Hpos Hread)
      as (inp' & Hre & _ & _ & Hp & Hst & Hql & _ & Hkeep & Hlen & Hzero).
    exists inp'. split_and!; done.
  - intros quiet fuel maxOut RC Hsil Hun Hrow Hfuel.
    pose proof (MixVariableRates_spec s inp maxOut fuel) as Hspec.
    unfold MixVariableRates in *.
    match goal with |- context [MixVariableRates_loop _ _ _ ?e _ _ ?t0 _] =>
      pose proof (MixVariableRates_loop_silent quiet s maxOut e fuel Hsil
                    inp 0 t0 [] Hun Hrow (Forall_nil_2 _)) as Hloop;
      destruct (MixVariableRates_loop fuel s maxOut e inp 0 t0 [])
        as [[[inp' n] pFloat]|e'|] end; [|done|lia].
    destruct Hspec as (Hn & Hlen & Htr & _). destruct Hloop as [Hrow' Hz].
    exists inp', n, pFloat. split_and!; try done.
    intros. by apply MixBuffers_zero.
Qed.

End SilenceFacts.

(** ** The rows between calls *)

Section EngineInvariant.
Context `{MC : MixerConstants} `{RO : ResampleOps}.

Lemma kept_refl (s : Mixer) (inp : Input) : queue_wf inp → kept s inp inp.
Proof. intros H. split_and!; try done. destruct (backwards s); lia. Qed.

Lemma toward_kept (s : Mixer) (endPos : sampleCount) (inp0 inp inp' : Input) :
  kept s inp0 inp → queue_wf inp' → mInputTrack inp' = mInputTrack inp →
  toward s endPos (mSamplePos inp) (mSamplePos inp') → kept s inp0 inp'.
Proof.
  unfold kept, toward. intros (_ & Htr & Hpos) Hwf Htr' Hto.
  split_and!; [done|congruence|]. destruct (backwards s); lia.
Qed.

Lemma Reposition_queue_wf (s : Mixer) (t : double) (b : bool) :
  Forall queue_wf (mInputs s) → Forall queue_wf (mInputs (Reposition s t b)).
Proof.
  intros H. rewrite Reposition_eq. cbn [mInputs set_mInputs].
  rewrite Forall_lookup in H. apply Forall_lookup. intros i inp'.
  rewrite list_lookup_imap.
  destruct (mInputs s !! i) as [inp|] eqn:Hi; [|done]. intros [= <-].
  destruct (H _ _ Hi) as [_ Hlen]. split; [cbn; lia|done].
Qed.

Lemma Mixer_new_queue_wf (inputTracks : list SampleTrack)
    (mayThrow : bool) (warpOptions : Warp.t) (startTime stopTime : double)
    (numOutChannels outBufferSize : nat) (outInterleaved : bool)
    (outRate : double) (highQuality : bool) (mixerSpec : option Downmix.t)
    (applyTrackGains : bool) :
  Forall queue_wf
    (mInputs (Mixer_new inputTracks mayThrow warpOptions startTime stopTime
                numOutChannels outBufferSize outInterleaved outRate
                highQuality mixerSpec applyTrackGains)).
Proof.
  unfold Mixer_new. cbn [mInputs]. apply Forall_lookup. intros i inp.
  rewrite list_lookup_imap. destruct (inputTracks !! i); [|done].
  intros [= <-]. split; [cbn; lia|]. cbn. apply length_replicate.
Qed.

Section InvariantContract.
Context `{RC : !ResampleContract RO}.

Lemma mix_input_kept (s : Mixer) (fuel : nat) (maxToProcess : nat)
    (inp0 inp : Input) :
  kept s inp0 inp →
  match mix_input fuel s inp maxToProcess with
  | Done (inp', _, _) => kept s inp0 inp'
  | Raised e => kept s inp0 e ∧ True
  | Timeout => True
  end.
Proof.
  intros Hk. unfold mix_input. destruct (_ || _).
  - unfold MixVariableRates.
    match goal with |- context [MixVariableRates_loop _ _ _ ?e _ _ ?t0 _] =>
      pose proof (MixVariableRates_loop_range s maxToProcess e fuel inp 0 t0 []
                    (proj1 Hk)) as H;
      destruct (MixVariableRates_loop fuel s maxToProcess e inp 0 t0 [])
        as [[[inp' n] pFloat]|e'|] end; [| |done].
    + destruct H as (? & ? & ?). by eapply toward_kept.
    + destruct H as (? & ? & ?). split; [|done]. by eapply toward_kept.
  - pose proof (MixSameRate_spec s inp maxToProcess) as H.
    destruct (MixSameRate s inp maxToProcess) as [[[inp' n] pFloat]|e|];
      [| |done].
    + destruct H as (_ & _ & ->). destruct Hk as (Hwf & Htr & Hpos).
      split_and!; [exact Hwf|exact Htr|].
      cbn [mSamplePos set_mSamplePos]. destruct (backwards s); lia.
    + destruct H as [_ ->]. by split.
Qed.

(** X14.  The queue of every input lies within its allocation of
    [sQueueMaxLen] samples after construction, and [Reposition],
    [SetTimesAndSpeed], [SetSpeedForKeyboardScrubbing] and [Process] keep
    it there.  With a resampler that keeps its contract and fuel for its
    loops, [Process] returns, or passes on a read error when the engine may
    throw, and either way every input has its track and a cursor that has
    moved in the direction of play, if at all. *)
Theorem queues_within_allocation :
  (∀ inputTracks mayThrow warpOptions startTime stopTime numOutChannels
     outBufferSize outInterleaved outRate highQuality mixerSpec
     applyTrackGains,
     Forall queue_wf
       (mInputs (Mixer_new inputTracks mayThrow warpOptions startTime stopTime
                   numOutChannels outBufferSize outInterleaved outRate
                   highQuality mixerSpec applyTrackGains))) ∧
  (∀ s t bSkipping,
     Forall queue_wf (mInputs s) →
     Forall queue_wf (mInputs (Reposition s t bSkipping))) ∧
  (∀ s t0 t1 speed bSkipping,
     Forall queue_wf (mInputs s) →
     Forall queue_wf (mInputs (SetTimesAndSpeed s t0 t1 speed bSkipping))) ∧
  (∀ s speed startTime,
     Forall queue_wf (mInputs s) →
     Forall queue_wf (mInputs (SetSpeedForKeyboardScrubbing s speed startTime))) ∧
  (∀ s fuel maxToProcess,
     Forall queue_wf (mInputs s) →
     (fuel_bound s maxToProcess <= fuel)%nat →
     match Process fuel s maxToProcess with
     | Done (s', _) => Forall2 (kept s) (mInputs s) (mInputs s')
     | Raised e => mMayThrow s = true ∧ Forall2 (kept s) (mInputs s) (mInputs e)
     | Timeout => False
     end).
Proof.
  split_and!.
  - intros. apply Mixer_new_queue_wf.
  - intros. by apply Reposition_queue_wf.
  - intros s t0 t1 speed b H. unfold SetTimesAndSpeed.
    by apply Reposition_queue_wf.
  - intros s speed st H. unfold SetSpeedForKeyboardScrubbing.
    cbn [mInputs set_times_speed].
    destruct (_ || _); [|done]. apply Reposition_queue_wf.
    by destruct (_ && _).
  - intros s fuel maxToProcess Hwf Hfuel.
    pose proof (Process_spec s maxToProcess fuel Hfuel) as Hspec.
    assert (H0 : Forall2 (kept s) (mInputs s) (mInputs s)).
    { apply Forall2_same_length_lookup_2; [done|].
      intros i x y Hx Hy. simplify_eq. apply kept_refl.
      rewrite Forall_lookup in Hwf. by eapply Hwf. }
    pose proof (Process_rows (kept s) True True s maxToProcess
                  (λ fuel inp0 inp, mix_input_kept s fuel maxToProcess inp0 inp)
                  (mInputs s) fuel H0) as H.
    destruct (Process fuel s maxToProcess) as [[s' n]|e|]; [done|tauto|done].
Qed.

End InvariantContract.

End EngineInvariant.

(** ** The accumulators *)

Section AccumulatorFacts.
Context `{MC : MixerConstants} `{RO : ResampleOps}.

Lemma tail_kept_refl (N : nat) (r : list sample) : tail_kept N r r.
Proof. by split. Qed.

Lemma tail_kept_trans (N1 N2 : nat) (r1 r2 r3 : list sample) :
  (N1 <= N2)%nat → tail_kept N2 r1 r2 → tail_kept N1 r2 r3 →
  tail_kept N2 r1 r3.
Proof.
  intros HN [Hl1 Hk1] [Hl2 Hk2]. split; [congruence|].
  intros k Hk. rewrite Hk1 by done. apply Hk2. lia.
Qed.

Lemma Forall2_compose {A B C} (P : A → B → Prop) (Q : B → C → Prop)
    (R : A → C → Prop) (l1 : list A) (l2 : list B) (l3 : list C) :
  (∀ x y z, P x y → Q y z → R x z) →
  Forall2 P l1 l2 → Forall2 Q l2 l3 → Forall2 R l1 l3.
Proof.
  intros H H12. revert l3.
  induction H12 as [|x y l1 l2 Hxy _ IH]; intros l3 H23;
    inversion H23; subst; constructor; eauto.
Qed.

Lemma Forall2_tail_kept_trans (N1 N2 : nat) (t1 t2 t3 : list (list sample)) :
  (N1 <= N2)%nat →
  Forall2 (tail_kept N2) t1 t2 → Forall2 (tail_kept N1) t2 t3 →
  Forall2 (tail_kept N2) t1 t3.
Proof.
  intros HN H12. revert t3.
  induction H12 as [|r1 r2 t1 t2 Hr _ IH]; intros t3 H23;
    inversion H23; subst; constructor.
  - by eapply tail_kept_trans.
  - by apply IH.
Qed.

Lemma Forall2_tail_kept_refl (N : nat) (t : list (list sample)) :
  Forall2 (tail_kept N) t t.
Proof. induction t; constructor; [apply tail_kept_refl|done]. Qed.

Lemma add_block_lookup (dest src : list sample) (gain : sample) (k : nat) :
  add_block dest src gain !! k =
    match dest !! k, src !! k with
    | Some d, Some x => Some (d + x * gain)
    | d, _ => d
    end.
Proof.
  revert src k. induction dest as [|d dest IH]; intros src k; [done|].
  destruct src as [|x src]; cbn [add_block].
  - by destruct ((d :: dest) !! k).
  - destruct k as [|k]; [done|]. cbn [lookup list_lookup]. apply IH.
Qed.

Lemma add_block_length (dest src : list sample) (gain : sample) :
  length (add_block dest src gain) = length dest.
Proof.
  revert src. induction dest as [|d dest IH]; intros src; [done|].
  destruct src; cbn; [done|]. by rewrite IH.
Qed.

Lemma MixBuffers_tail (numChannels : nat) (channelFlags : list bool)
    (gains : nat → sample) (src : list sample) (dests : list (list sample))
    (len : nat) :
  Forall2 (tail_kept len)
    (MixBuffers numChannels channelFlags gains src dests len) dests.
Proof.
  unfold MixBuffers. apply Forall2_imap_same. intros c dest.
  destruct (_ && _); [|apply tail_kept_refl].
  split; [apply add_block_length|]. intros k Hk.
  rewrite add_block_lookup, lookup_take_ge by done. by destruct (dest !! k).
Qed.

Lemma route_channels_tail (s : Mixer) (i N : nat)
    (mixed : list (nat * list sample)) :
  Forall (λ m, m.1 <= N)%nat mixed →
  ∀ j temp, Forall2 (tail_kept N) (route_channels s i j mixed temp) temp.
Proof.
  induction 1 as [|[result pFloat] mixed Hm _ IH]; intros j temp;
    cbn [route_channels]; [apply Forall2_tail_kept_refl|].
  destruct (mInputs s !! (i + j)%nat); [|apply Forall2_tail_kept_refl].
  eapply Forall2_tail_kept_trans; [|apply IH|]; [exact Hm|].
  apply MixBuffers_tail.
Qed.

Lemma mix_channels_mixed (fuel maxToProcess i : nat) (js : list nat) :
  ∀ (s : Mixer) (maxOut : nat) (newTime : double),
  match mix_channels fuel maxToProcess i js s maxOut newTime with
  | Done (_, maxOut', _, mixed) =>
      (maxOut <= maxOut')%nat ∧ Forall (λ m, m.1 <= maxOut')%nat mixed
  | _ => True
  end.
Proof.
  induction js as [|j js IH]; intros s maxOut newTime; cbn [mix_channels];
    [done|].
  destruct (mInputs s !! (i + j)%nat) as [inp|]; [|done].
  destruct (mix_input fuel s inp maxToProcess) as [[[inp' result] pFloat]|e|];
    cbn [map_raise mbind outcome_bind]; [|done|done].
  match goal with |- context [mix_channels _ _ _ _ ?s1 ?m ?t] =>
    specialize (IH s1 m t);
    destruct (mix_channels fuel maxToProcess i js s1 m t)
      as [[[[s2 m2] t2] rest]|e|] end; cbn [mbind outcome_bind]; [|done|done].
  destruct IH as [Hle Hrest]. split; [lia|].
  constructor; [cbn; lia|done].
Qed.

Lemma Process_tracks_tail (maxToProcess : nat) (fuel : nat) :
  ∀ (s : Mixer) (i maxOut : nat) (newTime : double),
  match Process_tracks fuel maxToProcess s i maxOut newTime with
  | Done (s', maxOut', _) =>
      (maxOut <= maxOut')%nat ∧ Forall2 (tail_kept maxOut') (mTemp s') (mTemp s)
  | Raised e => Forall2 (λ r' r, length r' = length r) (mTemp e) (mTemp s)
  | Timeout => True
  end.
Proof.
  assert (Hlen : ∀ t : list (list sample),
            Forall2 (λ r' r : list sample, length r' = length r) t t).
  { intros t. induction t; by constructor. }
  induction fuel as [|fuel IH]; intros s i maxOut newTime;
    cbn [Process_tracks].
  - destruct (mInputs s !! i);
      [|split; [done|apply Forall2_tail_kept_refl]].
    destruct (_ <? _)%nat; [|done].
    split; [done|apply Forall2_tail_kept_refl].
  - destruct (mInputs s !! i) as [leader|];
      [|split; [done|apply Forall2_tail_kept_refl]].
    destruct (_ <? _)%nat; [split; [done|apply Forall2_tail_kept_refl]|].
    match goal with |- context [mix_channels ?f ?m ?i ?js ?s ?mo ?nt] =>
      pose proof (mix_channels_mixed f m i js s mo nt) as Hm;
      pose proof (mix_channels_frame f m i js s mo nt) as Hf;
      destruct (mix_channels f m i js s mo nt) as [[[[s1 m1] t1] mixed]|e|] end;
      cbn [mbind outcome_bind]; [| |done].
    2:{ destruct Hf as [_ ->]. apply Hlen. }
    destruct Hm as [Hle Hmixed]. destruct Hf as [_ Htemp].
    pose proof (route_channels_tail s1 i m1 mixed Hmixed 0 (mTemp s1)) as Hr.
    rewrite Htemp in Hr at 2.
    match goal with |- context [Process_tracks _ _ ?s2 ?i2 ?m2 ?t2] =>
      specialize (IH s2 i2 m2 t2);
      destruct (Process_tracks fuel maxToProcess s2 i2 m2 t2)
        as [[[s3 m3] t3]|e|] end; [| |done].
    + destruct IH as [Hle3 H3]. split; [lia|].
      cbn [mTemp set_mTemp] in H3.
      eapply Forall2_tail_kept_trans; [exact Hle3|exact H3|exact Hr].
    + cbn [mTemp set_mTemp] in IH.
      eapply Forall2_compose; [|exact IH|exact Hr].
      intros r1 r2 r3 -> [-> _]. done.
Qed.

Lemma Process_tail (fuel : nat) (s : Mixer) (maxToProcess : nat) :
  match Process fuel s maxToProcess with
  | Done (s', n) =>
      Forall2 (λ row' row,
          length row' = length row ∧
          ∀ k x, (n <= k)%nat → row' !! k = Some x → x = 0)
        (mTemp s') (mTemp s)
  | Raised e => Forall2 (λ row' row, length row' = length row) (mTemp e) (mTemp s)
  | Timeout => True
  end.
Proof.
  unfold Process.
  pose proof (Process_tracks_tail maxToProcess fuel (Clear s) 0 0 (mTime s))
    as H.
  assert (Hclear : Forall2 (λ z row : list sample, z = replicate (length row) 0)
                     (mTemp (Clear s)) (mTemp s)).
  { unfold Clear. cbn [mTemp set_mTemp]. apply Forall2_fmap_l.
    apply Forall2_same_length_lookup_2; [done|].
    intros i x y Hx Hy. simplify_eq. done. }
  destruct (Process_tracks fuel maxToProcess (Clear s) 0 0 (mTime s))
    as [[[s1 m1] t1]|e|]; cbn [mbind outcome_bind mTemp set_mTime]; [| |done].
  - destruct H as [_ H].
    eapply Forall2_compose; [|exact H|exact Hclear].
    intros r' z r [Hl Hk] ->. rewrite length_replicate in Hl.
    split; [done|]. intros k x Hn Hx. rewrite Hk in Hx by done.
    apply lookup_replicate in Hx. tauto.
  - eapply Forall2_compose; [|exact H|exact Hclear].
    intros r' z r Hl ->. by rewrite length_replicate in Hl.
Qed.

End AccumulatorFacts.

(** ** [Process], row by row *)

Section ProcessFacts.
Context `{MC : MixerConstants} `{RO : ResampleOps}.

Lemma advanced_refl (s : Mixer) (inp : Input) : advanced s inp inp.
Proof.
  exists 0%nat. rewrite Z.add_0_r, Z.sub_0_r.
  destruct (backwards s); by destruct inp.
Qed.

Lemma Forall2_same {A} (P : A → A → Prop) (l : list A) :
  (∀ x, x ∈ l → P x x) → Forall2 P l l.
Proof.
  intros H. apply Forall2_same_length_lookup_2; [done|].
  intros i x y Hx Hy. simplify_eq. apply H. by eapply list_elem_of_lookup_2.
Qed.

(** X15.  An engine whose inputs all go through [MixSameRate] needs no
    resampler: with fuel for the loop over the tracks alone, and whatever
    the resampler does, [Process] returns, or passes on a read error when
    the engine may throw.  Either way every row is as before but for its
    cursor, which has moved in the direction of play if at all: no queue
    and no resampler is touched, and the engine still mixes every input at
    its own rate. *)
Theorem Process_same_rate (s : Mixer) (fuel maxToProcess : nat) :
  same_rate s → (length (mInputs s) <= fuel)%nat →
  match Process fuel s maxToProcess with
  | Done (s', n) =>
      same_rate s' ∧ Forall2 (advanced s) (mInputs s) (mInputs s')
  | Raised e => mMayThrow s = true ∧ Forall2 (advanced s) (mInputs s) (mInputs e)
  | Timeout => False
  end.
Proof.
  intros [Hvar Hrate] Hfuel.
  set (P := λ inp0 inp : Input,
         GetRate (mInputTrack inp0) == mRate s ∧ advanced s inp0 inp).
  assert (Hstep : ∀ (fuel : nat) inp0 inp, P inp0 inp →
    match mix_input fuel s inp maxToProcess with
    | Done (inp', _, _) => P inp0 inp'
    | Raised e => P inp0 e ∧ mMayThrow s = true
    | Timeout => False
    end).
  { intros fuel' inp0 inp [Hr [k Hk]]. unfold mix_input. rewrite Hvar.
    assert (Htr : mInputTrack inp = mInputTrack inp0) by (by rewrite Hk).
    rewrite Htr, (Qeq_eq_bool _ _ Hr). cbn [orb negb].
    pose proof (MixSameRate_spec s inp maxToProcess) as H.
    destruct (MixSameRate s inp maxToProcess) as [[[inp' n] pFloat]|e|];
      [| |done].
    - destruct H as (_ & _ & ->). split; [done|].
      exists (k + n)%nat. rewrite Hk. unfold set_mSamplePos. cbn.
      f_equal. destruct (backwards s); lia.
    - destruct H as [Hm ->]. split; [|done]. split; [done|by exists k]. }
  assert (H0 : Forall2 P (mInputs s) (mInputs s)).
  { apply Forall2_same. intros inp Hin. split; [|apply advanced_refl].
    rewrite Forall_forall in Hrate. by apply Hrate. }
  pose proof (Process_rows P (mMayThrow s = true) False s maxToProcess Hstep
                (mInputs s) fuel H0) as H.
  pose proof (Process_static fuel s maxToProcess) as Hst.
  destruct (Process fuel s maxToProcess) as [[s' n]|e|].
  - split; [|eapply Forall2_impl; [exact H|by intros ?? [_ ?]]].
    rewrite Hst. split; [exact Hvar|]. cbn [mInputs mRate set_mTime set_mTemp
      set_mInputs].
    apply Forall_forall. intros inp' Hin'.
    apply list_elem_of_lookup_1 in Hin' as [i Hi].
    destruct (Forall2_lookup_r _ _ _ _ _ H Hi) as (inp0 & _ & Hr & k & ->).
    exact Hr.
  - destruct H as [H Hm]. split; [done|].
    eapply Forall2_impl; [exact H|by intros ?? [_ ?]].
  - destruct H as [[]|H]. lia.
Qed.

Lemma mix_input_track (s : Mixer) (fuel maxToProcess : nat) (inp : Input) :
  match mix_input fuel s inp maxToProcess with
  | Done (inp', _, _) => mInputTrack inp' = mInputTrack inp
  | Raised e => mInputTrack e = mInputTrack inp
  | Timeout => True
  end.
Proof.
  unfold mix_input. destruct (_ || _).
  - unfold MixVariableRates.
    match goal with |- context [MixVariableRates_loop _ _ _ ?e _ _ ?t0 _] =>
      generalize t0; generalize e end.
    generalize (@nil sample). generalize 0%nat.
    assert (G : ∀ fuel (inp1 : Input) out pFloat endPos t,
      mInputTrack inp1 = mInputTrack inp →
      match MixVariableRates_loop fuel s maxToProcess endPos inp1 out t pFloat
      with
      | Done (inp', _, _) => mInputTrack inp' = mInputTrack inp
      | Raised e => mInputTrack e = mInputTrack inp
      | Timeout => True
      end); [|intros; by apply G].
    clear fuel. induction fuel as [|fuel IH];
      intros inp1 out pFloat endPos t HP; cbn [MixVariableRates_loop].
    + by destruct (out <? maxToProcess)%nat.
    + destruct (out <? maxToProcess)%nat; [|done].
      assert (Hre :
        match (if (mQueueLen inp1 <? Z.of_nat sProcessLen)%Z
               then refill s endPos inp1 else Done inp1) with
        | Done inp' => mInputTrack inp' = mInputTrack inp
        | Raised e => mInputTrack e = mInputTrack inp
        | Timeout => True
        end).
      { destruct (_ <? _)%Z; [|done]. unfold refill.
        destruct (0 <? _)%nat; [|done].
        destruct (cache_GetFloats _ _ _ _); done. }
      destruct (if (mQueueLen inp1 <? Z.of_nat sProcessLen)%Z then _ else _)
        as [inp2|e|]; cbn [mbind outcome_bind]; [|done|done].
      destruct (resample_slice s maxToProcess inp2 out t pFloat)
        as [[[[inp3 out3] t3] pFloat3] last] eqn:Hsl.
      assert (Htr3 : mInputTrack inp3 = mInputTrack inp).
      { unfold resample_slice in Hsl. by injection Hsl as <- _ _ _ _. }
      destruct last; [done|]. by apply IH.
  - pose proof (MixSameRate_spec s inp maxToProcess) as H.
    destruct (MixSameRate s inp maxToProcess) as [[[inp' n] pFloat]|e|];
      [| |done].
    + by destruct H as (_ & _ & ->).
    + by destruct H as [_ ->].
Qed.

(** X16.  [Process] changes the rows of the inputs, the accumulators
    and the current time, and nothing else of the engine: rates, bounds of
    play, speed, envelope, routing map and flags are as before, and every
    row keeps its track.  When it throws, the current time is as before as
    well.  (It runs out of fuel only short of the bound of its loops.) *)
Theorem Process_keeps_configuration (s : Mixer) (fuel maxToProcess : nat) :
  match Process fuel s maxToProcess with
  | Done (s', _) =>
      s' = set_mTime (set_mTemp (set_mInputs s (mInputs s')) (mTemp s'))
             (mTime s') ∧
      Forall2 (λ inp inp', mInputTrack inp' = mInputTrack inp)
        (mInputs s) (mInputs s')
  | Raised e =>
      e = set_mTemp (set_mInputs s (mInputs e)) (mTemp e) ∧
      Forall2 (λ inp inp', mInputTrack inp' = mInputTrack inp)
        (mInputs s) (mInputs e)
  | Timeout =>
      ∀ RC : ResampleContract RO, (fuel < fuel_bound s maxToProcess)%nat
  end.
Proof.
  set (P := λ inp inp' : Input, mInputTrack inp' = mInputTrack inp).
  assert (Hstep : ∀ (fuel : nat) inp0 inp, P inp0 inp →
    match mix_input fuel s inp maxToProcess with
    | Done (inp', _, _) => P inp0 inp'
    | Raised e => P inp0 e ∧ True
    | Timeout => True
    end).
  { intros fuel' inp0 inp HP. unfold P in *.
    pose proof (mix_input_track s fuel' maxToProcess inp) as H.
    destruct (mix_input fuel' s inp maxToProcess) as [[[inp' n] pFloat]|e|];
      [congruence|split; [congruence|done]|done]. }
  assert (H0 : Forall2 P (mInputs s) (mInputs s)) by (by apply Forall2_same).
  pose proof (Process_rows P True True s maxToProcess Hstep
                (mInputs s) fuel H0) as H.
  pose proof (Process_static fuel s maxToProcess) as Hst.
  destruct (Process fuel s maxToProcess) as [[s' n]|e|] eqn:HP.
  - done.
  - split; [exact Hst|tauto].
  - intros RC.
    destruct (decide (fuel < fuel_bound s maxToProcess)%nat) as [|Hge];
      [done|].
    pose proof (Process_spec s maxToProcess fuel ltac:(lia)) as Hs.
    by rewrite HP in Hs.
Qed.

(** The first inner loop of [Process] changes the rows [i + j], [j] in
    [js], and no other. *)
Lemma mix_channels_other_rows (fuel maxToProcess i k : nat) (js : list nat) :
  (∀ j, j ∈ js → k ≠ (i + j)%nat) →
  ∀ (s : Mixer) (maxOut : nat) (newTime : double),
  match mix_channels fuel maxToProcess i js s maxOut newTime with
  | Done (s', _, _, _) => mInputs s' !! k = mInputs s !! k
  | Raised e => mInputs e !! k = mInputs s !! k
  | Timeout => True
  end.
Proof.
  induction js as [|j js IH]; intros Hk s maxOut newTime; cbn [mix_channels];
    [done|].
  destruct (mInputs s !! (i + j)%nat) as [inp|]; [|done].
  assert (Hj : (i + j)%nat ≠ k).
  { intros <-. eapply Hk; [|done]. by left. }
  destruct (mix_input fuel s inp maxToProcess) as [[[inp' result] pFloat]|e|];
    cbn [map_raise mbind outcome_bind]; [| |done].
  - match goal with |- context [mix_channels _ _ _ _ ?s1 ?m ?t] =>
      specialize (IH ltac:(intros j' Hj'; apply Hk; by right) s1 m t);
      destruct (mix_channels fuel maxToProcess i js s1 m t)
        as [[[[s2 m2] t2] rest]|e|] end; cbn [mbind outcome_bind]; [| |done].
    + rewrite IH. cbn [mInputs set_mInputs]. by apply list_lookup_insert_ne.
    + rewrite IH. cbn [mInputs set_mInputs]. by apply list_lookup_insert_ne.
  - cbn [mInputs set_mInputs]. by apply list_lookup_insert_ne.
Qed.

(** The loop over the leaders, from row [i] on, changes no row before
    [i]. *)
Lemma Process_tracks_lower_rows (maxToProcess k : nat) (fuel : nat) :
  ∀ (s : Mixer) (i maxOut : nat) (newTime : double),
  (k < i)%nat →
  match Process_tracks fuel maxToProcess s i maxOut newTime with
  | Done (s', _, _) => mInputs s' !! k = mInputs s !! k
  | Raised e => mInputs e !! k = mInputs s !! k
  | Timeout => True
  end.
Proof.
  induction fuel as [|fuel IH]; intros s i maxOut newTime Hk;
    cbn [Process_tracks].
  - destruct (mInputs s !! i); [|done]. by destruct (_ <? _)%nat.
  - destruct (mInputs s !! i) as [leader|]; [|done].
    destruct (_ <? _)%nat; [done|].
    match goal with |- context [mix_channels ?f ?m ?i ?js ?s ?mo ?nt] =>
      pose proof (mix_channels_other_rows f m i k js
                    ltac:(intros; lia) s mo nt) as Hm;
      destruct (mix_channels f m i js s mo nt) as [[[[s1 m1] t1] mixed]|e|] end;
      cbn [mbind outcome_bind]; [|done|done].
    match goal with |- context [Process_tracks _ _ ?s2 ?i2 ?m2 ?t2] =>
      specialize (IH s2 i2 m2 t2 ltac:(lia));
      destruct (Process_tracks fuel maxToProcess s2 i2 m2 t2)
        as [[[s3 m3] t3]|e|] end; [| |done].
    + by rewrite IH.
    + by rewrite IH.
Qed.

Lemma Process_skips_rows (s : Mixer) (leader : Input)
    (fuel maxToProcess k : nat) :
  mInputs s !! 0%nat = Some leader →
  (2 <= k < Pos.to_nat (ChannelsSize (mInputTrack leader)))%nat →
  match Process fuel s maxToProcess with
  | Done (s', _) => mInputs s' !! k = mInputs s !! k
  | Raised e => mInputs e !! k = mInputs s !! k
  | Timeout => True
  end.
Proof.
  intros Hl Hk. unfold Process.
  assert (H : match Process_tracks fuel maxToProcess (Clear s) 0 0 (mTime s) with
              | Done (s', _, _) => mInputs s' !! k = mInputs s !! k
              | Raised e => mInputs e !! k = mInputs s !! k
              | Timeout => True
              end).
  { destruct fuel as [|fuel]; cbn [Process_tracks];
      change (mInputs (Clear s)) with (mInputs s); rewrite Hl.
    { by destruct (_ <? _)%nat. }
    destruct (_ <? _)%nat; [done|].
    match goal with |- context [mix_channels ?f ?m ?i ?js ?s ?mo ?nt] =>
      pose proof (mix_channels_other_rows f m i k js
                    ltac:(intros j Hj; apply elem_of_seq in Hj; lia) s mo nt)
        as Hm;
      destruct (mix_channels f m i js s mo nt) as [[[[s1 m1] t1] mixed]|e|] end;
      cbn [mbind outcome_bind]; [|done|done].
    match goal with |- context [Process_tracks _ _ ?s2 ?i2 ?m2 ?t2] =>
      pose proof (Process_tracks_lower_rows maxToProcess k fuel s2 i2 m2 t2
                    ltac:(lia)) as Hp;
      destruct (Process_tracks fuel maxToProcess s2 i2 m2 t2)
        as [[[s3 m3] t3]|e|] end; [| |done].
    - by rewrite Hp.
    - by rewrite Hp. }
  destruct (Process_tracks fuel maxToProcess (Clear s) 0 0 (mTime s))
    as [[[s1 m1] t1]|e|]; cbn [mbind outcome_bind]; done.
Qed.

(** X18.  [findChannelFlags] gives one flag for each output channel.
    With a routing map the flags are the row of the map and the channel
    designation of the track is ignored; without one a mono track goes to
    every channel, a left track to channel 0 alone, and a right track to
    channel 1 alone, or to channel 0 when there is a single output
    channel.  So without a map every track reaches some output channel. *)
Theorem findChannelFlags_routes (numChannels : nat)
    (map : option (list bool)) (channel : ChannelType) :
  let flags := findChannelFlags numChannels map channel in
  length flags = numChannels ∧
  (∀ c, (c < numChannels)%nat →
     flags !! c = Some
       match map with
       | Some m => match m !! c with Some b => b | None => false end
       | None =>
           match channel with
           | MonoChannel => true
           | LeftChannel => bool_decide (c = 0%nat)
           | RightChannel =>
               bool_decide (c = if (2 <=? numChannels)%nat then 1%nat
                                else 0%nat)
           end
       end) ∧
  (map = None → (0 < numChannels)%nat → ∃ c, flags !! c = Some true).
Proof.
  intros flags.
  assert (Hins : ∀ (n i c : nat), (c < n)%nat →
            <[i := true]> (replicate n false) !! c = Some (bool_decide (c = i))).
  { intros n i c Hc. destruct (decide (c = i)) as [->|Hne].
    - rewrite list_lookup_insert_eq by (by rewrite length_replicate).
      by rewrite bool_decide_eq_true_2.
    - rewrite list_lookup_insert_ne by done.
      rewrite lookup_replicate_2 by done. by rewrite bool_decide_eq_false_2. }
  assert (Hcells : ∀ c, (c < numChannels)%nat →
     flags !! c = Some
       match map with
       | Some m => match m !! c with Some b => b | None => false end
       | None =>
           match channel with
           | MonoChannel => true
           | LeftChannel => bool_decide (c = 0%nat)
           | RightChannel =>
               bool_decide (c = if (2 <=? numChannels)%nat then 1%nat
                                else 0%nat)
           end
       end).
  { intros c Hc. subst flags. unfold findChannelFlags.
    destruct map as [m|].
    - destruct (m !! c) as [b|] eqn:Hm.
      + pose proof (lookup_lt_Some _ _ _ Hm).
        rewrite lookup_app_l by (rewrite length_take; lia).
        by rewrite lookup_take_lt.
      + apply lookup_ge_None in Hm.
        rewrite lookup_app_r by (rewrite length_take; lia).
        rewrite length_take, lookup_drop.
        apply lookup_replicate_2. lia.
    - destruct channel.
      + by apply Hins.
      + destruct (2 <=? numChannels)%nat; by apply Hins.
      + by apply lookup_replicate_2. }
  split; [|split; [exact Hcells|]].
  - subst flags. unfold findChannelFlags. destruct map as [m|].
    + rewrite length_app, length_take, length_drop, length_replicate. lia.
    + destruct channel; [|destruct (2 <=? numChannels)%nat|];
        by rewrite ?length_insert, length_replicate.
  - intros -> Hn.
    exists (match channel with
            | RightChannel => if (2 <=? numChannels)%nat then 1%nat else 0%nat
            | _ => 0%nat
            end).
    rewrite Hcells.
    + destruct channel; [done| |done]. by rewrite bool_decide_eq_true_2.
    + destruct channel; try done.
      destruct (Nat.leb_spec 2 numChannels); lia.
Qed.

(** X19.  [Process] on an engine with one input of one channel: it
    returns the count its mixing routine returned and leaves the row the
    routine left; the current time follows the cursor of the input, within
    the old time and [mT1]; and every sample of every accumulator is the
    sample the routine wrote times the gain of the channel, where the
    channel is flagged, and 0 elsewhere. *)
Theorem Process_single_input (s : Mixer) (inp inp' : Input)
    (fuel maxToProcess n : nat) (pFloat : list sample) :
  mInputs s = [inp] →
  ChannelsSize (mInputTrack inp) = 1%positive →
  mix_input (S fuel) s inp maxToProcess = Done (inp', n, pFloat) →
  let track := mInputTrack inp in
  let gains c := if mApplyTrackGains s then GetChannelGain track c else 1 in
  let flags :=
    findChannelFlags (mNumChannels s)
      (match mMixerSpec s with
       | Some spec => Some (Downmix.mMap spec !!! 0%nat)
       | None => None
       end)
      (GetChannel track) in
  let newT := inject_Z (mSamplePos inp') / GetRate track in
  ∃ s',
    Process (S fuel) s maxToProcess = Done (s', n) ∧
    mInputs s' = [inp'] ∧
    mTime s' =
      (if backwards s
       then std_clamp (std_min (mTime s) newT) (mT1 s) (mTime s)
       else std_clamp (std_max (mTime s) newT) (mTime s) (mT1 s)) ∧
    ∀ c row k x,
      mTemp s' !! c = Some row → row !! k = Some x →
      x == if (c <? mNumChannels s)%nat && (flags !!! c)
           then match take n pFloat !! k with
                | Some v => v * gains c
                | None => 0
                end
           else 0.
Proof.
  intros Hin Hsize Hmix track gains flags newT.
  pose proof (mix_input_track s (S fuel) maxToProcess inp) as Htr.
  rewrite Hmix in Htr.
  set (s1 := set_mInputs (Clear s) [inp']).
  set (temp1 := MixBuffers (mNumChannels s) flags gains pFloat
                  (mTemp (Clear s)) n).
  set (nt := if backwards s then std_min (mTime s) newT
             else std_max (mTime s) newT).
  assert (Hpt : Process_tracks (S fuel) maxToProcess (Clear s) 0 0 (mTime s) =
                Done (set_mTemp s1 temp1, n, nt)).
  { cbn [Process_tracks]. unfold mNumInputTracks.
    change (mInputs (Clear s)) with (mInputs s). rewrite Hin.
    change ([inp] !! 0%nat) with (Some inp). cbv iota beta.
    rewrite Hsize.
    change (Pos.to_nat 1) with 1%nat.
    change (length [inp] <? 0 + 1)%nat with false. cbv iota.
    change (seq 0 (Nat.min 1 2)) with [0%nat].
    cbn [mix_channels].
    change (mInputs (Clear s)) with (mInputs s). rewrite Hin.
    change ([inp] !! (0 + 0)%nat) with (Some inp). cbv iota beta.
    rewrite (mix_input_frame s (Clear s)) by apply frame_Clear.
    rewrite Hmix.
    cbn [map_raise mbind outcome_bind].
    change (<[(0 + 0)%nat := inp']> [inp]) with [inp'].
    fold s1. cbn [route_channels].
    change (mInputs s1 !! (0 + 0)%nat) with (Some inp').
    cbv iota beta. rewrite Htr. fold track.
    change (mApplyTrackGains s1) with (mApplyTrackGains s).
    change (mMixerSpec s1) with (mMixerSpec s).
    change (mNumChannels s1) with (mNumChannels s).
    change (mTemp s1) with (mTemp (Clear s)).
    change (backwards s1) with (backwards s).
    change ((0 + 0)%nat) with 0%nat.
    fold gains flags temp1. change (Nat.max 0 n) with n.
    destruct fuel; cbn [Process_tracks];
      change (mInputs (set_mTemp s1 temp1) !! (0 + 1)%nat) with (@None Input);
      reflexivity. }
  unfold Process. rewrite Hpt. cbn [mbind outcome_bind].
  eexists. split; [reflexivity|].
  split; [reflexivity|]. split.
  { cbn [mTime set_mTime].
    change (backwards (set_mTemp s1 temp1)) with (backwards s).
    subst nt. by destruct (backwards s). }
  cbn [mTemp set_mTime set_mTemp].
  intros c row k x Hrow Hx. subst temp1.
  unfold MixBuffers, Clear in Hrow. cbn [mTemp set_mTemp] in Hrow.
  rewrite list_lookup_imap, list_lookup_fmap in Hrow.
  destruct (mTemp s !! c) as [row0|]; [|done]. cbn [fmap option_fmap option_map] in Hrow.
  injection Hrow as <-.
  destruct ((c <? mNumChannels s)%nat && flags !!! c).
  - rewrite add_block_lookup in Hx.
    destruct (replicate (length row0) 0 !! k) as [z|] eqn:Hz; [|done].
    apply lookup_replicate in Hz as [-> _].
    destruct (take n pFloat !! k); injection Hx as <-; [ring|reflexivity].
  - apply lookup_replicate in Hx as [-> _]. reflexivity.
Qed.

End ProcessFacts.

(** ** [Process], with the resampler's contract *)

Section TotalFacts.
Context `{MC : MixerConstants} `{RO : ResampleOps} `{RC : !ResampleContract RO}.

(** X20.  After [Process] every accumulator has the length it had, and
    beyond the count returned it holds silence: every sample from index
    [n] on is 0.  With a resampler that keeps its contract and fuel for its
    loops the call returns, or passes on a read error when the engine may
    throw, and then too the accumulators keep their lengths. *)
Theorem Process_accumulators (s : Mixer) (maxToProcess fuel : nat) :
  (fuel_bound s maxToProcess <= fuel)%nat →
  match Process fuel s maxToProcess with
  | Done (s', n) =>
      Forall2 (λ row' row,
          length row' = length row ∧
          ∀ k x, (n <= k)%nat → row' !! k = Some x → x = 0)
        (mTemp s') (mTemp s)
  | Raised e =>
      mMayThrow s = true ∧
      Forall2 (λ row' row, length row' = length row) (mTemp e) (mTemp s)
  | Timeout => False
  end.
Proof.
  intros Hfuel.
  pose proof (Process_spec s maxToProcess fuel Hfuel) as Hs.
  pose proof (Process_tail fuel s maxToProcess) as Ht.
  destruct (Process fuel s maxToProcess) as [[s' n]|e|]; done.
Qed.

(** X21.  Of a group of more than two channels only the first two are
    mixed: [Process] leaves every row from the third of the first group on
    as it was, cursor and queue, whether it returns or throws. *)
Theorem Process_skips_third_channel (s : Mixer) (leader : Input)
    (fuel maxToProcess k : nat) :
  mInputs s !! 0%nat = Some leader →
  (2 <= k < Pos.to_nat (ChannelsSize (mInputTrack leader)))%nat →
  (fuel_bound s maxToProcess <= fuel)%nat →
  match Process fuel s maxToProcess with
  | Done (s', _) => mInputs s' !! k = mInputs s !! k
  | Raised e => mMayThrow s = true ∧ mInputs e !! k = mInputs s !! k
  | Timeout => False
  end.
Proof.
  intros Hl Hk Hfuel.
  pose proof (Process_spec s maxToProcess fuel Hfuel) as Hs.
  pose proof (Process_skips_rows s leader fuel maxToProcess k Hl Hk) as Ht.
  destruct (Process fuel s maxToProcess) as [[s' n]|e|]; done.
Qed.

End TotalFacts.

(** ** The choice of the mixing routine *)

Section DispatchFacts.
Context `{MC : MixerConstants} `{RO : ResampleOps}.

Lemma new_mbVariableRates (tracks : list SampleTrack) (rate : double)
    (options : Warp.t) :
  tracks ≠ [] →
  ResampleParameters.mbVariableRates
    (ResampleParameters.new tracks rate options) = ResampleParameters.varies options.
Proof.
  intros Hne. destruct tracks as [|track tracks]; [done|].
  destruct (new_lookup rate options (track :: tracks)) as (_ & _ & H).
  destruct (H 0%nat track eq_refl) as (a & b & vr & _ & _ & -> & Hstep).
  unfold ResampleParameters.step, ResampleParameters.varies in *.
  destruct (Warp.envelope options); [by injection Hstep|].
  destruct (_ && _); by injection Hstep.
Qed.

(** X22.  Which routine mixes an input of an engine built over at
    least one track: [MixVariableRates] when the warp options carry an
    envelope or two positive speeds, or when the rate of the track is not
    the output rate, and [MixSameRate] otherwise. *)
Theorem Mixer_new_mix_input (inputTracks : list SampleTrack)
    (mayThrow : bool) (warpOptions : Warp.t) (startTime stopTime : double)
    (numOutChannels outBufferSize : nat) (outInterleaved : bool)
    (outRate : double) (highQuality : bool) (mixerSpec : option Downmix.t)
    (applyTrackGains : bool) (inp : Input) (fuel maxToProcess : nat) :
  inputTracks ≠ [] →
  let s :=
    Mixer_new inputTracks mayThrow warpOptions startTime stopTime
      numOutChannels outBufferSize outInterleaved outRate highQuality
      mixerSpec applyTrackGains in
  mix_input fuel s inp maxToProcess =
    if ResampleParameters.varies warpOptions
       || negb (Qeq_bool (GetRate (mInputTrack inp)) outRate)
    then MixVariableRates fuel s inp maxToProcess
    else MixSameRate s inp maxToProcess.
Proof.
  intros Hne s. unfold mix_input.
  change (mResampleParameters s)
    with (ResampleParameters.new inputTracks outRate warpOptions).
  change (mRate s) with outRate.
  by rewrite new_mbVariableRates.
Qed.

End DispatchFacts.

(** ** The speeds of a warp *)

(** X23.  For speeds that meet the assertions of the constructor,
    [0 <= min <= max], [Warp(min, max, initial)] keeps no envelope and
    holds the numbers it was given: [minSpeed] is [min], [maxSpeed] is
    [max] and [initialSpeed] is [initial].  The resampling parameters
    built from it over at least one track resample at a varying rate
    exactly when [min] is positive. *)
Theorem Warp_of_speeds_spec (min max initial : double)
    (tracks : list SampleTrack) (rate : double) :
  0 <= min → 0 <= max → min <= max →
  tracks ≠ [] →
  let w := Warp.of_speeds min max initial in
  Warp.envelope w = None ∧ Warp.initialSpeed w = initial ∧
  Warp.minSpeed w == min ∧ Warp.maxSpeed w == max ∧
  (ResampleParameters.mbVariableRates (ResampleParameters.new tracks rate w)
     = true ↔ 0 < min).
Proof.
  intros Hmin Hmax Hle Hne w. rewrite (new_mbVariableRates tracks rate w Hne).
  subst w. unfold Warp.of_speeds, ResampleParameters.varies.
  cbn [Warp.envelope Warp.initialSpeed Warp.minSpeed Warp.maxSpeed].
  split; [done|]. split; [done|].
  rewrite andb_true_iff, !Qltb_lt.
  unfold std_max, std_min. qcases; split_and!; try lra;
    split; intros; try split; lra.
Qed.

(** ** The end of play of [MixVariableRates] *)

Section FlushFacts.
Context `{MC : MixerConstants} `{RO : ResampleOps} `{RC : !ResampleContract RO}.

(** X24.  At the end of play [MixVariableRates] flushes the resampler:
    with an empty queue within its allocation and nothing left to read,
    a call for at least one sample passes the resampler an empty slice
    with the last-flag set, once, and returns what the resampler writes;
    the cursor stays and the queue is empty at 0.  Without an envelope the
    factor passed is [mRate / mSpeed / trackRate]. *)
Theorem MixVariableRates_at_end (s : Mixer) (inp : Input)
    (maxOut fuel : nat) :
  queue_wf inp → mQueueLen inp = 0%Z → (remaining s inp <= 0)%Z →
  (0 < maxOut)%nat →
  ∃ factor,
    (mEnvelope s = None →
     factor = mRate s / mSpeed s / GetRate (mInputTrack inp)) ∧
    let r := Resample_Process (mResample inp) factor (mSampleQueue inp) 0 true
               maxOut in
    MixVariableRates (S fuel) s inp maxOut =
      Done (mkInput (mInputTrack inp) (mSamplePos inp) (mSampleQueue inp)
              0 0 r.1,
            length r.2.2, r.2.2).
Proof.
  intros [(Hs0 & Hl0 & Hsl) Hlen] Hq Hrem Hmax.
  unfold MixVariableRates. cbn [MixVariableRates_loop].
  assert (Hlt : (0 <? maxOut)%nat = true) by (by apply Nat.ltb_lt).
  rewrite Hlt, Hq.
  pose proof sProcessLen_pos as Hp.
  assert (Hlast : (0 <? Z.of_nat sProcessLen)%Z = true)
    by (apply Z.ltb_lt; lia).
  rewrite Hlast.
  unfold remaining in Hrem.
  assert (Hrefill :
    refill s (TimeToLongSamples (mInputTrack inp) (tEnd s (mInputTrack inp)))
      inp =
    Done (mkInput (mInputTrack inp) (mSamplePos inp) (mSampleQueue inp) 0 0
            (mResample inp))).
  { unfold refill. rewrite Hq.
    assert (Hget : limitSampleBufferSize
              (Z.to_nat (size_t_wrap (Z.of_nat sQueueMaxLen - 0)))
              (if backwards s
               then mSamplePos inp -
                    TimeToLongSamples (mInputTrack inp)
                      (tEnd s (mInputTrack inp))
               else TimeToLongSamples (mInputTrack inp)
                      (tEnd s (mInputTrack inp)) - mSamplePos inp)%Z = 0%nat).
    { unfold limitSampleBufferSize. destruct (backwards s); lia. }
    rewrite Hget. cbn [Nat.ltb Nat.leb].
    change (Z.to_nat 0) with 0%nat. rewrite take_0.
    unfold write. rewrite take_0. cbn [app length Nat.add]. by rewrite drop_0. }
  rewrite Hrefill. cbn [mbind outcome_bind].
  unfold resample_slice.
  cbn [mInputTrack mSamplePos mSampleQueue mQueueStart mQueueLen mResample].
  rewrite Hlast. change (size_t_wrap 0) with 0%Z.
  change (Z.to_nat 0) with 0%nat. rewrite drop_0, Nat.sub_0_r.
  match goal with |- context [Resample_Process ?r ?f ?b 0 true ?m] =>
    exists f; pose proof (Resample_used_le r f b 0 true m) as Hused;
    destruct (Resample_Process r f b 0 true m) as [r' [used produced]] end.
  split; [by intros ->|].
  cbn [fst snd] in *. assert (used = 0%nat) as -> by lia.
  cbn [app Nat.add]. done.
Qed.

End FlushFacts.

(** ** The statements at work on the concrete engines *)

#[global] Instance copy_resampler_contract : ResampleContract copy_resampler.
Proof.
  split; simpl.
  - intros. lia.
  - intros. rewrite length_take. lia.
  - intros. lia.
Qed.

Lemma Process_returns_at_most_witness :
  (4 <= @BufferSize copy_resampler (ramp_mixer 0 (10 / 44100)))%nat ∧
  (@fuel_bound copy_resampler (ramp_mixer 0 (10 / 44100)) 4 <= 16)%nat ∧
  match @Process mix_h_constants copy_resampler 16
          (ramp_mixer 0 (10 / 44100)) 4 with
  | Done (_, n) => (n <= 4)%nat
  | Raised _ => mMayThrow (ramp_mixer 0 (10 / 44100)) = true
  | Timeout => False
  end ∧
  (4 + @pending copy_resampler (ramp_mixer 0 (10 / 44100)) stale_input
   < 15)%nat ∧
  match @MixVariableRates small_constants copy_resampler 15
          (ramp_mixer 0 (10 / 44100)) stale_input 4 with
  | Done (_, n, pFloat) => (n <= 4)%nat ∧ length pFloat = n
  | Raised _ => mMayThrow (ramp_mixer 0 (10 / 44100)) = true
  | Timeout => False
  end.
Proof.
  assert (H1 : (4 <= @BufferSize copy_resampler
                       (ramp_mixer 0 (10 / 44100)))%nat)
    by (vm_compute; lia).
  assert (H2 : (@fuel_bound copy_resampler
                  (ramp_mixer 0 (10 / 44100)) 4 <= 16)%nat)
    by (vm_compute; lia).
  assert (H3 : (4 + @pending copy_resampler (ramp_mixer 0 (10 / 44100))
                      stale_input < 15)%nat)
    by (vm_compute; lia).
  split; [exact H1|]. split; [exact H2|]. split.
  - exact (proj1 (@Process_returns_at_most mix_h_constants copy_resampler
                    copy_resampler_contract
                    (ramp_mixer 0 (10 / 44100)) 4 16 H1 H2)).
  - split; [exact H3|].
    exact (proj2 (proj2 (@Process_returns_at_most small_constants
                           copy_resampler copy_resampler_contract
                           (ramp_mixer 0 (10 / 44100)) 4 16 H1 H2))
             stale_input 4%nat 15%nat H3).
Defined.

Lemma copy_resampler_silence : @silence_kept copy_resampler (λ _, True).
Proof.
  intros r factor inBuffer inLen last outMax _ Hz. split; [done|].
  cbn [Resample_Process copy_resampler fst snd].
  replace (Nat.min (Nat.min inLen outMax) (length inBuffer))
    with (Nat.min (Nat.min (Nat.min inLen outMax) (length inBuffer)) inLen)
    by lia.
  rewrite <- take_take. by apply Forall_take.
Qed.

Lemma null_read_is_silence_witness :
  (@MixSameRate copy_resampler silent_mixer stale_input 4 =
     Done (set_mSamplePos stale_input 4, 4%nat,
           apply_envelope (GetEnvelopeValues silent_track 4 0)
             (replicate 4 0)) ∧
   Forall (λ x, x == 0)
     (apply_envelope (GetEnvelopeValues silent_track 4 0) (replicate 4 0)) ∧
   ∀ dests,
     Forall2 (Forall2 Qeq)
       (MixBuffers 1 [true] (λ _, 1)
          (apply_envelope (GetEnvelopeValues silent_track 4 0)
             (replicate 4 0)) dests 4) dests) ∧
  (@queue_wf small_constants copy_resampler stale_input ∧
   ∃ inp',
     @refill small_constants copy_resampler silent_mixer 10 stale_input =
       Done inp' ∧
     mSamplePos inp' = 8%Z ∧ mQueueLen inp' = 8%Z ∧
     length (take 8 (drop 0 (mSampleQueue inp'))) = 8%nat ∧
     Forall (λ x, x == 0) (take 8 (drop 0 (mSampleQueue inp')))) ∧
  (@unreadable copy_resampler silent_mixer silent_track ∧
   @silent_row small_constants copy_resampler (λ _, True) stale_input ∧
   (4 + @pending copy_resampler silent_mixer stale_input < 15)%nat ∧
   ∃ inp' pFloat,
     @MixVariableRates small_constants copy_resampler 15 silent_mixer
       stale_input 4 = Done (inp', 4%nat, pFloat) ∧
     length pFloat = 4%nat ∧ Forall (λ x, x == 0) pFloat ∧
     @silent_row small_constants copy_resampler (λ _, True) inp').
Proof.
  assert (Hmix : @MixSameRate copy_resampler silent_mixer stale_input 4 =
            Done (set_mSamplePos stale_input 4, 4%nat,
                  apply_envelope (GetEnvelopeValues silent_track 4 0)
                    (replicate 4 0))) by reflexivity.
  assert (Hwf : @queue_wf small_constants copy_resampler stale_input).
  { split; [simpl; lia|reflexivity]. }
  assert (Hun : @unreadable copy_resampler silent_mixer silent_track).
  { intros start len. reflexivity. }
  assert (Hrow : @silent_row small_constants copy_resampler (λ _, True)
                   stale_input).
  { split; [exact Hwf|]. split; [exact I|]. constructor. }
  assert (Hfuel : (4 + @pending copy_resampler silent_mixer stale_input
                   < 15)%nat) by (vm_compute; lia).
  destruct (@null_read_is_silence small_constants copy_resampler
              silent_mixer stale_input) as (Hsame & Hrefill & Hvar).
  split; [|split].
  - split; [exact Hmix|].
    destruct (Hsame 4%nat _ _ _ Hmix eq_refl) as (_ & _ & Hz & Hbuf).
    split; [exact Hz|]. intros dests. apply Hbuf.
  - split; [exact Hwf|].
    destruct (Hrefill 10%Z Hwf ltac:(vm_compute; lia) eq_refl)
      as (inp' & Hre & Hpos & _ & Hql & _ & Hz).
    exists inp'. exact (conj Hre (conj Hpos (conj Hql Hz))).
  - split; [exact Hun|]. split; [exact Hrow|]. split; [exact Hfuel|].
    destruct (Hvar (λ _, True) 15%nat 4%nat copy_resampler_contract
                copy_resampler_silence Hun Hrow Hfuel)
      as (inp' & n & pFloat & Hvr & Hn & Hlen & Hz & _ & _ & Hrow').
    assert (Hn4 : n = 4%nat).
    { vm_compute in Hvr. by injection Hvr as _ <- _. }
    rewrite Hn4 in Hvr, Hlen. exists inp', pFloat.
    exact (conj Hvr (conj Hlen (conj Hz Hrow'))).
Defined.

Lemma MixSameRate_at_end_witness :
  @play_exhausted copy_resampler finished_mixer ∧
  (length (mInputs finished_mixer) <= 1)%nat ∧
  ∃ s', @Process small_constants copy_resampler 1 finished_mixer 4 =
          Done (s', 0%nat) ∧
        mInputs s' = mInputs finished_mixer ∧ play_exhausted s'.
Proof.
  assert (Hex : @play_exhausted copy_resampler finished_mixer).
  { split; [split; [reflexivity|]|].
    - repeat constructor.
    - repeat constructor. vm_compute. discriminate. }
  assert (Hlen : (length (mInputs finished_mixer) <= 1)%nat)
    by (vm_compute; lia).
  split; [exact Hex|]. split; [exact Hlen|].
  exact (proj2 (@MixSameRate_at_end small_constants copy_resampler
                  finished_mixer) 1%nat 4%nat Hex Hlen).
Defined.

Lemma Process_zero_witness :
  (length (mInputs onbeat_mixer) <= 1)%nat ∧
  @in_play_interval copy_resampler onbeat_mixer ∧
  @cursors_behind copy_resampler onbeat_mixer ∧
  match @Process small_constants copy_resampler 1 onbeat_mixer 0 with
  | Done (s', n) =>
      n = 0%nat ∧ mInputs s' = mInputs onbeat_mixer ∧
      mTime s' = mTime onbeat_mixer
  | Raised e => False
  | Timeout => False
  end.
Proof.
  assert (Hlen : (length (mInputs onbeat_mixer) <= 1)%nat)
    by (vm_compute; lia).
  assert (Hin : @in_play_interval copy_resampler onbeat_mixer).
  { split; vm_compute; discriminate. }
  assert (Hbehind : @cursors_behind copy_resampler onbeat_mixer).
  { repeat constructor. vm_compute. discriminate. }
  split; [exact Hlen|]. split; [exact Hin|]. split; [exact Hbehind|].
  pose proof (@Process_zero small_constants copy_resampler onbeat_mixer 1
                Hlen) as H.
  destruct (@Process small_constants copy_resampler 1 onbeat_mixer 0)
    as [[s' n]|e|].
  - destruct H as (Hn & Hs & Ht).
    exact (conj Hn (conj Hs (proj2 (Ht Hin) Hbehind))).
  - destruct H as [H _]. discriminate H.
  - exact H.
Defined.

(** C5 as worded fails on an engine just built with a start time between
    two samples: [Process(0)] returns 0 and moves the current time from
    1/50000 to the time 1/44100 of the cursor. *)
Lemma Process_zero_moves_time :
  match @Process small_constants copy_resampler 1 offbeat_mixer 0 with
  | Done (s', n) =>
      n = 0%nat ∧ mTime offbeat_mixer == 1 / 50000 ∧
      mTime s' == 1 / 44100 ∧ ¬ nothing_advanced offbeat_mixer s'
  | Raised e => False
  | Timeout => False
  end.
Proof.
  vm_compute. split; [reflexivity|]. split; [reflexivity|].
  split; [reflexivity|]. intros [_ H]. discriminate H.
Qed.

Lemma SetSpeedForKeyboardScrubbing_spec_witness :
  @direction_changed copy_resampler (ramp_mixer (10 / 44100) 0) 1 ∧
  mT0 (SetSpeedForKeyboardScrubbing (ramp_mixer (10 / 44100) 0) 1 0) = 0 ∧
  mT1 (SetSpeedForKeyboardScrubbing (ramp_mixer (10 / 44100) 0) 1 0)
    = DBL_MAX.
Proof.
  assert (Hdir : @direction_changed copy_resampler
                   (ramp_mixer (10 / 44100) 0) 1).
  { left. split; reflexivity. }
  split; [exact Hdir|].
  destruct (@SetSpeedForKeyboardScrubbing_spec copy_resampler
              (ramp_mixer (10 / 44100) 0) 1 0) as [_ H].
  destruct (H Hdir) as (Hb & _).
  split; [exact (f_equal fst Hb)|exact (f_equal snd Hb)].
Defined.


(** The constructor in binary64 at the rates and speeds of the statement
    above: the factors are 1/4 and 1, and the invariant holds as the
    specification words it. *)
Lemma ResampleParameters64_at_work :
  let p := ResampleParameters64.new [Binary64.of_Z 44100 0]
             (Binary64.of_Z 22050 0)
             (Warp64.of_speeds (Binary64.of_Z 1 (-1)) (Binary64.of_Z 2 0)
                (Binary64.of_Z 1 0)) in
  p = ResampleParameters64.mk true [Binary64.of_Z 1 (-2)] [Binary64.of_Z 1 0] ∧
  ResampleParameters64.invariant_as_claimed p 0.
Proof.
  split; [reflexivity|].
  exists (Binary64.of_Z 1 (-2)), (Binary64.of_Z 1 0).
  split_and!; reflexivity.
Qed.


Lemma Mixer_new_mixerSpec_witness :
  mMixerSpec
    (@Mixer_new small_constants copy_resampler [ramp_track] false
       (Warp.of_envelope None) 0 (10 / 44100) 1 4 false 44100 false
       (Some Downmix.grown) false) = Some Downmix.grown ∧
  mMixerSpec
    (@Mixer_new small_constants copy_resampler [ramp_track] false
       (Warp.of_envelope None) 0 (10 / 44100) 2 4 false 44100 false
       (Some Downmix.grown) false) = None.
Proof.
  split.
  - apply (proj1 (proj2 (@Mixer_new_mixerSpec small_constants copy_resampler
       [ramp_track] false (Warp.of_envelope None) 0 (10 / 44100) 1 4 false
       44100 false Downmix.grown false))).
    split; reflexivity.
  - apply (proj2 (proj2 (@Mixer_new_mixerSpec small_constants copy_resampler
       [ramp_track] false (Warp.of_envelope None) 0 (10 / 44100) 2 4 false
       44100 false Downmix.grown false))).
    intros [H _]. discriminate H.
Defined.

Lemma current_time_in_play_interval_witness :
  @in_play_interval copy_resampler (ramp_mixer 0 (10 / 44100)) ∧
  in_play_interval
    (SetSpeedForKeyboardScrubbing (ramp_mixer 0 (10 / 44100)) (-1) 0) ∧
  match @Process mix_h_constants copy_resampler 16
          (ramp_mixer 0 (10 / 44100)) 4 with
  | Done (s', _) => in_play_interval s'
  | Raised e => in_play_interval e
  | Timeout => False
  end.
Proof.
  destruct (@current_time_in_play_interval mix_h_constants copy_resampler)
    as (Hnew & _ & _ & Hscrub & Hproc).
  assert (Hin : @in_play_interval copy_resampler (ramp_mixer 0 (10 / 44100)))
    by apply Hnew.
  split; [exact Hin|]. split; [exact (Hscrub _ (-1) 0 Hin)|].
  specialize (Hproc (ramp_mixer 0 (10 / 44100)) 16%nat 4%nat Hin).
  destruct (@Process mix_h_constants copy_resampler 16
              (ramp_mixer 0 (10 / 44100)) 4) as [[s' n]|e|].
  - exact (proj1 (proj2 (proj2 Hproc))).
  - exact (proj2 (proj2 (proj2 Hproc))).
  - specialize (Hproc copy_resampler_contract).
    vm_compute in Hproc. lia.
Defined.

(** ** The further statements at work *)

Lemma copy_routes_alike_witness :
  Downmix.wf Downmix.two_of_four ∧ Downmix.shaped Downmix.two_of_four ∧
  Downmix.cell (Downmix.copy (λ _ _, false) Downmix.two_of_four) 1 1 =
    Downmix.cell Downmix.two_of_four 1 1 ∧
  Downmix.cell (Downmix.copy (λ _ _, false) Downmix.two_of_four) 1 3 =
    Some false ∧
  Downmix.cell Downmix.two_of_four 1 3 = Some true.
Proof.
  assert (Hwf : Downmix.wf Downmix.two_of_four) by (vm_compute; lia).
  assert (Hs : Downmix.shaped Downmix.two_of_four).
  { split; [reflexivity|]. repeat constructor. }
  destruct (copy_routes_alike (λ _ _, false) Downmix.two_of_four Hwf Hs)
    as (_ & _ & _ & _ & _ & _ & Hcell & _).
  split; [exact Hwf|]. split; [exact Hs|].
  split; [rewrite Hcell; reflexivity|].
  split; [rewrite Hcell; reflexivity|reflexivity].
Defined.

Lemma SetNumChannels_keeps_invariant_witness :
  Downmix.wf Downmix.two_of_four ∧ Downmix.shaped Downmix.two_of_four ∧
  Downmix.wf (Downmix.SetNumChannels Downmix.two_of_four 1).1 ∧
  Downmix.SetNumChannels (Downmix.SetNumChannels Downmix.two_of_four 1).1 1 =
    Downmix.SetNumChannels Downmix.two_of_four 1.
Proof.
  assert (Hwf : Downmix.wf Downmix.two_of_four) by (vm_compute; lia).
  assert (Hs : Downmix.shaped Downmix.two_of_four).
  { split; [reflexivity|]. repeat constructor. }
  destruct (SetNumChannels_keeps_invariant Downmix.two_of_four 1 Hwf Hs)
    as (Hwf' & _ & _ & _ & Hidem).
  exact (conj Hwf (conj Hs (conj Hwf' Hidem))).
Defined.

Lemma resized_routes_witness :
  (1 < 2)%nat ∧
  (1 < Downmix.mNumChannels (Downmix.resized Downmix.two_of_four [1%nat; 4%nat]))%nat ∧
  Downmix.cell Downmix.two_of_four 1 1 = Some true ∧
  Downmix.cell (Downmix.resized Downmix.two_of_four [1%nat; 4%nat]) 1 1 =
    Some (bool_decide
            (1 = 1 ∧ 1 < Downmix.least Downmix.two_of_four [1%nat; 4%nat])%nat) ∧
  Downmix.least Downmix.two_of_four [1%nat; 4%nat] = 1%nat.
Proof.
  assert (H1 : (1 < 2)%nat) by lia.
  assert (H2 : (1 < Downmix.mNumChannels
                      (Downmix.resized Downmix.two_of_four [1%nat; 4%nat]))%nat)
    by (vm_compute; lia).
  split; [exact H1|]. split; [exact H2|]. split; [reflexivity|].
  split; [|reflexivity].
  exact (resized_routes (λ _ _, true) 2 4 [1%nat; 4%nat] 1 1 H1 H2).
Defined.

Lemma refill_keeps_pending_witness :
  @queue_wf small_constants copy_resampler stale_input ∧
  match @refill small_constants copy_resampler silent_mixer 10 stale_input with
  | Done inp' =>
      @queue_wf small_constants copy_resampler inp' ∧ mQueueStart inp' = 0%Z ∧
      (mQueueLen stale_input <= mQueueLen inp')%Z ∧
      take (Z.to_nat (mQueueLen stale_input)) (mSampleQueue inp') =
        take (Z.to_nat (mQueueLen stale_input))
          (drop (Z.to_nat (mQueueStart stale_input))
             (mSampleQueue stale_input)) ∧
      (if backwards silent_mixer
       then mSamplePos inp' + mQueueLen inp' =
            mSamplePos stale_input + mQueueLen stale_input
       else mSamplePos inp' - mQueueLen inp' =
            mSamplePos stale_input - mQueueLen stale_input)%Z
  | Raised e =>
      mMayThrow silent_mixer = true ∧
      @queue_wf small_constants copy_resampler e ∧ mQueueStart e = 0%Z ∧
      mQueueLen e = mQueueLen stale_input ∧
      mSamplePos e = mSamplePos stale_input ∧
      take (Z.to_nat (mQueueLen stale_input)) (mSampleQueue e) =
        take (Z.to_nat (mQueueLen stale_input))
          (drop (Z.to_nat (mQueueStart stale_input))
             (mSampleQueue stale_input))
  | Timeout => False
  end.
Proof.
  assert (Hwf : @queue_wf small_constants copy_resampler stale_input).
  { split; [simpl; lia|reflexivity]. }
  split; [exact Hwf|].
  exact (@refill_keeps_pending small_constants copy_resampler silent_mixer 10
           stale_input Hwf).
Defined.

Lemma MixVariableRates_stays_in_range_witness :
  @queue_wf small_constants copy_resampler stale_input ∧
  (4 + @pending copy_resampler silent_mixer stale_input < 15)%nat ∧
  match @MixVariableRates small_constants copy_resampler 15 silent_mixer
          stale_input 4 with
  | Done (inp', n, pFloat) =>
      @queue_wf small_constants copy_resampler inp' ∧ mInputTrack inp' = silent_track ∧
      toward silent_mixer
        (TimeToLongSamples silent_track (tEnd silent_mixer silent_track))
        (mSamplePos stale_input) (mSamplePos inp')
  | Raised e =>
      mMayThrow silent_mixer = true ∧
      @queue_wf small_constants copy_resampler e ∧ mInputTrack e = silent_track ∧
      toward silent_mixer
        (TimeToLongSamples silent_track (tEnd silent_mixer silent_track))
        (mSamplePos stale_input) (mSamplePos e)
  | Timeout => False
  end.
Proof.
  assert (Hwf : @queue_wf small_constants copy_resampler stale_input).
  { split; [simpl; lia|reflexivity]. }
  assert (Hf : (4 + @pending copy_resampler silent_mixer stale_input
                < 15)%nat) by (vm_compute; lia).
  split; [exact Hwf|]. split; [exact Hf|].
  exact (@MixVariableRates_stays_in_range small_constants copy_resampler
           copy_resampler_contract silent_mixer stale_input 4 15 Hwf Hf).
Defined.

Lemma queues_within_allocation_witness :
  Forall (@queue_wf small_constants copy_resampler) (mInputs onbeat_mixer) ∧
  (@fuel_bound copy_resampler onbeat_mixer 4 <= 16)%nat ∧
  match @Process small_constants copy_resampler 16 onbeat_mixer 4 with
  | Done (s', _) =>
      Forall2 (@kept small_constants copy_resampler onbeat_mixer) (mInputs onbeat_mixer) (mInputs s')
  | Raised e =>
      mMayThrow onbeat_mixer = true ∧
      Forall2 (@kept small_constants copy_resampler onbeat_mixer) (mInputs onbeat_mixer) (mInputs e)
  | Timeout => False
  end.
Proof.
  destruct (@queues_within_allocation small_constants copy_resampler
              copy_resampler_contract) as (Hnew & _ & _ & _ & Hproc).
  assert (Hwf : Forall (@queue_wf small_constants copy_resampler)
                  (mInputs onbeat_mixer)) by apply Hnew.
  assert (Hf : (@fuel_bound copy_resampler onbeat_mixer 4 <= 16)%nat)
    by (vm_compute; lia).
  split; [exact Hwf|]. split; [exact Hf|].
  exact (Hproc onbeat_mixer 16%nat 4%nat Hwf Hf).
Defined.

Lemma Process_same_rate_witness :
  @same_rate copy_resampler onbeat_mixer ∧
  (length (mInputs onbeat_mixer) <= 1)%nat ∧
  match @Process small_constants copy_resampler 1 onbeat_mixer 4 with
  | Done (s', n) =>
      same_rate s' ∧
      Forall2 (advanced onbeat_mixer) (mInputs onbeat_mixer) (mInputs s')
  | Raised e =>
      mMayThrow onbeat_mixer = true ∧
      Forall2 (advanced onbeat_mixer) (mInputs onbeat_mixer) (mInputs e)
  | Timeout => False
  end.
Proof.
  assert (Hs : @same_rate copy_resampler onbeat_mixer).
  { split; [reflexivity|]. repeat constructor. }
  assert (Hl : (length (mInputs onbeat_mixer) <= 1)%nat) by (vm_compute; lia).
  split; [exact Hs|]. split; [exact Hl|].
  exact (@Process_same_rate small_constants copy_resampler onbeat_mixer 1 4
           Hs Hl).
Defined.

Lemma Process_single_input_witness :
  mInputs onbeat_mixer = [onbeat_input] ∧
  ChannelsSize (mInputTrack onbeat_input) = 1%positive ∧
  @mix_input small_constants copy_resampler 1 onbeat_mixer onbeat_input 4 =
    Done (set_mSamplePos onbeat_input 5, 4%nat,
          map (λ i, inject_Z (1 + Z.of_nat i) / 10 * 1) (seq 0 4)) ∧
  ∃ s',
    @Process small_constants copy_resampler 1 onbeat_mixer 4 =
      Done (s', 4%nat) ∧
    mInputs s' = [set_mSamplePos onbeat_input 5] ∧
    mTime s' == 5 / 44100 ∧
    ∀ row k x, mTemp s' !! 0%nat = Some row → row !! k = Some x →
      x == match [1 / 10; 2 / 10; 3 / 10; 4 / 10] !! k with
           | Some v => v
           | None => 0
           end.
Proof.
  assert (Hin : mInputs onbeat_mixer = [onbeat_input]) by reflexivity.
  assert (Hsize : ChannelsSize (mInputTrack onbeat_input) = 1%positive)
    by reflexivity.
  assert (Hmix : @mix_input small_constants copy_resampler 1 onbeat_mixer
                   onbeat_input 4 =
                 Done (set_mSamplePos onbeat_input 5, 4%nat,
                       map (λ i, inject_Z (1 + Z.of_nat i) / 10 * 1)
                         (seq 0 4)))
    by (vm_compute; reflexivity).
  split; [exact Hin|]. split; [exact Hsize|]. split; [exact Hmix|].
  destruct (@Process_single_input small_constants copy_resampler
              onbeat_mixer onbeat_input _ 0 4 _ _ Hin Hsize Hmix)
    as (s' & HP & Hrows & Htime & Hsamples).
  exists s'. split; [exact HP|]. split; [exact Hrows|].
  split; [rewrite Htime; reflexivity|].
  intros row k x Hrow Hx.
  rewrite (Hsamples 0%nat row k x Hrow Hx).
  destruct k as [|[|[|[|k]]]]; reflexivity.
Defined.

Lemma Process_accumulators_witness :
  (@fuel_bound copy_resampler onbeat_mixer 4 <= 16)%nat ∧
  match @Process small_constants copy_resampler 16 onbeat_mixer 4 with
  | Done (s', n) =>
      Forall2 (λ row' row,
          length row' = length row ∧
          ∀ k x, (n <= k)%nat → row' !! k = Some x → x = 0)
        (mTemp s') (mTemp onbeat_mixer)
  | Raised e =>
      mMayThrow onbeat_mixer = true ∧
      Forall2 (λ row' row, length row' = length row)
        (mTemp e) (mTemp onbeat_mixer)
  | Timeout => False
  end.
Proof.
  assert (H : (@fuel_bound copy_resampler onbeat_mixer 4 <= 16)%nat)
    by (vm_compute; lia).
  split; [exact H|].
  exact (@Process_accumulators small_constants copy_resampler
           copy_resampler_contract onbeat_mixer 4 16 H).
Defined.

Lemma Process_skips_third_channel_witness :
  mInputs surround_mixer !! 0%nat =
    Some (@mkInput copy_resampler (grouped_ramp 3) 0 (replicate 8 0) 0 0 tt) ∧
  (2 <= 2 < Pos.to_nat (ChannelsSize (grouped_ramp 3)))%nat ∧
  (@fuel_bound copy_resampler surround_mixer 4 <= 18)%nat ∧
  match @Process small_constants copy_resampler 18 surround_mixer 4 with
  | Done (s', _) => mInputs s' !! 2%nat = mInputs surround_mixer !! 2%nat
  | Raised e =>
      mMayThrow surround_mixer = true ∧
      mInputs e !! 2%nat = mInputs surround_mixer !! 2%nat
  | Timeout => False
  end.
Proof.
  assert (Hl : mInputs surround_mixer !! 0%nat =
    Some (@mkInput copy_resampler (grouped_ramp 3) 0 (replicate 8 0) 0 0 tt))
    by reflexivity.
  assert (Hk : (2 <= 2 < Pos.to_nat (ChannelsSize (grouped_ramp 3)))%nat)
    by (vm_compute; lia).
  assert (Hf : (@fuel_bound copy_resampler surround_mixer 4 <= 18)%nat)
    by (vm_compute; lia).
  split; [exact Hl|]. split; [exact Hk|]. split; [exact Hf|].
  exact (@Process_skips_third_channel small_constants copy_resampler
           copy_resampler_contract surround_mixer _ 18 4 2 Hl Hk Hf).
Defined.

Lemma Mixer_new_mix_input_witness :
  [ramp_track] ≠ [] ∧
  @mix_input small_constants copy_resampler 1 onbeat_mixer onbeat_input 4 =
    @MixSameRate copy_resampler onbeat_mixer onbeat_input 4.
Proof.
  assert (Hne : [ramp_track] ≠ []) by discriminate.
  split; [exact Hne|].
  exact (@Mixer_new_mix_input small_constants copy_resampler [ramp_track]
           false (Warp.of_envelope None) (1 / 44100) (10 / 44100) 1 4 false
           44100 false None false onbeat_input 1 4 Hne).
Defined.

Lemma Warp_of_speeds_spec_witness :
  0 <= (1 # 2) ∧ 0 <= 2 ∧ (1 # 2) <= 2 ∧ [ramp_track] ≠ [] ∧
  Warp.minSpeed (Warp.of_speeds (1 # 2) 2 1) == 1 # 2 ∧
  Warp.maxSpeed (Warp.of_speeds (1 # 2) 2 1) == 2 ∧
  ResampleParameters.mbVariableRates
    (ResampleParameters.new [ramp_track] 44100 (Warp.of_speeds (1 # 2) 2 1))
  = true.
Proof.
  assert (H1 : 0 <= (1 # 2)) by (vm_compute; discriminate).
  assert (H2 : 0 <= 2) by (vm_compute; discriminate).
  assert (H3 : (1 # 2) <= 2) by (vm_compute; discriminate).
  assert (H4 : [ramp_track] ≠ []) by discriminate.
  split; [exact H1|]. split; [exact H2|]. split; [exact H3|].
  split; [exact H4|].
  destruct (Warp_of_speeds_spec (1 # 2) 2 1 [ramp_track] 44100 H1 H2 H3 H4)
    as (_ & _ & Hlo & Hhi & Hvar).
  split; [exact Hlo|]. split; [exact Hhi|].
  apply Hvar. reflexivity.
Defined.

Lemma MixVariableRates_at_end_witness :
  @queue_wf small_constants copy_resampler
    ended_input ∧
  (@remaining copy_resampler silent_mixer
     ended_input <= 0)%Z ∧
  (0 < 4)%nat ∧
  ∃ factor,
    @MixVariableRates small_constants copy_resampler 1 silent_mixer
      ended_input 4 =
    Done (@mkInput copy_resampler silent_track 10 (replicate 8 1) 0 0
            (@Resample_Process copy_resampler tt factor (replicate 8 1) 0 true
               4).1,
          length (@Resample_Process copy_resampler tt factor (replicate 8 1)
                    0 true 4).2.2,
          (@Resample_Process copy_resampler tt factor (replicate 8 1) 0 true
             4).2.2).
Proof.
  assert (Hwf : @queue_wf small_constants copy_resampler
            ended_input).
  { split; [simpl; lia|reflexivity]. }
  assert (Hrem : (@remaining copy_resampler silent_mixer
            ended_input
            <= 0)%Z) by (vm_compute; discriminate).
  assert (Hmax : (0 < 4)%nat) by lia.
  split; [exact Hwf|]. split; [exact Hrem|]. split; [exact Hmax|].
  destruct (@MixVariableRates_at_end small_constants copy_resampler
              copy_resampler_contract silent_mixer
              ended_input
              4 0 Hwf eq_refl Hrem Hmax) as (factor & _ & H).
  exists factor. exact H.
Defined.
